(** * ENS reminder service: store, gateway, scheduler and reminder engine

    A shallow embedding of the TypeScript services
    - [MockDatabaseService]  (services/mock-database.ts),
    - [MockXMTPService]      (services/mock-xmtp.ts),
    - [MockCronService]      (services/mock-cron.ts),
    - [ReminderService]      (services/reminder-service.ts),
    and the properties of the reminder engine proved about them.

    Conventions.  JavaScript numbers are integers ([Z]); strings are
    [string]; objects used as rows are finite maps from property names to
    values; a JavaScript [Map] keeps its entries in insertion order and is an
    association list with unique keys; exceptions are explicit outcomes;
    every reading of the clock ([new Date()], [Date.now()]) is an argument;
    an [async] function is a task that gives way at each [await], and the
    passes in progress are part of the state, resumed one at a time. *)

From Stdlib Require Import ZArith String Ascii List Lia Bool.
From stdpp Require Import base gmap strings list pretty relations.

Local Open Scope string_scope.
Local Open Scope list_scope.
Local Open Scope Z_scope.

(* ===================================================================== *)
(** * JavaScript values and the built-ins the services rely on *)
(* ===================================================================== *)

Module Js.

(** Primitive values held in rows, patches and filters. *)
Inductive value : Type :=
| VUndef
| VNull
| VBool (b : bool)
| VNum (n : Z)
| VStr (s : string).

#[global] Instance value_eq_dec : EqDecision value.
Proof. solve_decision. Defined.

(** [a === b] on primitives: same type and same value. *)
Definition strictEq (a b : value) : bool := bool_decide (a = b).

(** Truthiness, as used by [x || y]. *)
Definition truthy (v : value) : bool :=
  match v with
  | VUndef | VNull => false
  | VBool b => b
  | VNum n => negb (n =? 0)
  | VStr s => negb (String.eqb s EmptyString)
  end.

(** [a || b]. *)
Definition or_else (a b : value) : value := if truthy a then a else b.

(** ** Strings *)

(** [s.endsWith(suffix)]. *)
Definition endsWith (s suffix : string) : bool :=
  String.prefix (String.rev suffix) (String.rev s).

(** [s.includes(pat)]. *)
Fixpoint includes (s pat : string) : bool :=
  String.prefix pat s
  || match s with
     | EmptyString => false
     | String _ s' => includes s' pat
     end.

(** Drop the first [n] characters. *)
Fixpoint dropString (n : nat) (s : string) : string :=
  match n, s with
  | O, _ => s
  | S n', String _ s' => dropString n' s'
  | S _, EmptyString => EmptyString
  end.

(** [s.replace(pat, rep)] with a string pattern: only the first occurrence
    is replaced. *)
Fixpoint replace (s pat rep : string) : string :=
  if String.prefix pat s then rep +:+ dropString (String.length pat) s
  else match s with
       | EmptyString => EmptyString
       | String c s' => String c (replace s' pat rep)
       end.

(** Number to string, as in a template literal: decimal digits with a
    leading minus sign for negative integers. *)
Definition numberToString (n : Z) : string := pretty n.

(** [`${v}`]. *)
Definition toString (v : value) : string :=
  match v with
  | VUndef => "undefined"
  | VNull => "null"
  | VBool true => "true"
  | VBool false => "false"
  | VNum n => numberToString n
  | VStr s => s
  end.

(** ** Numeric conversion and relational comparison *)

Definition digitValue (c : ascii) : option Z :=
  let n := Z.of_nat (nat_of_ascii c) in
  if (48 <=? n) && (n <=? 57) then Some (n - 48) else None.

Fixpoint digitsValue (acc : Z) (s : string) : option Z :=
  match s with
  | EmptyString => Some acc
  | String c s' =>
      match digitValue c with
      | Some d => digitsValue (10 * acc + d) s'
      | None => None
      end
  end.

(** [Number(s)] for a string: the empty string is 0 and an optionally
    signed run of decimal digits is its value.  [None] stands for NaN.
    Numbers of this model are integers, so literals with a fraction, an
    exponent or a radix prefix (and surrounding white space) are outside it
    and are read as NaN. *)
Definition stringToNumber (s : string) : option Z :=
  match s with
  | EmptyString => Some 0
  | String "-" (String c r) => Z.opp <$> digitsValue 0 (String c r)
  | String "+" (String c r) => digitsValue 0 (String c r)
  | _ => digitsValue 0 s
  end.

(** [ToNumber]; [None] is NaN. *)
Definition toNumber (v : value) : option Z :=
  match v with
  | VUndef => None
  | VNull => Some 0
  | VBool b => Some (if b then 1 else 0)
  | VNum n => Some n
  | VStr s => stringToNumber s
  end.

(** The abstract relational comparison [a < b]: two strings are compared
    as strings (by code unit), anything else numerically; [None] is the
    "undefined" answer given when an operand is NaN. *)
Definition lessThan (a b : value) : option bool :=
  match a, b with
  | VStr s, VStr t => Some (String.ltb s t)
  | _, _ =>
      match toNumber a, toNumber b with
      | Some x, Some y => Some (x <? y)
      | _, _ => None
      end
  end.

(** [a < b], [a > b], [a <= b], [a >= b]. *)
Definition lt (a b : value) : bool :=
  match lessThan a b with Some true => true | _ => false end.
Definition gt (a b : value) : bool :=
  match lessThan b a with Some true => true | _ => false end.
Definition le (a b : value) : bool :=
  match lessThan b a with Some false => true | _ => false end.
Definition ge (a b : value) : bool :=
  match lessThan a b with Some false => true | _ => false end.

(** ** Dates

    Time values are milliseconds since the epoch.  [toISOString] and the
    parser below cover the format [YYYY-MM-DDTHH:mm:ss.sssZ] that
    [Date.prototype.toISOString] produces for years 0000 to 9999, which is
    the format every timestamp of the store is written in. *)

Definition msPerDay : Z := 1000 * 60 * 60 * 24.

(** Days since the epoch of a proleptic Gregorian date. *)
Definition daysFromCivil (y m d : Z) : Z :=
  let y' := if m <=? 2 then y - 1 else y in
  let era := y' / 400 in
  let yoe := y' - era * 400 in
  let doy := (153 * (if 2 <? m then m - 3 else m + 9) + 2) / 5 + d - 1 in
  let doe := yoe * 365 + yoe / 4 - yoe / 100 + doy in
  era * 146097 + doe - 719468.

(** The inverse: year, month and day of a day number. *)
Definition civilFromDays (z : Z) : Z * Z * Z :=
  let z' := z + 719468 in
  let era := z' / 146097 in
  let doe := z' - era * 146097 in
  let yoe := (doe - doe / 1460 + doe / 36524 - doe / 146096) / 365 in
  let doy := doe - (365 * yoe + yoe / 4 - yoe / 100) in
  let mp := (5 * doy + 2) / 153 in
  let d := doy - (153 * mp + 2) / 5 + 1 in
  let m := if mp <? 10 then mp + 3 else mp - 9 in
  (if m <=? 2 then yoe + era * 400 + 1 else yoe + era * 400, m, d).

(** A non-negative number padded with zeros on the left to [w] digits. *)
Definition padLeft (w : nat) (n : Z) : string :=
  let s := numberToString n in
  String.concat EmptyString (List.repeat "0" (w - String.length s)) +:+ s.

(** [new Date(t).toISOString()]. *)
Definition toISOString (t : Z) : string :=
  let days := t / msPerDay in
  let ms := t mod msPerDay in
  let '(y, m, d) := civilFromDays days in
  padLeft 4 y +:+ "-" +:+ padLeft 2 m +:+ "-" +:+ padLeft 2 d +:+ "T"
  +:+ padLeft 2 (ms / 3600000) +:+ ":" +:+ padLeft 2 (ms / 60000 mod 60)
  +:+ ":" +:+ padLeft 2 (ms / 1000 mod 60) +:+ "."
  +:+ padLeft 3 (ms mod 1000) +:+ "Z".

(** [n] digits at the head of [s], and the rest. *)
Fixpoint takeDigits (n : nat) (acc : Z) (s : string) : option (Z * string) :=
  match n, s with
  | O, _ => Some (acc, s)
  | S n', String c s' =>
      match digitValue c with
      | Some d => takeDigits n' (10 * acc + d) s'
      | None => None
      end
  | S _, EmptyString => None
  end.

(** The literal character [c] at the head of [s]. *)
Definition expectChar (c : ascii) (s : string) : option string :=
  match s with
  | String c' s' => if Ascii.eqb c c' then Some s' else None
  | EmptyString => None
  end.

Definition daysInMonth (y m : Z) : Z :=
  daysFromCivil (if m =? 12 then y + 1 else y) (if m =? 12 then 1 else m + 1) 1
  - daysFromCivil y m 1.

(** [Date.parse(s)] on the ISO format above; [None] is NaN. *)
Definition parseISO (s : string) : option Z :=
  '(y, s) ← takeDigits 4 0 s;
  s ← expectChar "-" s;
  '(m, s) ← takeDigits 2 0 s;
  s ← expectChar "-" s;
  '(d, s) ← takeDigits 2 0 s;
  s ← expectChar "T" s;
  '(hh, s) ← takeDigits 2 0 s;
  s ← expectChar ":" s;
  '(mi, s) ← takeDigits 2 0 s;
  s ← expectChar ":" s;
  '(ss, s) ← takeDigits 2 0 s;
  s ← expectChar "." s;
  '(ms, s) ← takeDigits 3 0 s;
  s ← expectChar "Z" s;
  if String.eqb s EmptyString
     && (1 <=? m) && (m <=? 12) && (1 <=? d) && (d <=? daysInMonth y m)
     && (hh <=? 23) && (mi <=? 59) && (ss <=? 59)
  then Some (daysFromCivil y m d * msPerDay
             + hh * 3600000 + mi * 60000 + ss * 1000 + ms)
  else None.

(** [new Date(v).getTime()]; [None] is NaN (an invalid date). *)
Definition dateGetTime (v : value) : option Z :=
  match v with
  | VUndef => None
  | VNull => Some 0
  | VBool b => Some (if b then 1 else 0)
  | VNum n => Some n
  | VStr s => parseISO s
  end.

(** [Math.ceil(a / b)] for integers [a] and positive [b]. *)
Definition ceilDiv (a b : Z) : Z := - ((- a) / b).

(** ** Objects as rows *)

(** [r[k]]: a missing property reads as [undefined]. *)
Definition get (r : gmap string value) (k : string) : value :=
  default VUndef (r !! k).

(** [{...a, ...b}]: the properties of [b] override those of [a]. *)
Definition spread (a b : gmap string value) : gmap string value := b ∪ a.

(** ** [Map]

    A [Map<K, V>] is the list of its entries in insertion order, with
    unique keys.  [m.has(k)], [m.get(k)], [m.set(k, v)] (an existing key
    keeps its place), [m.delete(k)], [Array.from(m.values())]. *)

Definition mapHas {K V : Type} `{EqDecision K} (k : K) (m : list (K * V)) : bool :=
  existsb (λ e, bool_decide (e.1 = k)) m.

Definition mapGet {K V : Type} `{EqDecision K} (k : K) (m : list (K * V)) : option V :=
  snd <$> List.find (λ e, bool_decide (e.1 = k)) m.

Definition mapSet {K V : Type} `{EqDecision K} (k : K) (v : V) (m : list (K * V))
    : list (K * V) :=
  if mapHas k m
  then (λ e, if bool_decide (e.1 = k) then (k, v) else e) <$> m
  else m ++ [(k, v)].

Definition mapDelete {K V : Type} `{EqDecision K} (k : K) (m : list (K * V))
    : list (K * V) :=
  List.filter (λ e, negb (bool_decide (e.1 = k))) m.

Definition mapValues {K V : Type} (m : list (K * V)) : list V := m.*2.

Definition mapKeys {K V : Type} (m : list (K * V)) : list K := m.*1.

#[global] Arguments toISOString : simpl never.
#[global] Arguments parseISO : simpl never.
#[global] Arguments numberToString : simpl never.
#[global] Arguments get : simpl never.
#[global] Arguments or_else : simpl never.
#[global] Arguments mapSet : simpl never.
#[global] Arguments mapGet : simpl never.

End Js.

Export Js.

Example toISOString_epoch : toISOString 0 = "1970-01-01T00:00:00.000Z".
Proof. vm_compute. reflexivity. Qed.
Example toISOString_2024 : toISOString 1709210096789 = "2024-02-29T12:34:56.789Z".
Proof. vm_compute. reflexivity. Qed.
Example parseISO_2024 : parseISO "2024-02-29T12:34:56.789Z" = Some 1709210096789.
Proof. vm_compute. reflexivity. Qed.
Example parseISO_bad : parseISO "2023-02-29T12:34:56.789Z" = None.
Proof. vm_compute. reflexivity. Qed.

(* ===================================================================== *)
(** * MockDatabaseService (services/mock-database.ts) *)
(* ===================================================================== *)

Module MockDatabase.

(** A stored record: [ReminderRecord], [SentReminderRecord] or
    [ConversationRecord], all handled as plain objects by the store. *)
Abbreviation Row := (gmap string value).

(** [Map<number, Row>]: entries in insertion order, keys unique. *)
Abbreviation Table := (list (Z * Row)).

(** The [error] field of a result: the object [{ message }] built by the
    store, or an exception caught by one of its [try] blocks. *)
Inductive dberror : Type :=
| UnknownTable (table : string)
| Caught (what : string).

(** [QueryResult], [InsertResult], [UpdateResult], [DeleteResult]. *)
Record Result (A : Type) : Type := mkResult {
  data : option A;
  error : option dberror
}.
Arguments mkResult {A} _ _.
Arguments data {A} _.
Arguments error {A} _.

Record NextId : Type := mkNextId {
  nextReminders : Z;
  nextSentReminders : Z;
  nextConversations : Z
}.

(** The private state of the service. *)
Record Db : Type := mkDb {
  reminders : Table;
  sentReminders : Table;
  conversations : Table;
  nextId : NextId
}.

(** [seedTestData] applied to the fields as initialised: one reminder,
    [test.eth], expiring seven days after construction. *)
Definition newDb (now : Z) : Db :=
  {| reminders :=
       [(1, <["id" := VNum 1]>
              (<["domain" := VStr "test.eth"]>
              (<["wallet_address" := VStr "0xtest123"]>
              (<["expiry_date" := VStr (toISOString (now + 7 * 24 * 60 * 60 * 1000))]>
              (<["reminders_sent" := VStr "[]"]>
              (<["created_at" := VStr (toISOString now)]> ∅))))))];
     sentReminders := [];
     conversations := [];
     nextId := {| nextReminders := 2; nextSentReminders := 1;
                  nextConversations := 1 |} |}.


(** The [switch (table)] shared by the four executors: the rows of a known
    table, [None] in the [default] case. *)
Definition tableOf (db : Db) (table : string) : option Table :=
  if String.eqb table "reminders" then Some (reminders db)
  else if String.eqb table "sent_reminders" then Some (sentReminders db)
  else if String.eqb table "conversations" then Some (conversations db)
  else None.

(** The filter object [{ [key]: value }], as [Object.entries] lists it. *)
Abbreviation Filters := (list (string * value)).

(** One entry of the filter object against one record, as the callback of
    [data.filter] in [executeSelect] decides it: the operator is read back
    from the suffix of the key. *)
Definition selectEntry (record : Row) (key : string) (v : value) : bool :=
  if endsWith key "_neq" then
    negb (strictEq (get record (replace key "_neq" EmptyString)) v)
  else if endsWith key "_lt" then
    lt (get record (replace key "_lt" EmptyString)) v
  else if endsWith key "_lte" then
    le (get record (replace key "_lte" EmptyString)) v
  else if endsWith key "_gt" then
    gt (get record (replace key "_gt" EmptyString)) v
  else if endsWith key "_gte" then
    ge (get record (replace key "_gte" EmptyString)) v
  else
    strictEq (get record key) v.

Definition selectMatches (filters : Filters) (record : Row) : bool :=
  forallb (λ kv, selectEntry record kv.1 kv.2) filters.

(** [executeSelect(table, columns, filters)]. *)
Definition executeSelect (table columns : string) (filters : Filters)
    (db : Db) : Result (list Row) :=
  match tableOf db table with
  | Some rows =>
      mkResult (Some (List.filter (selectMatches filters) (mapValues rows))) None
  | None => mkResult None (Some (UnknownTable table))
  end.

(** [matchesFilters(record, filters)]: equality on every entry. *)
Definition matchesFilters (record : Row) (filters : Filters) : bool :=
  forallb (λ kv, strictEq (get record kv.1) kv.2) filters.

(** The argument of [insert]: one object, or an array of which only the
    first element is used ([Array.isArray(data) ? data[0] : data]). *)
Inductive InsertData : Type :=
| One (record : Row)
| Many (records : list Row).

Definition firstRecord (d : InsertData) : option Row :=
  match d with
  | One r => Some r
  | Many rs => head rs
  end.

(** [executeInsert(table, data)].  The counter is advanced before the new
    record is built; reading [record.created_at] of a missing record (an
    empty array was passed) throws inside the [try] and is returned as an
    error, with the counter already advanced. *)
Definition executeInsert (table : string) (d : InsertData) (now : Z)
    (db : Db) : Result Row * Db :=
  let record := firstRecord d in
  let n := nextId db in
  if String.eqb table "reminders" then
    let reminderId := nextReminders n in
    let n' := {| nextReminders := reminderId + 1;
                 nextSentReminders := nextSentReminders n;
                 nextConversations := nextConversations n |} in
    match record with
    | Some r =>
        let reminderRecord :=
          <["updated_at" := VStr (toISOString now)]>
          (<["created_at" := or_else (get r "created_at") (VStr (toISOString now))]>
          (<["id" := VNum reminderId]> r)) in
        (mkResult (Some reminderRecord) None,
         {| reminders := mapSet reminderId reminderRecord (reminders db);
            sentReminders := sentReminders db;
            conversations := conversations db;
            nextId := n' |})
    | None =>
        (mkResult None (Some (Caught "TypeError")),
         {| reminders := reminders db; sentReminders := sentReminders db;
            conversations := conversations db; nextId := n' |})
    end
  else if String.eqb table "sent_reminders" then
    let sentId := nextSentReminders n in
    let n' := {| nextReminders := nextReminders n;
                 nextSentReminders := sentId + 1;
                 nextConversations := nextConversations n |} in
    let sentRecord := <["id" := VNum sentId]> (default ∅ record) in
    (mkResult (Some sentRecord) None,
     {| reminders := reminders db;
        sentReminders := mapSet sentId sentRecord (sentReminders db);
        conversations := conversations db;
        nextId := n' |})
  else if String.eqb table "conversations" then
    let convId := nextConversations n in
    let n' := {| nextReminders := nextReminders n;
                 nextSentReminders := nextSentReminders n;
                 nextConversations := convId + 1 |} in
    match record with
    | Some r =>
        let convRecord :=
          <["created_at" := or_else (get r "created_at") (VStr (toISOString now))]>
          (<["id" := VNum convId]> r) in
        (mkResult (Some convRecord) None,
         {| reminders := reminders db;
            sentReminders := sentReminders db;
            conversations := mapSet convId convRecord (conversations db);
            nextId := n' |})
    | None =>
        (mkResult None (Some (Caught "TypeError")),
         {| reminders := reminders db; sentReminders := sentReminders db;
            conversations := conversations db; nextId := n' |})
    end
  else (mkResult None (Some (UnknownTable table)), db).

(** The loop of [executeUpdate] over one table: every entry whose record
    matches is replaced, under the same key, by [patched record]. *)
Definition updateRows (patched : Row → Row) (filters : Filters)
    (rows : Table) : Table :=
  (λ e, if matchesFilters e.2 filters then (e.1, patched e.2) else e) <$> rows.

Definition countMatching (filters : Filters) (rows : Table) : Z :=
  Z.of_nat (length (List.filter (λ e, matchesFilters e.2 filters) rows)).

(** [executeUpdate(table, data, filters)]; the result carries
    [{ count: updated }].  An unknown table falls through the [switch]: no
    row is touched and the count is 0, without an error. *)
Definition executeUpdate (table : string) (patch : Row) (filters : Filters)
    (now : Z) (db : Db) : Result Z * Db :=
  if String.eqb table "reminders" then
    (mkResult (Some (countMatching filters (reminders db))) None,
     {| reminders :=
          updateRows
            (λ record, <["updated_at" := VStr (toISOString now)]> (spread record patch))
            filters (reminders db);
        sentReminders := sentReminders db;
        conversations := conversations db;
        nextId := nextId db |})
  else if String.eqb table "sent_reminders" then
    (mkResult (Some (countMatching filters (sentReminders db))) None,
     {| reminders := reminders db;
        sentReminders :=
          updateRows (λ record, spread record patch) filters (sentReminders db);
        conversations := conversations db;
        nextId := nextId db |})
  else if String.eqb table "conversations" then
    (mkResult (Some (countMatching filters (conversations db))) None,
     {| reminders := reminders db;
        sentReminders := sentReminders db;
        conversations :=
          updateRows (λ record, spread record patch) filters (conversations db);
        nextId := nextId db |})
  else (mkResult (Some 0) None, db).

Definition deleteRows (filters : Filters) (rows : Table) : Table :=
  List.filter (λ e, negb (matchesFilters e.2 filters)) rows.

(** [executeDelete(table, filters)]. *)
Definition executeDelete (table : string) (filters : Filters)
    (db : Db) : Result Z * Db :=
  if String.eqb table "reminders" then
    (mkResult (Some (countMatching filters (reminders db))) None,
     {| reminders := deleteRows filters (reminders db);
        sentReminders := sentReminders db;
        conversations := conversations db;
        nextId := nextId db |})
  else if String.eqb table "sent_reminders" then
    (mkResult (Some (countMatching filters (sentReminders db))) None,
     {| reminders := reminders db;
        sentReminders := deleteRows filters (sentReminders db);
        conversations := conversations db;
        nextId := nextId db |})
  else if String.eqb table "conversations" then
    (mkResult (Some (countMatching filters (conversations db))) None,
     {| reminders := reminders db;
        sentReminders := sentReminders db;
        conversations := deleteRows filters (conversations db);
        nextId := nextId db |})
  else (mkResult (Some 0) None, db).

(** ** The query builders

    [from(table).select(columns)] returns an object with the methods [eq],
    [neq], [lt], [lte], [gt], [gte], [order] and [then].  Each of the first
    seven returns a new object whose only method is [then]. *)

Inductive predicate : Type := Eq | Neq | Lt | Lte | Gt | Gte.

(** The key under which a predicate method files its value. *)
Definition filterKey (p : predicate) (column : string) : string :=
  match p with
  | Eq => column
  | Neq => column +:+ "_neq"
  | Lt => column +:+ "_lt"
  | Lte => column +:+ "_lte"
  | Gt => column +:+ "_gt"
  | Gte => column +:+ "_gte"
  end.

(** Column names that cannot be mistaken for an encoded key: they contain
    none of the operator suffixes ([_lte] and [_gte] contain [_lt] and
    [_gt]).  Every column of the three tables is of this kind. *)
Definition plainColumn (column : string) : bool :=
  negb (includes column "_neq") && negb (includes column "_lt")
  && negb (includes column "_gt").

Inductive method : Type :=
| Pred (p : predicate) (column : string) (v : value)
| Order (column : string) (ascending : option bool).

(** The objects a select query goes through. *)
Inductive handle : Type :=
| SelectQuery (table columns : string)
| Filtered (table columns : string) (filters : Filters)
| Ordered (table columns column : string) (ascending : option bool).

(** [createSelectQuery(table, columns)]. *)
Definition createSelectQuery (table columns : string) : handle :=
  SelectQuery table columns.

(** A method call [h.m(...)]: [inr] is the [TypeError] raised by calling a
    method the object does not have. *)
Definition call (h : handle) (m : method) : handle + string :=
  match h, m with
  | SelectQuery table columns, Pred p column v =>
      inl (Filtered table columns [(filterKey p column, v)])
  | SelectQuery table columns, Order column ascending =>
      inl (Ordered table columns column ascending)
  | _, Pred Eq _ _ => inr "eq is not a function"
  | _, Pred Neq _ _ => inr "neq is not a function"
  | _, Pred Lt _ _ => inr "lt is not a function"
  | _, Pred Lte _ _ => inr "lte is not a function"
  | _, Pred Gt _ _ => inr "gt is not a function"
  | _, Pred Gte _ _ => inr "gte is not a function"
  | _, Order _ _ => inr "order is not a function"
  end.

(** The comparator of [order]: [options?.ascending !== false]. *)
Definition orderCompare (column : string) (ascending : option bool)
    (a b : Row) : Z :=
  let asc := match ascending with Some false => false | _ => true end in
  if lt (get a column) (get b column) then (if asc then -1 else 1)
  else if gt (get a column) (get b column) then (if asc then 1 else -1)
  else 0.

(** [Array.prototype.sort] with a comparator, as a stable insertion sort. *)
Fixpoint insertSorted (cmp : Row → Row → Z) (x : Row) (l : list Row) : list Row :=
  match l with
  | [] => [x]
  | y :: l' => if cmp y x <? 0 then y :: insertSorted cmp x l' else x :: l
  end.

Definition sortRows (cmp : Row → Row → Z) (l : list Row) : list Row :=
  foldr (insertSorted cmp) [] l.

(** [h.then(callback)]: the result handed to the callback. *)
Definition resolve (h : handle) (db : Db) : Result (list Row) :=
  match h with
  | SelectQuery table columns => executeSelect table columns [] db
  | Filtered table columns filters => executeSelect table columns filters db
  | Ordered table columns column ascending =>
      let result := executeSelect table columns [] db in
      mkResult (sortRows (orderCompare column ascending) <$> data result)
               (error result)
  end.

(** A chain of method calls on [from(table).select()], then [then]:
    [inr] when a call in the chain raises. *)
Fixpoint chain (h : handle) (ms : list method) : handle + string :=
  match ms with
  | [] => inl h
  | m :: ms' =>
      match call h m with
      | inl h' => chain h' ms'
      | inr e => inr e
      end
  end.

Definition selectChain (table : string) (ms : list method) (db : Db)
    : Result (list Row) + string :=
  match chain (createSelectQuery table "*") ms with
  | inl h => inl (resolve h db)
  | inr e => inr e
  end.

(** [from(table).update(data).eq(column, value)] and
    [from(table).delete().eq(column, value)], resolved. *)
Definition updateEq (table : string) (patch : Row) (column : string)
    (v : value) (now : Z) (db : Db) : Result Z * Db :=
  executeUpdate table patch [(column, v)] now db.

Definition deleteEq (table : string) (column : string) (v : value)
    (db : Db) : Result Z * Db :=
  executeDelete table [(column, v)] db.

(** [from(table).insert(data)], resolved. *)
Definition insert (table : string) (d : InsertData) (now : Z) (db : Db)
    : Result Row * Db :=
  executeInsert table d now db.

(** The comparison a predicate method stands for. *)
Definition holds (p : predicate) (a b : value) : bool :=
  match p with
  | Eq => strictEq a b
  | Neq => negb (strictEq a b)
  | Lt => lt a b
  | Lte => le a b
  | Gt => gt a b
  | Gte => ge a b
  end.

Definition knownTable (table : string) : bool :=
  String.eqb table "reminders" || String.eqb table "sent_reminders"
  || String.eqb table "conversations".

(** The counter [nextId] keeps for a table. *)
Definition nextIdOf (db : Db) (table : string) : option Z :=
  if String.eqb table "reminders" then Some (nextReminders (nextId db))
  else if String.eqb table "sent_reminders" then Some (nextSentReminders (nextId db))
  else if String.eqb table "conversations" then Some (nextConversations (nextId db))
  else None.

(** The operations of the store that change it. *)
Inductive operation : Type :=
| OpInsert (table : string) (d : InsertData) (now : Z)
| OpUpdate (table : string) (patch : Row) (filters : Filters) (now : Z)
| OpDelete (table : string) (filters : Filters).

Definition perform (o : operation) (db : Db) : Db :=
  match o with
  | OpInsert table d now => (executeInsert table d now db).2
  | OpUpdate table patch filters now => (executeUpdate table patch filters now db).2
  | OpDelete table filters => (executeDelete table filters db).2
  end.

Definition performAll (os : list operation) (db : Db) : Db :=
  foldl (λ db o, perform o db) db os.

End MockDatabase.

Export MockDatabase.

(* ===================================================================== *)
(** * MockXMTPService (services/mock-xmtp.ts) *)
(* ===================================================================== *)

Module MockXMTP.

(** Exceptions thrown by the gateway. *)
Inductive exn : Type :=
| NotConnected      (* Error("XMTP service not connected") *)
| NotAString.       (* TypeError: recipientAddress.toLowerCase is not a function *)

(** [MockMessage], without its random [id] and the conversation key that
    is derived from sender and recipient. *)
Record MockMessage : Type := mkMessage {
  sender : string;
  recipient : string;
  content : string;
  timestamp : Z
}.

(** The state of the service the reminder engine depends on: the connection
    flag and the log of sent messages (the per-conversation copies of the
    same messages are not kept). *)
Record Xmtp : Type := mkXmtp {
  isConnected : bool;
  sentMessages : list MockMessage
}.

Definition botAddress : string := "0xbot123".

Definition newXmtp : Xmtp := {| isConnected := false; sentMessages := [] |}.

(** [connect], [disconnect], [isReady]. *)
Definition connect (x : Xmtp) : Xmtp :=
  {| isConnected := true; sentMessages := sentMessages x |}.

Definition disconnect (x : Xmtp) : Xmtp :=
  {| isConnected := false; sentMessages := sentMessages x |}.

(** [sendMessage(recipientAddress, content)]: throws when the service is
    not connected; building the conversation key calls [toLowerCase] on the
    recipient, which throws unless it is a string; otherwise the message is
    appended to the log and returned. *)
Definition sendMessage (recipientAddress : value) (text : string) (now : Z)
    (x : Xmtp) : (MockMessage + exn) * Xmtp :=
  if negb (isConnected x) then (inr NotConnected, x)
  else match recipientAddress with
       | VStr address =>
           let message := {| sender := botAddress; recipient := address;
                             content := text; timestamp := now |} in
           (inl message,
            {| isConnected := isConnected x;
               sentMessages := sentMessages x ++ [message] |})
       | _ => (inr NotAString, x)
       end.

End MockXMTP.

Export MockXMTP.

(* ===================================================================== *)
(** * ReminderService (services/reminder-service.ts) *)
(* ===================================================================== *)
Module Reminder.

(** [ReminderServiceConfig], without the agent runtime. *)
Record ReminderServiceConfig : Type := mkConfig {
  cfgEnableXMTP : option bool;
  cfgEnableCron : option bool;
  cfgReminderIntervals : option (list Z)
}.

Record ReminderService : Type := mkService {
  enableXMTP : bool;
  enableCron : bool;
  reminderIntervals : list Z
}.

(** The constructor: both switches default to [true] ([x !== false]) and
    the intervals to [[30, 7, 1]]. *)
Definition newReminderService (config : ReminderServiceConfig) : ReminderService :=
  {| enableXMTP := match cfgEnableXMTP config with Some false => false | _ => true end;
     enableCron := match cfgEnableCron config with Some false => false | _ => true end;
     reminderIntervals := default [30; 7; 1] (cfgReminderIntervals config) |}.

Definition defaultService : ReminderService :=
  newReminderService {| cfgEnableXMTP := None; cfgEnableCron := None;
                        cfgReminderIntervals := None |}.

(** One increment of [processedCount]: which reminder and which tag was
    counted, and whether the post-expiry branch counted it.  The service
    only keeps and logs the number of increments of one pass; the list is
    kept here to tell the increments apart. *)
Record Delivery : Type := mkDelivery {
  reminderId : value;
  reminderType : string;
  postExpiry : bool
}.

(** The singletons the service works on, and the history of increments. *)
Record World : Type := mkWorld {
  db : Db;
  xmtp : Xmtp;
  processed : list Delivery
}.

(** ** Synchronous code

    Code that runs without giving way is a function of the world that may
    stop with an exception; the effects made before the exception stay. *)
Inductive outcome (A : Type) : Type :=
| Returned (a : A)
| Threw (e : exn).
Arguments Returned {A} _.
Arguments Threw {A} _.

Definition M (A : Type) : Type := World → outcome A * World.

#[global] Instance M_ret : MRet M := λ A a w, (Returned a, w).

#[global] Instance M_bind : MBind M := λ A B f m w,
  match m w with
  | (Returned a, w') => f a w'
  | (Threw e, w') => (Threw e, w')
  end.

(** One computation after the other, for every element of a list. *)
Fixpoint forEach {A : Type} (f : A → M unit) (l : list A) : M unit :=
  match l with
  | [] => mret tt
  | x :: l' => f x ≫= λ _, forEach f l'
  end.

Definition quote : string := String (ascii_of_nat 34) EmptyString.

(** The five message texts of [createReminderMessage]. *)
Definition expiredMessage (domain : string) : string :=
  "ðŸš¨ URGENT: Your ENS domain " +:+ quote +:+ domain +:+ quote +:+
  " has expired! You may still be able to renew it during the grace period. Act quickly to avoid losing your domain.".

Definition tomorrowMessage (domain : string) : string :=
  "ðŸš¨ FINAL NOTICE: Your ENS domain " +:+ quote +:+ domain +:+ quote +:+
  " expires TOMORROW! Please renew it immediately to avoid losing your domain.".

Definition weekMessage (domain : string) (days : Z) : string :=
  "âš¡ URGENT: Your ENS domain " +:+ quote +:+ domain +:+ quote +:+
  " expires in " +:+ numberToString days +:+
  " days! Please renew it soon to avoid losing your domain.".

Definition monthMessage (domain : string) (days : Z) : string :=
  "â° Reminder: Your ENS domain " +:+ quote +:+ domain +:+ quote +:+
  " expires in " +:+ numberToString days +:+
  " days. Consider renewing it to ensure you don't lose your domain.".

Definition laterMessage (domain : string) (days : Z) : string :=
  "ðŸ“… Reminder: Your ENS domain " +:+ quote +:+ domain +:+ quote +:+
  " expires in " +:+ numberToString days +:+
  " days. You have plenty of time, but it's good to keep track!".

(** [createReminderMessage(domain, daysUntilExpiry)]. *)
Definition createReminderMessage (domain : string) (daysUntilExpiry : Z) : string :=
  if daysUntilExpiry <=? 0 then expiredMessage domain
  else if daysUntilExpiry =? 1 then tomorrowMessage domain
  else if daysUntilExpiry <=? 7 then weekMessage domain daysUntilExpiry
  else if daysUntilExpiry <=? 30 then monthMessage domain daysUntilExpiry
  else laterMessage domain daysUntilExpiry.

(** What [mockXMTPService.sendMessage(to, text)] does before it waits for
    its timer: it throws when the gateway is not connected, and otherwise
    has the message in the log. *)
Definition gatewaySend (to : value) (text : string) (now : Z) : M MockMessage :=
  λ w,
    match sendMessage to text now (xmtp w) with
    | (inl message, x') =>
        (Returned message, {| db := db w; xmtp := x'; processed := processed w |})
    | (inr e, x') =>
        (Threw e, {| db := db w; xmtp := x'; processed := processed w |})
    end.

(** The object handed to [insert] by [recordSentReminder]. *)
Definition sentReminderRecord (id : value) (type : string) (messageId : value)
    (now : Z) : Row :=
  <["reminder_id" := id]>
  (<["sent_at" := VStr (toISOString now)]>
  (<["reminder_type" := VStr type]>
  (<["message_id" := messageId]> ∅))).

(** The insert of [recordSentReminder]: it returns its errors as a result,
    which is not inspected. *)
Definition insertSent (id : value) (type : string) (messageId : value)
    (now : Z) : M unit :=
  λ w,
    let '(_, db') :=
      insert "sent_reminders" (One (sentReminderRecord id type messageId now))
             now (db w) in
    (Returned tt, {| db := db'; xmtp := xmtp w; processed := processed w |}).

(** What [hasReminderBeenSent(reminderId, reminderType)] resolves to, as a
    function of the store: the records of [sent_reminders] with this
    [reminder_id] are selected, and one of them must carry the type. *)
Definition hasReminderBeenSent (id : value) (type : string) (d : Db) : bool :=
  match selectChain "sent_reminders" [Pred Eq "reminder_id" id] d with
  | inl queryResult =>
      match data queryResult with
      | Some records =>
          existsb (λ record, strictEq (get record "reminder_type") (VStr type))
                  records
      | None => false
      end
  | inr _ => false
  end.

(** The query of [hasReminderBeenSent]: it is run when the function is
    called, inside the executor of the promise it returns. *)
Definition checkSent (id : value) (type : string) : M bool :=
  λ w, (Returned (hasReminderBeenSent id type (db w)), w).

(** [processedCount++], with what was counted. *)
Definition countProcessed (id : value) (type : string) (post : bool) : M unit :=
  λ w,
    (Returned tt,
     {| db := db w; xmtp := xmtp w;
        processed := processed w ++ [mkDelivery id type post] |}).

(** [Math.ceil((expiryDate.getTime() - now.getTime()) / (1000*60*60*24))];
    [None] is NaN, the result for an expiry date that does not parse. *)
Definition daysUntilExpiry (reminder : Row) (now : Z) : option Z :=
  (λ expiry, ceilDiv (expiry - now) msPerDay)
    <$> dateGetTime (get reminder "expiry_date").

(** [`day_${interval}`]. *)
Definition dayTag (interval : Z) : string := "day_" +:+ numberToString interval.

(** The tag the post-expiry branch files its deliveries under. *)
Definition gracePeriodType : string := "day_1".

(** ** Asynchronous functions

    An [async] function runs, when it is called, up to its first [await];
    there it gives way to whatever else is ready to run, and it goes on when
    it is resumed.  [Step next effect] is a stretch of synchronous code:
    started in a world [w], it leaves the world [effect w] and goes on as
    [next w].  [Await rest] is a point at which the function gives way;
    [rest] is what it does when it is resumed. *)
Inductive Task (A : Type) : Type :=
| Done (o : outcome A)
| Step (next : World → Task A) (effect : World → World)
| Await (rest : Task A).
Arguments Done {A} _.
Arguments Step {A} _ _.
Arguments Await {A} _.

Fixpoint bindTask {A B : Type} (f : A → Task B) (t : Task A) : Task B :=
  match t with
  | Done (Returned a) => f a
  | Done (Threw e) => Done (Threw e)
  | Step next effect => Step (λ w, bindTask f (next w)) effect
  | Await rest => Await (bindTask f rest)
  end.

#[global] Instance Task_ret : MRet Task := λ A a, Done (Returned a).

#[global] Instance Task_bind : MBind Task := λ A B f t, bindTask f t.

(** Synchronous code inside an asynchronous function. *)
Definition lift {A : Type} (m : M A) : Task A :=
  Step (λ w, Done (m w).1) (λ w, (m w).2).

(** [await t], for a call [t] of an asynchronous function: the callee
    runs inside the caller up to its own first [await]; when the callee has
    ended, the caller gives way once more before it goes on with the result,
    or with the exception. *)
Fixpoint await {A : Type} (t : Task A) : Task A :=
  match t with
  | Done o => Await (Done o)
  | Step next effect => Step (λ w, await (next w)) effect
  | Await rest => Await (await rest)
  end.

(** [await new Promise(resolve => setTimeout(resolve, ms))]. *)
Definition sleep : Task unit := await (mret tt).

(** [await thenable], for the object returned by [insert]: its [then],
    which executes the query, is called by a job of its own, after the
    caller has given way. *)
Definition awaitThenable {A : Type} (m : M A) : Task A := Await (await (lift m)).

(** [try { t } catch (error) { handler }]. *)
Fixpoint tryCatch {A : Type} (t : Task A) (handler : exn → Task A) : Task A :=
  match t with
  | Done (Returned a) => Done (Returned a)
  | Done (Threw e) => handler e
  | Step next effect => Step (λ w, tryCatch (next w) handler) effect
  | Await rest => Await (tryCatch rest handler)
  end.

(** [for (const x of l) { ... }]. *)
Fixpoint forOf {A : Type} (f : A → Task unit) (l : list A) : Task unit :=
  match l with
  | [] => mret tt
  | x :: l' => f x ≫= λ _, forOf f l'
  end.

(** [mockXMTPService.sendMessage(to, text)]. *)
Definition sendMessageAsync (to : value) (text : string) (now : Z)
    : Task MockMessage :=
  lift (gatewaySend to text now) ≫= λ message,
  sleep ≫= λ _,
  mret message.

(** [sendReminder(walletAddress, domain, daysUntilExpiry)]. *)
Definition sendReminder (svc : ReminderService) (walletAddress domain : value)
    (daysUntilExpiry : Z) (now : Z) : Task bool :=
  if negb (enableXMTP svc) then mret true
  else
    tryCatch
      (let message := createReminderMessage (toString domain) daysUntilExpiry in
       await (sendMessageAsync walletAddress message now) ≫= λ _, mret true)
      (λ _, mret false).

(** [recordSentReminder(reminderId, reminderType, messageId?)]. *)
Definition recordSentReminder (id : value) (type : string) (messageId : value)
    (now : Z) : Task unit :=
  tryCatch (awaitThenable (insertSent id type messageId now)) (λ _, mret tt).

(** What the loop over [this.reminderIntervals] does for an interval that
    is due: check, send, and record if the send succeeded. *)
Definition notifyInterval (svc : ReminderService) (now : Z) (reminder : Row)
    (d : Z) (interval : Z) : Task unit :=
  let type := dayTag interval in
  await (lift (checkSent (get reminder "id") type)) ≫= λ alreadySent,
  if alreadySent : bool then mret tt
  else
    await (sendReminder svc (get reminder "wallet_address")
                        (get reminder "domain") d now) ≫= λ success,
    if success : bool then
      await (recordSentReminder (get reminder "id") type VUndef now) ≫= λ _,
      lift (countProcessed (get reminder "id") type false)
    else mret tt.

(** The body of the loop over [this.reminderIntervals], for one interval:
    the interval is due when the days left are exactly the interval. *)
Definition processInterval (svc : ReminderService) (now : Z) (reminder : Row)
    (days : option Z) (interval : Z) : Task unit :=
  match days with
  | Some d =>
      if d =? interval then notifyInterval svc now reminder d interval
      else mret tt
  | None => mret tt
  end.

(** What the branch for expired domains does once it is entered: check,
    send straight through the gateway, record. *)
Definition notifyExpired (now : Z) (reminder : Row) : Task unit :=
  await (lift (checkSent (get reminder "id") gracePeriodType)) ≫= λ alreadySent,
  if alreadySent : bool then mret tt
  else
    let message := expiredMessage (toString (get reminder "domain")) in
    await (sendMessageAsync (get reminder "wallet_address") message now) ≫= λ _,
    await (recordSentReminder (get reminder "id") gracePeriodType VUndef now) ≫= λ _,
    lift (countProcessed (get reminder "id") gracePeriodType true).

(** The branch for expired domains (grace-period reminders). *)
Definition processExpired (now : Z) (reminder : Row) (days : option Z) : Task unit :=
  match days with
  | Some d => if d <=? 0 then notifyExpired now reminder else mret tt
  | None => mret tt
  end.

(** The body of the loop over the reminders, for one reminder. *)
Definition processReminder (svc : ReminderService) (now : Z) (reminder : Row)
    : Task unit :=
  let days := daysUntilExpiry reminder now in
  forOf (processInterval svc now reminder days) (reminderIntervals svc) ≫= λ _,
  processExpired now reminder days.

(** The asynchronous callback that [processReminders] hands to the query:
    one evaluation pass over the rows the query resolved to.  [now] is the
    clock when the pass starts; the days left are computed from it, and the
    pass stamps what it sends and stores with it. *)
Definition pass (svc : ReminderService) (now : Z) (rows : list Row) : Task unit :=
  forOf (processReminder svc now) rows.

(** ** Passes in progress

    A pass that has been started either waits at one of its [await]s, with
    the rest it has to do, or has ended: returned, or been ended by an
    exception nobody catches. *)
Inductive thread : Type :=
| Waiting (rest : Task unit)
| Ended (o : outcome unit).

(** A task runs up to its next [await], or to its end. *)
Fixpoint advance (t : Task unit) (w : World) : thread * World :=
  match t with
  | Done o => (Ended o, w)
  | Step next effect => advance (next w) (effect w)
  | Await rest => (Waiting rest, w)
  end.

(** The singletons and the passes started so far, in the order of their
    start. *)
Record System : Type := mkSystem {
  world : World;
  passes : list thread
}.

(** [processReminders()]: the query is resolved at once and the callback is
    called with its result; the callback runs up to its first [await], and
    its promise is dropped: [processReminders] returns without waiting for
    the pass to end, and an exception of the pass reaches nobody. *)
Definition processReminders (svc : ReminderService) (now : Z) (s : System)
    : System :=
  match data (resolve (createSelectQuery "reminders" "*") (db (world s))) with
  | Some rows =>
      let '(t, w) := advance (pass svc now rows) (world s) in
      {| world := w; passes := passes s ++ [t] |}
  | None => {| world := world s; passes := passes s ++ [Ended (Returned tt)] |}
  end.

(** A pass that waits goes on, up to its next [await] or to its end. *)
Definition resume (i : nat) (s : System) : System :=
  match passes s !! i with
  | Some (Waiting rest) =>
      let '(t, w) := advance rest (world s) in
      {| world := w; passes := <[i := t]> (passes s) |}
  | _ => s
  end.

(** What happens to the singletons from outside the passes: the gateway
    connects or disconnects, a new reminder is stored. *)
Inductive external : Type :=
| Connect
| Disconnect
| Track (reminder : Row) (now : Z).

Definition occur (c : external) (w : World) : World :=
  match c with
  | Connect =>
      {| db := db w; xmtp := connect (xmtp w); processed := processed w |}
  | Disconnect =>
      {| db := db w; xmtp := disconnect (xmtp w); processed := processed w |}
  | Track reminder now =>
      {| db := (insert "reminders" (One reminder) now (db w)).2;
         xmtp := xmtp w; processed := processed w |}
  end.

(** What can happen next: [processReminders] is called, one of the passes
    that wait is resumed, or the singletons change from outside. *)
Inductive event : Type :=
| Call (now : Z)
| Resume (i : nat)
| External (c : external).

Definition step (svc : ReminderService) (e : event) (s : System) : System :=
  match e with
  | Call now => processReminders svc now s
  | Resume i => resume i s
  | External c => {| world := occur c (world s); passes := passes s |}
  end.

Definition run (svc : ReminderService) (es : list event) (s : System) : System :=
  foldl (λ s e, step svc e s) s es.

Definition finished (t : thread) : bool :=
  match t with
  | Ended _ => true
  | Waiting _ => false
  end.

(** ** Passes that do not overlap

    [alone t] is what a task does from its start to its end when nothing
    else runs while it waits. *)
Fixpoint alone {A : Type} (t : Task A) (w : World) : outcome A * World :=
  match t with
  | Done o => (o, w)
  | Step next effect => alone (next w) (effect w)
  | Await rest => alone rest w
  end.

(** A call of [processReminders] and the pass it starts, up to the end of
    the pass, with nothing in between. *)
Definition wholePass (svc : ReminderService) (now : Z) : M unit :=
  λ w,
    match data (resolve (createSelectQuery "reminders" "*") (db w)) with
    | Some rows => alone (pass svc now rows) w
    | None => (Returned tt, w)
    end.

(** A history in which every pass has ended before anything else happens. *)
Inductive stage : Type :=
| Pass (now : Z)
| Between (c : external).

Definition serialStep (svc : ReminderService) (e : stage) (w : World) : World :=
  match e with
  | Pass now => (wholePass svc now w).2
  | Between c => occur c w
  end.

Definition serial (svc : ReminderService) (es : list stage) (w : World) : World :=
  foldl (λ w e, serialStep svc e w) w es.

(** ** What the properties below observe *)

(** A record of [sent_reminders] for a reminder and a tag. *)
Definition sentMatch (id : value) (type : string) (record : Row) : bool :=
  strictEq (get record "reminder_id") id
  && strictEq (get record "reminder_type") (VStr type).

Definition sentCount (id : value) (type : string) (records : list Row) : nat :=
  length (List.filter (sentMatch id type) records).

(** Every key of [sent_reminders] was handed out by its counter. *)
Definition sentFresh (d : Db) : bool :=
  forallb (λ k, k <? nextSentReminders (nextId d)) (mapKeys (sentReminders d)).

#[global] Arguments hasReminderBeenSent : simpl never.
#[global] Arguments notifyInterval : simpl never.
#[global] Arguments notifyExpired : simpl never.
#[global] Arguments sentMatch : simpl never.
#[global] Arguments createReminderMessage : simpl never.
#[global] Arguments expiredMessage : simpl never.

End Reminder.

Export Reminder.

(* ===================================================================== *)
(** * MockCronService (services/mock-cron.ts) *)
(* ===================================================================== *)

Module MockCron.

(** [CronJob], without the callback: what the callback does is not the
    scheduler's concern, only when it is called and when it settles. *)
Record CronJob : Type := mkJob {
  jobId : string;
  schedule : string;
  lastRun : option Z;
  nextRun : option Z;
  isRunning : bool;
  runCount : Z
}.

(** Job objects are mutated in place and shared between the [jobs] map,
    the executions that are suspended on them and the timers that hold
    them, so they live in a heap and are referred to by their address.
    [inFlight] lists the executions of [executeJob] that have called the
    callback and wait for it to settle, by the job object each one holds. *)
Record Cron : Type := mkCron {
  heap : list CronJob;
  jobs : list (string * nat);
  isActive : bool;
  inFlight : list nat
}.

Definition newCron : Cron :=
  {| heap := []; jobs := []; isActive := false; inFlight := [] |}.

(** [calculateNextRun(cronExpression)]. *)
Definition calculateNextRun (cronExpression : string) (now : Z) : Z :=
  if includes cronExpression "0 9 * * *" then now + 10000
  else if includes cronExpression "* * * * *" then now + 5000
  else now + 30000.

(** [schedule(id, cronExpression, callback)]: a new job object replaces
    whatever the map held under [id]. *)
Definition scheduleJob (id cronExpression : string) (now : Z) (c : Cron) : nat * Cron :=
  let job := {| jobId := id; schedule := cronExpression; lastRun := None;
                nextRun := Some (calculateNextRun cronExpression now);
                isRunning := false; runCount := 0 |} in
  let address := length (heap c) in
  (address,
   {| heap := heap c ++ [job]; jobs := mapSet id address (jobs c);
      isActive := isActive c; inFlight := inFlight c |}).

(** [start], [stop]: the interval timer runs while [isActive]. *)
Definition start (c : Cron) : Cron :=
  {| heap := heap c; jobs := jobs c; isActive := true; inFlight := inFlight c |}.

Definition stop (c : Cron) : Cron :=
  {| heap := heap c; jobs := jobs c; isActive := false; inFlight := inFlight c |}.

(** [executeJob(job)] up to [await job.callback()]: a running job is left
    alone; otherwise the job is marked, counted, and its callback called. *)
Definition executeJob (address : nat) (now : Z) (c : Cron) : Cron :=
  match heap c !! address with
  | Some job =>
      if isRunning job then c
      else
        {| heap := <[address :=
                       {| jobId := jobId job; schedule := schedule job;
                          lastRun := Some now; nextRun := nextRun job;
                          isRunning := true; runCount := runCount job + 1 |}]>
                   (heap c);
           jobs := jobs c; isActive := isActive c;
           inFlight := inFlight c ++ [address] |}
  | None => c
  end.

(** How a callback settles, and how a promise of the scheduler does. *)
Inductive settled : Type :=
| Fulfilled
| Rejected (reason : string).

(** Remove one occurrence of an address from the executions in flight. *)
Fixpoint removeFirst (address : nat) (l : list nat) : list nat :=
  match l with
  | [] => []
  | a :: l' => if bool_decide (a = address) then l' else a :: removeFirst address l'
  end.

(** [executeJob(job)] from the moment the callback settles: [try] logs the
    success, [catch] logs the failure and swallows it, [finally] clears the
    flag and recomputes the next run.  The result is how the promise of
    [executeJob] settles.  Nothing happens for a job that has no execution
    in flight. *)
Definition executeJobSettled (address : nat) (result : settled) (now : Z)
    (c : Cron) : settled * Cron :=
  match heap c !! address with
  | Some job =>
      if bool_decide (address ∈ inFlight c) then
        (match result with
         | Fulfilled => Fulfilled
         | Rejected _ => Fulfilled
         end,
         {| heap := <[address :=
                        {| jobId := jobId job; schedule := schedule job;
                           lastRun := lastRun job;
                           nextRun := Some (calculateNextRun (schedule job) now);
                           isRunning := false; runCount := runCount job |}]>
                    (heap c);
            jobs := jobs c; isActive := isActive c;
            inFlight := removeFirst address (inFlight c) |})
      else (Fulfilled, c)
  | None => (Fulfilled, c)
  end.

(** What a call of [triggerJob] does before it first suspends: [inr] is the
    [Error] thrown for an unknown job; [inl true] says that an execution
    was started, whose end the caller awaits; [inl false] that the job was
    found running and the call returned at once. *)
Definition triggerJob (id : string) (now : Z) (c : Cron) : (bool + string) * Cron :=
  match mapGet id (jobs c) with
  | None => (inr ("Job '" +:+ id +:+ "' not found"), c)
  | Some address =>
      match heap c !! address with
      | Some job =>
          if isRunning job then (inl false, c)
          else (inl true, executeJob address now c)
      | None => (inl false, c)
      end
  end.

Definition jobIsRunning (c : Cron) (address : nat) : bool :=
  match heap c !! address with
  | Some job => isRunning job
  | None => false
  end.

(** [triggerAllJobs()], up to [await Promise.all(...)]: the jobs that are
    not running are picked first, then each is executed. *)
Definition triggerAllJobs (now : Z) (c : Cron) : Cron :=
  foldl (λ c address, executeJob address now c) c
        (List.filter (λ address, negb (jobIsRunning c address)) (mapValues (jobs c))).

(** [checkAndRunJobs()], the body of the interval timer. *)
Definition checkAndRunJobs (now : Z) (c : Cron) : Cron :=
  if negb (isActive c) then c
  else
    foldl (λ c address,
             match heap c !! address with
             | Some job =>
                 match nextRun job with
                 | Some next =>
                     if negb (isRunning job) && (next <=? now)
                     then executeJob address now c else c
                 | None => c
                 end
             | None => c
             end)
          c (mapValues (jobs c)).

(** [removeJob(jobId)], [reset()]. *)
Definition removeJob (id : string) (c : Cron) : bool * Cron :=
  if mapHas id (jobs c)
  then (true, {| heap := heap c; jobs := mapDelete id (jobs c);
                 isActive := isActive c; inFlight := inFlight c |})
  else (false, c).

Definition resetCron (c : Cron) : Cron :=
  {| heap := heap c; jobs := []; isActive := false; inFlight := inFlight c |}.

(** The timer set by [scheduleImmediate(id, callback)]: it holds the job
    object created by that call and executes it if the map still has a job
    under [id], whichever it is. *)
Definition immediateTimer (id : string) (address : nat) (now : Z) (c : Cron) : Cron :=
  if mapHas id (jobs c) then executeJob address now c else c.

(** What can happen to the scheduler, one event at a time. *)
Inductive event : Type :=
| Schedule (id cronExpression : string) (now : Z)
| Start
| Stop
| Tick (now : Z)
| TriggerJob (id : string) (now : Z)
| TriggerAllJobs (now : Z)
| ImmediateTimer (id : string) (address : nat) (now : Z)
| RemoveJob (id : string)
| Reset
| Settles (address : nat) (result : settled) (now : Z).

Definition step (e : event) (c : Cron) : Cron :=
  match e with
  | Schedule id cronExpression now => (scheduleJob id cronExpression now c).2
  | Start => start c
  | Stop => stop c
  | Tick now => checkAndRunJobs now c
  | TriggerJob id now => (triggerJob id now c).2
  | TriggerAllJobs now => triggerAllJobs now c
  | ImmediateTimer id address now => immediateTimer id address now c
  | RemoveJob id => (removeJob id c).2
  | Reset => resetCron c
  | Settles address result now => (executeJobSettled address result now c).2
  end.

Definition run (es : list event) (c : Cron) : Cron :=
  foldl (λ c e, step e c) c es.


End MockCron.

(* ===================================================================== *)
(** * Facts about the string built-ins *)
(* ===================================================================== *)

Module StringFacts.

Lemma append_cons (c : ascii) (s t : string) :
  String c s +:+ t = String c (s +:+ t).
Proof. reflexivity. Qed.

Lemma append_empty_r (s : string) : s +:+ EmptyString = s.
Proof. induction s as [|c s IH]; [done|]. by rewrite append_cons, IH. Qed.

Lemma append_assoc (a b c : string) : (a +:+ b) +:+ c = a +:+ (b +:+ c).
Proof. induction a as [|x a IH]; [done|]. by rewrite !append_cons, IH. Qed.

Lemma rev_app_spec (s acc : string) :
  String.rev_app s acc = String.rev s +:+ acc.
Proof.
  unfold String.rev. revert acc.
  induction s as [|c s IH]; intros acc; [done|].
  cbn [String.rev_app]. rewrite IH, (IH (String c EmptyString)).
  by rewrite append_assoc.
Qed.

Lemma rev_cons (c : ascii) (s : string) :
  String.rev (String c s) = String.rev s +:+ String c EmptyString.
Proof. unfold String.rev at 1. cbn [String.rev_app]. apply rev_app_spec. Qed.

Lemma rev_append (a b : string) :
  String.rev (a +:+ b) = String.rev b +:+ String.rev a.
Proof.
  induction a as [|c a IH].
  - by rewrite append_empty_r.
  - by rewrite append_cons, !rev_cons, IH, append_assoc.
Qed.

Lemma rev_involutive (s : string) : String.rev (String.rev s) = s.
Proof.
  induction s as [|c s IH]; [done|].
  by rewrite rev_cons, rev_append, IH.
Qed.

Lemma prefix_spec (p s : string) :
  String.prefix p s = true ↔ ∃ q, s = p +:+ q.
Proof.
  revert s. induction p as [|c p IH]; intros s.
  - split; [intros _; by exists s| by destruct s].
  - destruct s as [|d s]; cbn [String.prefix].
    + split; [done|]. by intros [q Hq].
    + destruct (ascii_dec c d) as [->|Hne].
      * rewrite IH. split; intros [q Hq]; exists q.
        -- by rewrite append_cons, Hq.
        -- rewrite append_cons in Hq. by simplify_eq.
      * split; [done|]. intros [q Hq]. rewrite append_cons in Hq.
        by simplify_eq.
Qed.

Lemma prefix_append (p q : string) : String.prefix p (p +:+ q) = true.
Proof. apply prefix_spec. by exists q. Qed.

Lemma includes_spec (s pat : string) :
  includes s pat = true ↔ ∃ a b, s = a +:+ pat +:+ b.
Proof.
  induction s as [|c s IH]; cbn [includes].
  - rewrite orb_false_r, prefix_spec. split.
    + intros [q Hq]. by exists EmptyString, q.
    + intros ([|??] & b & Hb); [by exists b|done].
  - rewrite orb_true_iff, IH, prefix_spec. split.
    + intros [[q Hq]|(a & b & Hab)].
      * by exists EmptyString, q.
      * exists (String c a), b. by rewrite append_cons, Hab.
    + intros ([|d a] & b & Hab).
      * left. by exists b.
      * right. rewrite append_cons in Hab. simplify_eq. by exists a, b.
Qed.

Lemma endsWith_spec (s suffix : string) :
  endsWith s suffix = true ↔ ∃ p, s = p +:+ suffix.
Proof.
  unfold endsWith. rewrite prefix_spec. split.
  - intros [q Hq]. exists (String.rev q).
    by rewrite <-(rev_involutive s), Hq, rev_append, rev_involutive.
  - intros [p ->]. exists (String.rev p). by rewrite rev_append.
Qed.

Lemma endsWith_append (s suffix : string) : endsWith (s +:+ suffix) suffix = true.
Proof. apply endsWith_spec. by exists s. Qed.

(** A string that ends with a suffix includes it. *)
Lemma endsWith_includes (s suffix : string) :
  endsWith s suffix = true → includes s suffix = true.
Proof.
  rewrite endsWith_spec, includes_spec. intros [p ->].
  exists p, EmptyString. by rewrite append_empty_r.
Qed.

Lemma not_includes_endsWith (s suffix : string) :
  includes s suffix = false → endsWith s suffix = false.
Proof.
  intros H. destruct (endsWith s suffix) eqn:E; [|done].
  apply endsWith_includes in E. congruence.
Qed.

(** Two strings that end differently: the ends are compared from the last
    character on. *)
Ltac ends_differently :=
  lazymatch goal with
  | |- endsWith (?s +:+ ?t) ?suffix = false =>
      let E := fresh "E" in
      let p := fresh "p" in
      let Hp := fresh "Hp" in
      destruct (endsWith (s +:+ t) suffix) eqn:E; [|reflexivity];
      apply endsWith_spec in E as [p Hp];
      apply (f_equal String.rev) in Hp; rewrite !rev_append in Hp;
      let rt := eval vm_compute in (String.rev t) in
      let rs := eval vm_compute in (String.rev suffix) in
      change (String.rev t) with rt in Hp;
      change (String.rev suffix) with rs in Hp;
      rewrite !append_cons in Hp; discriminate Hp
  end.

Lemma dropString_length (s t : string) :
  dropString (String.length s) (s +:+ t) = t.
Proof. induction s as [|c s IH]; [by destruct t|done]. Qed.

(** Removing the operator suffix from a key gives the column back, when
    the column does not itself contain the suffix. *)
Ltac replace_suffix col H :=
  induction col as [|c col IH];
  [ reflexivity
  | cbn [includes] in H; apply orb_false_elim in H as [Hp H];
    rewrite append_cons; cbn [replace];
    lazymatch goal with
    | |- (if String.prefix ?pat ?s then _ else _) = _ =>
        let E := fresh "E" in
        destruct (String.prefix pat s) eqn:E;
        [ exfalso; apply prefix_spec in E as [q Hq];
          rewrite !append_cons in Hq;
          destruct col as [|c1 [|c2 [|c3 [|c4 col]]]];
          simplify_eq/=; try discriminate Hp;
          rewrite ?append_cons in *; simplify_eq/=
        | f_equal; apply IH, H ]
    end ].

Lemma replace_neq (column : string) :
  includes column "_neq" = false →
  replace (column +:+ "_neq") "_neq" EmptyString = column.
Proof. intros H. replace_suffix column H. Qed.

Lemma replace_lt (column : string) :
  includes column "_lt" = false →
  replace (column +:+ "_lt") "_lt" EmptyString = column.
Proof. intros H. replace_suffix column H. Qed.

Lemma replace_lte (column : string) :
  includes column "_lte" = false →
  replace (column +:+ "_lte") "_lte" EmptyString = column.
Proof. intros H. replace_suffix column H. Qed.

Lemma replace_gt (column : string) :
  includes column "_gt" = false →
  replace (column +:+ "_gt") "_gt" EmptyString = column.
Proof. intros H. replace_suffix column H. Qed.

Lemma replace_gte (column : string) :
  includes column "_gte" = false →
  replace (column +:+ "_gte") "_gte" EmptyString = column.
Proof. intros H. replace_suffix column H. Qed.

(** A string that does not include a pattern does not include a longer one
    that starts with it. *)
Lemma not_includes_longer (s pat more : string) :
  includes s pat = false → includes s (pat +:+ more) = false.
Proof.
  intros H. destruct (includes s (pat +:+ more)) eqn:E; [|done].
  apply includes_spec in E as (a & b & ->).
  assert (includes (a +:+ (pat +:+ more) +:+ b) pat = true) as E; [|congruence].
  apply includes_spec. exists a, (more +:+ b). by rewrite !append_assoc.
Qed.

Section Plain.
Variable column : string.
Hypothesis plain : plainColumn column = true.

Lemma plain_neq : includes column "_neq" = false.
Proof.
  unfold plainColumn in plain. apply andb_prop in plain as [H _].
  apply andb_prop in H as [H _]. by apply negb_true_iff.
Qed.

Lemma plain_lt : includes column "_lt" = false.
Proof.
  unfold plainColumn in plain. apply andb_prop in plain as [H _].
  apply andb_prop in H as [_ H]. by apply negb_true_iff.
Qed.

Lemma plain_gt : includes column "_gt" = false.
Proof.
  unfold plainColumn in plain. apply andb_prop in plain as [_ H].
  by apply negb_true_iff.
Qed.

Lemma plain_lte : includes column "_lte" = false.
Proof. apply (not_includes_longer column "_lt" "e"), plain_lt. Qed.

Lemma plain_gte : includes column "_gte" = false.
Proof. apply (not_includes_longer column "_gt" "e"), plain_gt. Qed.

(** How [executeSelect] reads back each kind of key. *)
Lemma selectEntry_eq (record : Row) (v : value) :
  selectEntry record (filterKey Eq column) v = strictEq (get record column) v.
Proof.
  unfold selectEntry, filterKey.
  by rewrite (not_includes_endsWith _ _ plain_neq),
    (not_includes_endsWith _ _ plain_lt), (not_includes_endsWith _ _ plain_lte),
    (not_includes_endsWith _ _ plain_gt), (not_includes_endsWith _ _ plain_gte).
Qed.

Lemma selectEntry_neq (record : Row) (v : value) :
  selectEntry record (filterKey Neq column) v
  = negb (strictEq (get record column) v).
Proof.
  unfold selectEntry, filterKey.
  by rewrite endsWith_append, (replace_neq _ plain_neq).
Qed.

Lemma selectEntry_lt (record : Row) (v : value) :
  selectEntry record (filterKey Lt column) v = lt (get record column) v.
Proof.
  unfold selectEntry, filterKey.
  assert (endsWith (column +:+ "_lt") "_neq" = false) as -> by ends_differently.
  by rewrite endsWith_append, (replace_lt _ plain_lt).
Qed.

Lemma selectEntry_lte (record : Row) (v : value) :
  selectEntry record (filterKey Lte column) v = le (get record column) v.
Proof.
  unfold selectEntry, filterKey.
  assert (endsWith (column +:+ "_lte") "_neq" = false) as -> by ends_differently.
  assert (endsWith (column +:+ "_lte") "_lt" = false) as -> by ends_differently.
  by rewrite endsWith_append, (replace_lte _ plain_lte).
Qed.

Lemma selectEntry_gt (record : Row) (v : value) :
  selectEntry record (filterKey Gt column) v = gt (get record column) v.
Proof.
  unfold selectEntry, filterKey.
  assert (endsWith (column +:+ "_gt") "_neq" = false) as -> by ends_differently.
  assert (endsWith (column +:+ "_gt") "_lt" = false) as -> by ends_differently.
  assert (endsWith (column +:+ "_gt") "_lte" = false) as -> by ends_differently.
  by rewrite endsWith_append, (replace_gt _ plain_gt).
Qed.

Lemma selectEntry_gte (record : Row) (v : value) :
  selectEntry record (filterKey Gte column) v = ge (get record column) v.
Proof.
  unfold selectEntry, filterKey.
  assert (endsWith (column +:+ "_gte") "_neq" = false) as -> by ends_differently.
  assert (endsWith (column +:+ "_gte") "_lt" = false) as -> by ends_differently.
  assert (endsWith (column +:+ "_gte") "_lte" = false) as -> by ends_differently.
  assert (endsWith (column +:+ "_gte") "_gt" = false) as -> by ends_differently.
  by rewrite endsWith_append, (replace_gte _ plain_gte).
Qed.
End Plain.

End StringFacts.

(* ===================================================================== *)
(** * The record store *)
(* ===================================================================== *)

Module StoreFacts.
Import StringFacts.

Lemma ltb_irrefl (s : string) : String.ltb s s = false.
Proof.
  unfold String.ltb.
  assert ((s ?= s)%string = Datatypes.Eq) as ->; [|done].
  induction s as [|c s IH]; cbn; [done|].
  unfold Ascii.compare. by rewrite N.compare_refl.
Qed.

Lemma lessThan_refl (v : value) : v ≠ VUndef → lessThan v v = Some false.
Proof.
  destruct v as [| |b|n|s]; intros H; try done; cbn.
  - by destruct b.
  - by rewrite Z.ltb_irrefl.
  - by rewrite ltb_irrefl.
Qed.

Lemma lt_irrefl (v : value) : lt v v = false.
Proof.
  unfold lt. destruct v as [| |b|n|s]; cbn; try done.
  - by destruct b.
  - by rewrite Z.ltb_irrefl.
  - by rewrite ltb_irrefl.
Qed.

Lemma gt_irrefl (v : value) : gt v v = false.
Proof. apply lt_irrefl. Qed.

Lemma le_refl (v : value) : v ≠ VUndef → le v v = true.
Proof. intros H. unfold le. by rewrite lessThan_refl. Qed.

Lemma ge_refl (v : value) : v ≠ VUndef → ge v v = true.
Proof. intros H. unfold ge. by rewrite lessThan_refl. Qed.

Lemma strictEq_true (a b : value) : strictEq a b = true ↔ a = b.
Proof. unfold strictEq. apply bool_decide_eq_true. Qed.

Lemma strictEq_refl (a : value) : strictEq a a = true.
Proof. by apply strictEq_true. Qed.

Lemma selectEntry_holds (p : predicate) (column : string) (record : Row)
    (v : value) :
  plainColumn column = true →
  selectEntry record (filterKey p column) v = holds p (get record column) v.
Proof.
  intros H. destruct p; cbn [holds].
  - by apply selectEntry_eq.
  - by apply selectEntry_neq.
  - by apply selectEntry_lt.
  - by apply selectEntry_lte.
  - by apply selectEntry_gt.
  - by apply selectEntry_gte.
Qed.

Lemma filter_ext_bool {A : Type} (f g : A → bool) (l : list A) :
  (∀ x, f x = g x) → List.filter f l = List.filter g l.
Proof. intros H. induction l as [|x l IH]; cbn; [done|]. by rewrite H, IH. Qed.

Lemma known_tableOf (db : Db) (table : string) :
  knownTable table = true → is_Some (tableOf db table).
Proof.
  unfold knownTable, tableOf. intros H.
  destruct (String.eqb table "reminders"); [by eexists|].
  destruct (String.eqb table "sent_reminders"); [by eexists|].
  destruct (String.eqb table "conversations"); [by eexists|done].
Qed.

(** A select query with one predicate on a plain column. *)
Lemma select_one (db : Db) (table : string) (rows : Table) (p : predicate)
    (column : string) (v : value) :
  tableOf db table = Some rows →
  plainColumn column = true →
  selectChain table [Pred p column v] db
  = inl (mkResult
           (Some (List.filter (λ r, holds p (get r column) v) (mapValues rows)))
           None).
Proof.
  intros Ht Hc. unfold selectChain. cbn. unfold executeSelect. rewrite Ht.
  do 3 f_equal. apply filter_ext_bool. intros r.
  unfold selectMatches. cbn. by rewrite andb_true_r, selectEntry_holds.
Qed.

(** The filter object with two keys, should [executeSelect] be given one. *)
Lemma select_two_keys (db : Db) (table : string) (rows : Table)
    (c1 c2 : string) (v1 v2 : value) :
  tableOf db table = Some rows →
  plainColumn c1 = true → plainColumn c2 = true →
  executeSelect table "*" [(c1, v1); (c2, v2)] db
  = mkResult
      (Some (List.filter
               (λ r, strictEq (get r c1) v1 && strictEq (get r c2) v2)
               (mapValues rows)))
      None.
Proof.
  intros Ht H1 H2. unfold executeSelect. rewrite Ht.
  do 2 f_equal. apply filter_ext_bool. intros r.
  unfold selectMatches. cbn.
  rewrite andb_true_r.
  by rewrite (selectEntry_holds Eq c1), (selectEntry_holds Eq c2).
Qed.

(** A second method call on the object returned by a predicate raises. *)
Lemma select_second_call (table : string) (p : predicate) (column : string)
    (v : value) (m : method) (ms : list method) (db : Db) :
  ∃ e, selectChain table (Pred p column v :: m :: ms) db = inr e.
Proof.
  unfold selectChain. cbn.
  destruct m as [[] ? ?|? ?]; cbn; by eexists.
Qed.

(** Two reminders of the same wallet, for the domains [a.eth] and [b.eth]. *)
Definition twoDomains : Db :=
  {| reminders :=
       [(1, <["id" := VNum 1]> (<["wallet" := VStr "X"]> (<["domain" := VStr "a.eth"]> ∅)));
        (2, <["id" := VNum 2]> (<["wallet" := VStr "X"]> (<["domain" := VStr "b.eth"]> ∅)))];
     sentReminders := []; conversations := [];
     nextId := {| nextReminders := 3; nextSentReminders := 1;
                  nextConversations := 1 |} |}.

(** C5, as stated, fails: [select(table).eq('wallet','X').eq('domain','a.eth')]
    does not resolve to the rows matching both filters.  The object returned
    by the first [eq] has no method [eq], so the second call raises a
    [TypeError], although one stored row matches both filters. *)
Lemma chained_eq_raises :
  selectChain "reminders"
    [Pred Eq "wallet" (VStr "X"); Pred Eq "domain" (VStr "a.eth")] twoDomains
  = inr "eq is not a function"
  ∧ selectChain "reminders"
      [Pred Eq "wallet" (VStr "X"); Pred Eq "domain" (VStr "a.eth")] twoDomains
    ≠ inl (mkResult
             (Some (List.filter
                      (λ r, strictEq (get r "wallet") (VStr "X")
                            && strictEq (get r "domain") (VStr "a.eth"))
                      (mapValues (reminders twoDomains))))
             None)
  ∧ List.filter
      (λ r, strictEq (get r "wallet") (VStr "X")
            && strictEq (get r "domain") (VStr "a.eth"))
      (mapValues (reminders twoDomains)) ≠ [].
Proof. split; [reflexivity|]. split; [discriminate|]. vm_compute. discriminate. Qed.

(** C5 (amended).  A select query takes one predicate.  On a known table
    and a column whose name contains no operator suffix,
    [select().p(column, v)] resolves, for each of [eq], [neq], [lt], [lte],
    [gt], [gte], to exactly the stored rows for which the comparison holds;
    for [eq] these are the rows whose column is strictly equal to [v].  A
    further predicate chained on the result raises instead of narrowing it;
    [executeSelect] itself applies a filter object with two equality keys
    conjunctively.  A stored row whose column equals the boundary is kept out
    by [lt] and [gt] and, unless the boundary is [undefined], kept in by [lte]
    and [gte]. *)
Theorem select_one_predicate (db : Db) (table : string) (rows : Table)
    (column : string) (v : value) :
  tableOf db table = Some rows →
  plainColumn column = true →
  let selected p := List.filter (λ r, holds p (get r column) v) (mapValues rows) in
  (∀ p, selectChain table [Pred p column v] db
        = inl (mkResult (Some (selected p)) None))
  ∧ (∀ r, r ∈ selected Eq ↔ r ∈ mapValues rows ∧ get r column = v)
  ∧ (∀ p p' column' v',
       ∃ e, selectChain table [Pred p column v; Pred p' column' v'] db = inr e)
  ∧ (∀ column' v',
       plainColumn column' = true →
       executeSelect table "*" [(column, v); (column', v')] db
       = mkResult
           (Some (List.filter
                    (λ r, strictEq (get r column) v
                          && strictEq (get r column') v')
                    (mapValues rows)))
           None)
  ∧ (∀ r, r ∈ mapValues rows → get r column = v →
       (r ∉ selected Lt) ∧ (r ∉ selected Gt)
       ∧ (v ≠ VUndef → r ∈ selected Lte ∧ r ∈ selected Gte)).
Proof.
  intros Ht Hc selected.
  assert (∀ p r, r ∈ selected p
                 ↔ r ∈ mapValues rows ∧ holds p (get r column) v = true) as Hsel.
  { intros p r. unfold selected. by rewrite !list_elem_of_In, filter_In. }
  split; [|split; [|split; [|split]]].
  - intros p. by apply select_one.
  - intros r. rewrite Hsel. cbn [holds]. by rewrite strictEq_true.
  - intros p p' column' v'. apply select_second_call.
  - intros column' v' Hc'. by apply select_two_keys.
  - intros r Hr Hv. rewrite !Hsel. cbn [holds]. rewrite Hv.
    rewrite lt_irrefl, gt_irrefl. split; [|split].
    + by intros [_ ?].
    + by intros [_ ?].
    + intros Hu. by rewrite le_refl, ge_refl.
Qed.

Lemma select_one_predicate_witness :
  tableOf twoDomains "reminders" = Some (reminders twoDomains)
  ∧ plainColumn "domain" = true
  ∧ ∀ p, selectChain "reminders" [Pred p "domain" (VStr "a.eth")] twoDomains
         = inl (mkResult
                  (Some (List.filter
                           (λ r, holds p (get r "domain") (VStr "a.eth"))
                           (mapValues (reminders twoDomains))))
                  None).
Proof.
  split; [reflexivity|]. split; [reflexivity|].
  exact (proj1 (select_one_predicate twoDomains "reminders" (reminders twoDomains)
                  "domain" (VStr "a.eth") eq_refl eq_refl)).
Defined.

(** ** Insert *)

Lemma knownTable_cases (table : string) :
  knownTable table = true →
  table = "reminders" ∨ table = "sent_reminders" ∨ table = "conversations".
Proof.
  unfold knownTable. rewrite !orb_true_iff, !String.eqb_eq. tauto.
Qed.

Lemma get_insert_eq (r : Row) (k : string) (v : value) : get (<[k := v]> r) k = v.
Proof. unfold get. by rewrite lookup_insert_eq. Qed.

Lemma get_insert_ne (r : Row) (k k' : string) (v : value) :
  k ≠ k' → get (<[k := v]> r) k' = get r k'.
Proof. intros H. unfold get. by rewrite lookup_insert_ne. Qed.

Lemma mapGet_mapSet {K V : Type} `{EqDecision K} (k : K) (v : V) (m : list (K * V)) :
  mapGet k (mapSet k v m) = Some v.
Proof.
  unfold mapGet, mapSet. destruct (mapHas k m) eqn:Hhas.
  - unfold mapHas in Hhas. induction m as [|[k' v'] m IH]; [done|].
    cbn in *. destruct (bool_decide (k' = k)) eqn:E; cbn.
    + by rewrite bool_decide_eq_true_2.
    + rewrite E. cbn in Hhas. by apply IH.
  - unfold mapHas in Hhas. induction m as [|[k' v'] m IH]; cbn in *.
    + by rewrite bool_decide_eq_true_2.
    + apply orb_false_elim in Hhas as [E Hhas]. rewrite E. by apply IH.
Qed.

Ltac case_table t :=
  destruct (String.eqb t "reminders");
  [|destruct (String.eqb t "sent_reminders");
    [|destruct (String.eqb t "conversations")]].

(** No operation of the store lowers a counter. *)
Lemma nextIdOf_perform (o : operation) (db : Db) (table : string) (a : Z) :
  nextIdOf db table = Some a →
  ∃ b, nextIdOf (perform o db) table = Some b ∧ a ≤ b.
Proof.
  unfold nextIdOf.
  destruct o as [t d now|t patch filters now|t filters]; cbn [perform].
  - unfold executeInsert.
    case_table t; try destruct (firstRecord d); cbn; case_table table;
      intros Ha; simplify_eq; eexists; (split; [reflexivity|lia]).
  - unfold executeUpdate.
    case_table t; cbn; intros Ha; exists a; (split; [done|lia]).
  - unfold executeDelete.
    case_table t; cbn; intros Ha; exists a; (split; [done|lia]).
Qed.

Lemma nextIdOf_performAll (os : list operation) (db : Db) (table : string) (a : Z) :
  nextIdOf db table = Some a →
  ∃ b, nextIdOf (performAll os db) table = Some b ∧ a ≤ b.
Proof.
  revert db a. induction os as [|o os IH]; intros db a Ha; cbn.
  - exists a. split; [done|lia].
  - destruct (nextIdOf_perform o db table a Ha) as (b & Hb & Hab).
    destruct (IH _ _ Hb) as (c & Hc & Hbc). exists c. split; [done|lia].
Qed.

(** What an insert of one record into a known table returns and stores. *)
Lemma insert_one (db : Db) (table : string) (record : Row) (now : Z) :
  knownTable table = true →
  ∃ id stored rows',
    nextIdOf db table = Some id
    ∧ (insert table (One record) now db).1 = mkResult (Some stored) None
    ∧ get stored "id" = VNum id
    ∧ tableOf (insert table (One record) now db).2 table = Some rows'
    ∧ mapGet id rows' = Some stored
    ∧ nextIdOf (insert table (One record) now db).2 table = Some (id + 1)
    ∧ (table ≠ "sent_reminders" →
       get stored "created_at"
       = or_else (get record "created_at") (VStr (toISOString now)))
    ∧ (table = "sent_reminders" → stored = <["id" := VNum id]> record)
    ∧ (∀ column, column ≠ "id" → column ≠ "created_at" → column ≠ "updated_at" →
       get stored column = get record column).
Proof.
  intros [->|[->| ->]]%knownTable_cases; cbn;
    eexists _, _, _; split_and!; try reflexivity.
  - by rewrite get_insert_ne, get_insert_ne, get_insert_eq.
  - apply mapGet_mapSet.
  - intros _. by rewrite get_insert_ne, get_insert_eq.
  - done.
  - intros c ? ? ?. by rewrite !get_insert_ne.
  - by rewrite get_insert_eq.
  - apply mapGet_mapSet.
  - done.
  - intros c ? ? ?. by rewrite !get_insert_ne.
  - by rewrite get_insert_ne, get_insert_eq.
  - apply mapGet_mapSet.
  - intros _. by rewrite get_insert_eq.
  - done.
  - intros c ? ? ?. by rewrite !get_insert_ne.
Qed.

(** C7, as stated, fails on the table [sent_reminders]: a record inserted
    without a creation time is stored and returned without one. *)
Lemma insert_sent_reminder_unstamped :
  ∃ stored,
    (insert "sent_reminders" (One {["reminder_id" := VNum 1]}) 86400000 (newDb 0)).1
    = mkResult (Some stored) None
    ∧ mapGet 1 (sentReminders
                  (insert "sent_reminders" (One {["reminder_id" := VNum 1]})
                          86400000 (newDb 0)).2)
      = Some stored
    ∧ ({["reminder_id" := VNum 1]} : Row) !! "created_at" = None
    ∧ stored !! "created_at" = None
    ∧ get stored "created_at" = VUndef.
Proof. eexists. split_and!; reflexivity. Qed.

(** C7 (amended).  For every known table, [insert(table, row)] gives the row
    the identity held by the table's counter and advances the counter, so
    that every identity assigned later in that table, whatever inserts,
    updates and deletes happen in between, is strictly greater; it stores the
    row under that identity and returns the stored row without an error.  In
    the tables [reminders] and [conversations] the stored row carries the
    row's own creation time when it has a truthy one and the time of the
    insert otherwise; in [sent_reminders] the stored row is the row with its
    identity and nothing else added.  The other columns are those of the row.
    For an unknown table the store is unchanged and the error
    [Unknown table] is returned as a result. *)
Theorem insert_assigns_identity (db : Db) (table : string) (record : Row) (now : Z) :
  (knownTable table = true →
   ∃ id stored rows',
     nextIdOf db table = Some id
     ∧ (insert table (One record) now db).1 = mkResult (Some stored) None
     ∧ get stored "id" = VNum id
     ∧ tableOf (insert table (One record) now db).2 table = Some rows'
     ∧ mapGet id rows' = Some stored
     ∧ (∀ os record' now',
          ∃ id' stored',
            (insert table (One record') now'
                    (performAll os (insert table (One record) now db).2)).1
            = mkResult (Some stored') None
            ∧ get stored' "id" = VNum id' ∧ id < id')
     ∧ (table ≠ "sent_reminders" →
        (get record "created_at" = VUndef →
         get stored "created_at" = VStr (toISOString now))
        ∧ (truthy (get record "created_at") = true →
           get stored "created_at" = get record "created_at"))
     ∧ (table = "sent_reminders" → stored = <["id" := VNum id]> record)
     ∧ (∀ column, column ≠ "id" → column ≠ "created_at" → column ≠ "updated_at" →
        get stored column = get record column))
  ∧ (knownTable table = false →
     insert table (One record) now db
     = (mkResult None (Some (UnknownTable table)), db)).
Proof.
  split.
  - intros Hk.
    destruct (insert_one db table record now Hk)
      as (id & stored & rows' & Hid & Hres & Hsid & Ht & Hget & Hnext & Hc & Hs & Ho).
    exists id, stored, rows'. split_and!; try done.
    + intros os record' now'.
      destruct (nextIdOf_performAll os _ table _ Hnext) as (b & Hb & Hle).
      destruct (insert_one (performAll os (insert table (One record) now db).2)
                  table record' now' Hk)
        as (id' & stored' & ? & Hid' & Hres' & Hsid' & _).
      exists id', stored'. split_and!; [done..|].
      rewrite Hb in Hid'. simplify_eq. lia.
    + intros Hne. specialize (Hc Hne). rewrite Hc. unfold or_else.
      split.
      * by intros ->.
      * by intros ->.
  - unfold knownTable. intros Hk.
    apply orb_false_elim in Hk as [Hk H3]. apply orb_false_elim in Hk as [H1 H2].
    unfold insert, executeInsert. by rewrite H1, H2, H3.
Qed.

Lemma insert_assigns_identity_witness :
  knownTable "reminders" = true
  ∧ knownTable "domains" = false
  ∧ (∃ id stored,
       nextIdOf (newDb 0) "reminders" = Some id
       ∧ (insert "reminders" (One {["domain" := VStr "a.eth"]}) 5 (newDb 0)).1
         = mkResult (Some stored) None
       ∧ get stored "id" = VNum id)
  ∧ insert "domains" (One {["domain" := VStr "a.eth"]}) 5 (newDb 0)
    = (mkResult None (Some (UnknownTable "domains")), newDb 0).
Proof.
  split; [reflexivity|]. split; [reflexivity|]. split.
  - destruct (proj1 (insert_assigns_identity (newDb 0) "reminders"
                       {["domain" := VStr "a.eth"]} 5) eq_refl)
      as (id & stored & rows' & H1 & H2 & H3 & _).
    exists id, stored. by split_and!.
  - exact (proj2 (insert_assigns_identity (newDb 0) "domains"
                    {["domain" := VStr "a.eth"]} 5) eq_refl).
Defined.

(** ** Update *)

Lemma tableOf_known (db : Db) (table : string) (rows : Table) :
  tableOf db table = Some rows →
  table = "reminders" ∨ table = "sent_reminders" ∨ table = "conversations".
Proof.
  unfold tableOf.
  destruct (String.eqb table "reminders") eqn:E1;
    [apply String.eqb_eq in E1; auto|].
  destruct (String.eqb table "sent_reminders") eqn:E2;
    [apply String.eqb_eq in E2; auto|].
  destruct (String.eqb table "conversations") eqn:E3;
    [apply String.eqb_eq in E3; auto|done].
Qed.

Lemma matchesFilters_one (record : Row) (column : string) (v : value) :
  matchesFilters record [(column, v)] = strictEq (get record column) v.
Proof. unfold matchesFilters. cbn. by rewrite andb_true_r. Qed.

Lemma updateRows_lookup (patched : Row → Row) (column : string) (v : value)
    (rows : Table) (i : nat) (k : Z) (r : Row) :
  rows !! i = Some (k, r) →
  updateRows patched [(column, v)] rows !! i
  = Some (k, if strictEq (get r column) v then patched r else r).
Proof.
  intros H. unfold updateRows. rewrite list_lookup_fmap, H.
  cbn -[matchesFilters]. rewrite matchesFilters_one. by destruct (strictEq (get r column) v).
Qed.

Lemma strictEq_false (a b : value) : a ≠ b → strictEq a b = false.
Proof. intros H. unfold strictEq. by apply bool_decide_eq_false. Qed.

Lemma spread_patch (record patch : Row) (c : string) (x : value) :
  patch !! c = Some x → spread record patch !! c = Some x.
Proof. intros H. unfold spread. by apply lookup_union_Some_l. Qed.

Lemma spread_record (record patch : Row) (c : string) :
  patch !! c = None → spread record patch !! c = record !! c.
Proof. intros H. unfold spread. by apply lookup_union_r. Qed.

Lemma tableOf_other (db db' : Db) (table t : string) :
  t ≠ table →
  (table ≠ "reminders" → reminders db' = reminders db) →
  (table ≠ "sent_reminders" → sentReminders db' = sentReminders db) →
  (table ≠ "conversations" → conversations db' = conversations db) →
  tableOf db' t = tableOf db t.
Proof.
  intros Hne H1 H2 H3. unfold tableOf.
  destruct (String.eqb t "reminders") eqn:E1.
  { apply String.eqb_eq in E1 as ->. by rewrite H1. }
  destruct (String.eqb t "sent_reminders") eqn:E2.
  { apply String.eqb_eq in E2 as ->. by rewrite H2. }
  destruct (String.eqb t "conversations") eqn:E3; [|done].
  apply String.eqb_eq in E3 as ->. by rewrite H3.
Qed.

(** Three conversations, to be updated by wallet. *)
Definition threeConversations : Db :=
  {| reminders := []; sentReminders := [];
     conversations :=
       [(1, <["id" := VNum 1]> (<["wallet_address" := VStr "0xa"]> ∅));
        (2, <["id" := VNum 2]> (<["wallet_address" := VStr "0xb"]> ∅));
        (3, <["id" := VNum 3]> (<["wallet_address" := VStr "0xa"]> ∅))];
     nextId := {| nextReminders := 1; nextSentReminders := 1;
                  nextConversations := 4 |} |}.

(** C9, as stated, fails on the tables [conversations] and
    [sent_reminders]: the rows that match are patched, and counted, but no
    update time is stamped on them. *)
Lemma update_conversation_unstamped :
  let run := updateEq "conversations" {["last_message_at" := VStr "later"]}
                      "wallet_address" (VStr "0xa") 86400000 threeConversations in
  run.1 = mkResult (Some 2) None
  ∧ ∃ patched,
      mapGet 1 (conversations run.2) = Some patched
      ∧ get patched "last_message_at" = VStr "later"
      ∧ patched !! "updated_at" = None
      ∧ get patched "updated_at" = VUndef.
Proof. split; [reflexivity|]. eexists. split_and!; reflexivity. Qed.

(** C9 (amended).  For every known table, [update(table, patch)] filtered
    by equality on a column replaces, in place and under the same identity,
    every row whose column strictly equals the value by the row overridden
    with the patch, and leaves every other row as it is; a patched row of
    the table [reminders] is also stamped with the time of the update, a
    patched row of [sent_reminders] or [conversations] is not.  The result
    carries the number of rows that matched and no error; the other tables
    and the identity counters are unchanged. *)
Theorem update_patches_matching_rows (db : Db) (table : string) (rows : Table)
    (patch : Row) (column : string) (v : value) (now : Z) :
  tableOf db table = Some rows →
  let result := (updateEq table patch column v now db).1 in
  let db' := (updateEq table patch column v now db).2 in
  ∃ rows',
    tableOf db' table = Some rows'
    ∧ length rows' = length rows
    ∧ (∀ i k r, rows !! i = Some (k, r) →
         (get r column ≠ v → rows' !! i = Some (k, r))
         ∧ (get r column = v →
            ∃ r', rows' !! i = Some (k, r')
              ∧ (∀ c x, patch !! c = Some x →
                        (table = "reminders" → c ≠ "updated_at") →
                        r' !! c = Some x)
              ∧ (∀ c, patch !! c = None →
                      (table = "reminders" → c ≠ "updated_at") →
                      r' !! c = r !! c)
              ∧ (table = "reminders" →
                 r' !! "updated_at" = Some (VStr (toISOString now)))
              ∧ (table ≠ "reminders" → r' = spread r patch)))
    ∧ result
      = mkResult
          (Some (Z.of_nat (length (List.filter
                                     (λ e, strictEq (get e.2 column) v) rows))))
          None
    ∧ (∀ t, t ≠ table → tableOf db' t = tableOf db t)
    ∧ nextId db' = nextId db.
Proof.
  intros Ht result db'. subst result db'. unfold updateEq.
  assert (countMatching [(column, v)] rows
          = Z.of_nat (length (List.filter (λ e, strictEq (get e.2 column) v) rows)))
    as Hcount.
  { unfold countMatching. do 2 f_equal. apply filter_ext_bool.
    intros e. apply matchesFilters_one. }
  destruct (tableOf_known _ _ _ Ht) as [->|[->| ->]];
    cbn in Ht; simplify_eq; cbn;
    (eexists; split_and!;
     [ reflexivity
     | unfold updateRows; by rewrite length_fmap
     | intros i k r Hi; rewrite (updateRows_lookup _ _ _ _ _ _ _ Hi); split;
       [ intros Hne; by rewrite strictEq_false
       | intros Heq; rewrite (proj2 (strictEq_true _ _) Heq);
         eexists; split_and!; [reflexivity|..] ]
     | by rewrite Hcount
     | intros t Hne; by eapply (tableOf_other _ _ _ t Hne)
     | reflexivity ]).
  - intros c x Hc Hu. rewrite lookup_insert_ne by (intros <-; by apply Hu).
    by apply spread_patch.
  - intros c Hc Hu. rewrite lookup_insert_ne by (intros <-; by apply Hu).
    by apply spread_record.
  - intros _. by rewrite lookup_insert_eq.
  - done.
  - intros c x Hc _. by apply spread_patch.
  - intros c Hc _. by apply spread_record.
  - done.
  - done.
  - intros c x Hc _. by apply spread_patch.
  - intros c Hc _. by apply spread_record.
  - done.
  - done.
Qed.

Lemma update_patches_matching_rows_witness :
  tableOf threeConversations "conversations"
  = Some (conversations threeConversations)
  ∧ ∃ rows',
      tableOf (updateEq "conversations" {["last_message_at" := VStr "later"]}
                 "wallet_address" (VStr "0xa") 86400000 threeConversations).2
              "conversations"
      = Some rows'
      ∧ length rows' = 3%nat.
Proof.
  split; [reflexivity|].
  destruct (update_patches_matching_rows threeConversations "conversations"
              (conversations threeConversations)
              {["last_message_at" := VStr "later"]}
              "wallet_address" (VStr "0xa") 86400000 eq_refl)
    as (rows' & H1 & H2 & _).
  exists rows'. split; [exact H1|exact H2].
Defined.

End StoreFacts.

(* ===================================================================== *)
(** * The reminder engine *)
(* ===================================================================== *)

Module EngineFacts.
Import StringFacts StoreFacts.

(** ** The check of [sent_reminders] *)

Lemma plain_reminder_id : plainColumn "reminder_id" = true.
Proof. reflexivity. Qed.

Lemma existsb_filter {A : Type} (f g : A → bool) (l : list A) :
  existsb g (List.filter f l) = existsb (λ x, f x && g x) l.
Proof.
  induction l as [|x l IH]; [done|]. cbn.
  destruct (f x); cbn; by rewrite IH.
Qed.

Lemma hasReminderBeenSent_spec (id : value) (type : string) (d : Db) :
  hasReminderBeenSent id type d
  = existsb (sentMatch id type) (mapValues (sentReminders d)).
Proof.
  unfold hasReminderBeenSent.
  rewrite (select_one d "sent_reminders" (sentReminders d) Eq "reminder_id" id
             eq_refl plain_reminder_id).
  cbn [data holds]. by rewrite existsb_filter.
Qed.

Lemma sentCount_app (id : value) (type : string) (l1 l2 : list Row) :
  sentCount id type (l1 ++ l2) = (sentCount id type l1 + sentCount id type l2)%nat.
Proof. unfold sentCount. by rewrite List.filter_app, length_app. Qed.

Lemma existsb_sentCount (id : value) (type : string) (l : list Row) :
  existsb (sentMatch id type) l = true ↔ (0 < sentCount id type l)%nat.
Proof.
  unfold sentCount. induction l as [|r l IH]; cbn; [lia|].
  destruct (sentMatch id type r); cbn; [lia|done].
Qed.

Lemma existsb_sentCount_false (id : value) (type : string) (l : list Row) :
  existsb (sentMatch id type) l = false ↔ sentCount id type l = 0%nat.
Proof.
  destruct (existsb (sentMatch id type) l) eqn:E.
  - apply existsb_sentCount in E. split; [done|lia].
  - split; [|done]. intros _.
    destruct (sentCount id type l) eqn:E'; [done|].
    assert (existsb (sentMatch id type) l = true); [|congruence].
    apply existsb_sentCount. lia.
Qed.

(** ** Writing to [sent_reminders] *)

Lemma mapHas_fresh (k : Z) (m : Table) :
  forallb (λ k', k' <? k) (mapKeys m) = true → mapHas k m = false.
Proof.
  unfold mapHas, mapKeys. induction m as [|[k' r] m IH]; cbn; [done|].
  intros [Hk Hm]%andb_prop. rewrite (IH Hm), orb_false_r.
  apply bool_decide_eq_false. apply Z.ltb_lt in Hk. lia.
Qed.

Lemma mapSet_fresh (k : Z) (r : Row) (m : Table) :
  forallb (λ k', k' <? k) (mapKeys m) = true → mapSet k r m = m ++ [(k, r)].
Proof. intros H. unfold mapSet. by rewrite mapHas_fresh. Qed.

(** The record that [recordSentReminder] leaves in the store. *)
Definition storedSent (id : value) (type : string) (now : Z) (d : Db) : Row :=
  <["id" := VNum (nextSentReminders (nextId d))]>
    (sentReminderRecord id type VUndef now).

Lemma storedSent_match (id id' : value) (type type' : string) (now : Z) (d : Db) :
  sentMatch id' type' (storedSent id type now d)
  = bool_decide (id = id') && bool_decide (type = type').
Proof.
  unfold sentMatch, storedSent, sentReminderRecord.
  rewrite get_insert_ne by done. rewrite get_insert_eq.
  rewrite get_insert_ne by done. rewrite get_insert_ne by done.
  rewrite get_insert_ne by done. rewrite get_insert_eq.
  unfold strictEq. f_equal.
  destruct (decide (type = type')) as [->|Hne].
  - by rewrite !bool_decide_eq_true_2.
  - rewrite !bool_decide_eq_false_2; [done|done|]. by intros [=].
Qed.

Lemma forallb_weaken (l : list Z) (a b : Z) :
  a ≤ b → forallb (λ k, k <? a) l = true → forallb (λ k, k <? b) l = true.
Proof.
  intros Hab. rewrite !forallb_forall. intros H k Hk.
  specialize (H k Hk). apply Z.ltb_lt in H. apply Z.ltb_lt. lia.
Qed.

Lemma insertSent_spec (id : value) (type : string) (now : Z) (w : World) :
  sentFresh (db w) = true →
  ∃ d',
    insertSent id type VUndef now w
    = (Returned tt, {| db := d'; xmtp := xmtp w; processed := processed w |})
    ∧ sentReminders d'
      = sentReminders (db w)
        ++ [(nextSentReminders (nextId (db w)), storedSent id type now (db w))]
    ∧ reminders d' = reminders (db w)
    ∧ sentFresh d' = true.
Proof.
  intros Hf. unfold insertSent, insert. cbn.
  eexists. split; [reflexivity|]. cbn. split_and!.
  - by rewrite mapSet_fresh.
  - done.
  - unfold sentFresh. cbn. rewrite mapSet_fresh by done.
    unfold mapKeys. rewrite fmap_app, forallb_app. cbn.
    rewrite andb_true_r. apply andb_true_intro. split.
    + eapply forallb_weaken; [|exact Hf]. lia.
    + apply Z.ltb_lt. lia.
Qed.

(** ** A task run alone *)

Lemma alone_bind {A B : Type} (t : Task A) (f : A → Task B) (w : World) :
  alone (t ≫= f) w = mbind (M := M) (λ a, alone (f a)) (alone t) w.
Proof.
  unfold mbind, Task_bind, M_bind. revert w.
  induction t as [[a|e]|next IH effect|rest IH]; intros w; cbn; auto.
Qed.

Lemma alone_await {A : Type} (t : Task A) (w : World) :
  alone (await t) w = alone t w.
Proof. revert w. induction t as [o|next IH effect|rest IH]; intros w; cbn; auto. Qed.

Lemma alone_lift {A : Type} (m : M A) (w : World) : alone (lift m) w = m w.
Proof. cbn. by destruct (m w). Qed.

Lemma alone_tryCatch {A : Type} (t : Task A) (handler : exn → Task A) (w : World) :
  alone (tryCatch t handler) w
  = match alone t w with
    | (Returned a, w') => (Returned a, w')
    | (Threw e, w') => alone (handler e) w'
    end.
Proof.
  revert w. induction t as [[a|e]|next IH effect|rest IH]; intros w; cbn; auto.
Qed.

Lemma alone_forOf {A : Type} (f : A → Task unit) (l : list A) (w : World) :
  alone (forOf f l) w = forEach (λ x, alone (f x)) l w.
Proof.
  revert w. induction l as [|x l IH]; intros w; [done|].
  cbn [forOf forEach]. rewrite alone_bind. unfold mbind, M_bind.
  destruct (alone (f x) w) as [[[]|e] w1]; [apply IH|done].
Qed.

Lemma alone_sendMessageAsync (to : value) (text : string) (now : Z) (w : World) :
  alone (sendMessageAsync to text now) w = gatewaySend to text now w.
Proof.
  unfold sendMessageAsync. rewrite alone_bind. unfold mbind at 1, M_bind at 1.
  rewrite (alone_lift (gatewaySend to text now)).
  by destruct (gatewaySend to text now w) as [[message|e] w1].
Qed.

Lemma alone_recordSentReminder (id : value) (type : string) (messageId : value)
    (now : Z) (w : World) :
  alone (recordSentReminder id type messageId now) w
  = insertSent id type messageId now w.
Proof.
  unfold recordSentReminder, awaitThenable. rewrite alone_tryCatch. cbn [alone].
  rewrite alone_await, (alone_lift (insertSent id type messageId now)).
  unfold insertSent. by destruct (insert _ _ now (db w)).
Qed.

(** [sendReminder] run alone: with XMTP disabled it succeeds and touches
    nothing; otherwise it succeeds exactly when the gateway accepts. *)
Lemma alone_sendReminder (svc : ReminderService) (to domain : value) (d now : Z)
    (w : World) :
  alone (sendReminder svc to domain d now) w
  = if enableXMTP svc then
      match sendMessage to (createReminderMessage (toString domain) d) now (xmtp w) with
      | (inl _, x') =>
          (Returned true, {| db := db w; xmtp := x'; processed := processed w |})
      | (inr _, x') =>
          (Returned false, {| db := db w; xmtp := x'; processed := processed w |})
      end
    else (Returned true, w).
Proof.
  unfold sendReminder. destruct (enableXMTP svc); cbn [negb]; [|done].
  rewrite alone_tryCatch, alone_bind. unfold mbind at 1, M_bind at 1.
  rewrite alone_await, alone_sendMessageAsync. unfold gatewaySend.
  by destruct (sendMessage to _ now (xmtp w)) as [[message|e] x'].
Qed.

Lemma notifyInterval_unfold (svc : ReminderService) (now : Z) (reminder : Row)
    (d interval : Z) (w : World) :
  alone (notifyInterval svc now reminder d interval) w
  = if hasReminderBeenSent (get reminder "id") (dayTag interval) (db w)
    then (Returned tt, w)
    else
      let record :=
        insertSent (get reminder "id") (dayTag interval) VUndef now
        ≫= λ _, countProcessed (get reminder "id") (dayTag interval) false in
      if enableXMTP svc then
        match sendMessage (get reminder "wallet_address")
                (createReminderMessage (toString (get reminder "domain")) d)
                now (xmtp w) with
        | (inl _, x') => record {| db := db w; xmtp := x'; processed := processed w |}
        | (inr _, x') =>
            (Returned tt, {| db := db w; xmtp := x'; processed := processed w |})
        end
      else record w.
Proof.
  unfold notifyInterval. rewrite alone_bind. unfold mbind at 1, M_bind at 1.
  rewrite alone_await, (alone_lift (checkSent _ _)). unfold checkSent.
  destruct (hasReminderBeenSent _ _ (db w)); [done|].
  rewrite alone_bind. unfold mbind at 1, M_bind at 1.
  rewrite alone_await, alone_sendReminder. cbn zeta.
  assert (∀ w1,
            alone (await (recordSentReminder (get reminder "id") (dayTag interval)
                            VUndef now)
                   ≫= λ _, lift (countProcessed (get reminder "id")
                                   (dayTag interval) false)) w1
            = (insertSent (get reminder "id") (dayTag interval) VUndef now
               ≫= λ _, countProcessed (get reminder "id") (dayTag interval) false) w1)
    as Hrecord.
  { intros w1. rewrite alone_bind. unfold mbind, M_bind.
    rewrite alone_await, alone_recordSentReminder.
    destruct (insertSent _ _ _ now w1) as [[[]|e] w2]; [|done].
    apply (alone_lift (countProcessed _ _ false)). }
  destruct (enableXMTP svc).
  - destruct (sendMessage _ _ now (xmtp w)) as [[message|e] x']; [|done].
    apply Hrecord.
  - apply Hrecord.
Qed.

Lemma notifyExpired_unfold (now : Z) (reminder : Row) (w : World) :
  alone (notifyExpired now reminder) w
  = if hasReminderBeenSent (get reminder "id") gracePeriodType (db w)
    then (Returned tt, w)
    else
      match sendMessage (get reminder "wallet_address")
                        (expiredMessage (toString (get reminder "domain")))
                        now (xmtp w) with
      | (inl _, x') =>
          (insertSent (get reminder "id") gracePeriodType VUndef now
           ≫= λ _, countProcessed (get reminder "id") gracePeriodType true)
            {| db := db w; xmtp := x'; processed := processed w |}
      | (inr e, x') =>
          (Threw e, {| db := db w; xmtp := x'; processed := processed w |})
      end.
Proof.
  unfold notifyExpired. rewrite alone_bind. unfold mbind at 1, M_bind at 1.
  rewrite alone_await, (alone_lift (checkSent _ _)). unfold checkSent.
  destruct (hasReminderBeenSent _ _ (db w)); [done|].
  rewrite alone_bind. unfold mbind at 1, M_bind at 1.
  rewrite alone_await, alone_sendMessageAsync. unfold gatewaySend.
  destruct (sendMessage _ _ now (xmtp w)) as [[message|e] x']; [|done].
  rewrite alone_bind. unfold mbind, M_bind.
  rewrite alone_await, alone_recordSentReminder.
  destruct (insertSent _ _ _ now _) as [[[]|e] w2]; [|done].
  apply (alone_lift (countProcessed _ _ true)).
Qed.

Lemma alone_processReminder (svc : ReminderService) (now : Z) (reminder : Row)
    (w : World) :
  alone (processReminder svc now reminder) w
  = (forEach (λ interval,
                alone (processInterval svc now reminder
                         (daysUntilExpiry reminder now) interval))
             (reminderIntervals svc)
     ≫= λ _, alone (processExpired now reminder (daysUntilExpiry reminder now))) w.
Proof.
  unfold processReminder. cbv zeta. rewrite alone_bind. unfold mbind, M_bind.
  by rewrite alone_forOf.
Qed.

Lemma wholePass_unfold (svc : ReminderService) (now : Z) (w : World) :
  wholePass svc now w
  = forEach (λ reminder, alone (processReminder svc now reminder))
            (mapValues (reminders (db w))) w.
Proof.
  unfold wholePass.
  assert (data (resolve (createSelectQuery "reminders" "*") (db w))
          = Some (mapValues (reminders (db w)))) as ->.
  { cbn. f_equal. induction (mapValues (reminders (db w))) as [|r l IH]; [done|].
    cbn. by rewrite IH. }
  unfold pass. apply alone_forOf.
Qed.

(** ** How the world evolves

    [evolves w w'] relates a world to a later one: [sent_reminders] and the
    history of deliveries have only grown; at most one record was added for
    any reminder and tag, and none for a pair that already had one. *)
Definition evolves (w w' : World) : Prop :=
  sentFresh (db w') = true
  ∧ ∃ snew pnew,
      sentReminders (db w') = sentReminders (db w) ++ snew
      ∧ processed w' = processed w ++ pnew
      ∧ (∀ id type,
           (sentCount id type (mapValues snew) ≤ 1)%nat
           ∧ (hasReminderBeenSent id type (db w) = true →
              sentCount id type (mapValues snew) = 0%nat)).

Lemma evolves_refl (w : World) : sentFresh (db w) = true → evolves w w.
Proof.
  intros Hf. split; [done|]. exists [], []. rewrite !app_nil_r.
  split_and!; try done. cbn. intros. lia.
Qed.

Lemma has_app (id : value) (type : string) (d d' : Db) (snew : Table) :
  sentReminders d' = sentReminders d ++ snew →
  hasReminderBeenSent id type d'
  = hasReminderBeenSent id type d || existsb (sentMatch id type) (mapValues snew).
Proof.
  intros H. rewrite !hasReminderBeenSent_spec, H. unfold mapValues.
  by rewrite fmap_app, existsb_app.
Qed.

Lemma evolves_trans (w1 w2 w3 : World) :
  evolves w1 w2 → evolves w2 w3 → evolves w1 w3.
Proof.
  intros (_ & s1 & p1 & Hs1 & Hp1 & Hc1) (Hf & s2 & p2 & Hs2 & Hp2 & Hc2).
  split; [done|]. exists (s1 ++ s2), (p1 ++ p2).
  rewrite Hs2, Hs1, Hp2, Hp1, !app_assoc. split_and!; try done.
  intros id type. unfold mapValues. rewrite fmap_app, sentCount_app.
  destruct (Hc1 id type) as [Hle1 Hz1]. destruct (Hc2 id type) as [Hle2 Hz2].
  rewrite (has_app id type (db w1) (db w2) s1 Hs1) in Hz2.
  split.
  - destruct (sentCount id type s1.*2) eqn:E1; [unfold mapValues in *; lia|].
    assert (existsb (sentMatch id type) (mapValues s1) = true) as Hex.
    { apply existsb_sentCount. unfold mapValues. lia. }
    rewrite Hex, orb_true_r in Hz2. unfold mapValues in *. rewrite Hz2 by done. lia.
  - intros Hhas. unfold mapValues in *. rewrite Hz1 by done.
    rewrite Hhas in Hz2. by rewrite Hz2.
Qed.

Lemma evolves_fresh (w w' : World) : evolves w w' → sentFresh (db w') = true.
Proof. by intros [H _]. Qed.

(** A record, once there, stays. *)
Lemma hasReminderBeenSent_evolves (id : value) (type : string) (w w' : World) :
  evolves w w' →
  hasReminderBeenSent id type (db w) = true →
  hasReminderBeenSent id type (db w') = true.
Proof.
  intros (_ & snew & _ & Hs & _) H.
  by rewrite (has_app id type (db w) (db w') snew Hs), H.
Qed.

(** A change of the gateway alone. *)
Lemma evolves_xmtp (w : World) (x : Xmtp) :
  sentFresh (db w) = true →
  evolves w {| db := db w; xmtp := x; processed := processed w |}.
Proof.
  intros Hf. split; [done|]. exists [], []. cbn. rewrite !app_nil_r.
  split_and!; try done. intros. cbn. lia.
Qed.

(** One record and one delivery added for a pair that had no record. *)
Lemma evolves_record (w w' : World) (id : value) (type : string) (now : Z)
    (post : bool) :
  hasReminderBeenSent id type (db w) = false →
  sentFresh (db w') = true →
  sentReminders (db w')
  = sentReminders (db w)
    ++ [(nextSentReminders (nextId (db w)), storedSent id type now (db w))] →
  processed w' = processed w ++ [mkDelivery id type post] →
  evolves w w'.
Proof.
  intros Hno Hf Hs Hp. split; [done|]. eexists _, _.
  split; [exact Hs|]. split; [exact Hp|].
  intros id' type'. unfold sentCount. cbn. rewrite storedSent_match.
  destruct (decide (id = id')) as [<-|Hne1];
    [destruct (decide (type = type')) as [<-|Hne2]|].
  - rewrite !bool_decide_eq_true_2 by done. cbn. split; [lia|congruence].
  - rewrite (bool_decide_eq_false_2 (type = type')) by done.
    rewrite andb_false_r. cbn. split; [lia|done].
  - rewrite (bool_decide_eq_false_2 (id = id')) by done. cbn. split; [lia|done].
Qed.

(** ** Lifting through the computations *)

Section Lifting.
Variable R : World → World → Prop.
Hypothesis R_refl : ∀ w, sentFresh (db w) = true → R w w.
Hypothesis R_trans : ∀ w1 w2 w3, R w1 w2 → R w2 w3 → R w1 w3.
Hypothesis R_fresh : ∀ w w', R w w' → sentFresh (db w') = true.

(** A computation whose effect on the world stays within the relation,
    whether it returns or throws. *)
Definition lifts {A : Type} (m : M A) : Prop :=
  ∀ w, sentFresh (db w) = true → R w (m w).2.

Lemma lifts_ret {A : Type} (a : A) : lifts (mret a).
Proof. intros w Hf. by apply R_refl. Qed.

Lemma lifts_bind {A B : Type} (m : M A) (f : A → M B) :
  lifts m → (∀ a, lifts (f a)) → lifts (m ≫= f).
Proof.
  intros Hm Hf w Hw. unfold mbind, M_bind.
  specialize (Hm w Hw). destruct (m w) as [[a|e] w1]; cbn in *; [|done].
  eapply R_trans; [exact Hm|]. apply Hf. by eapply R_fresh.
Qed.

Lemma lifts_forEach {A : Type} (f : A → M unit) (l : list A) :
  (∀ x, x ∈ l → lifts (f x)) → lifts (forEach f l).
Proof.
  induction l as [|x l IH]; intros Hf; cbn [forEach].
  - apply (lifts_ret tt).
  - apply lifts_bind; [apply Hf; by left|].
    intros _. apply IH. intros y Hy. apply Hf. by right.
Qed.

(** What a loop that has returned did for each of its elements: it ran
    the body for the element, from a world the loop had reached to a world
    from which the loop went on. *)
Lemma forEach_visits {A : Type} (f : A → M unit) (l : list A) (w w' : World)
    (x : A) :
  (∀ y, y ∈ l → lifts (f y)) →
  sentFresh (db w) = true →
  forEach f l w = (Returned tt, w') →
  x ∈ l →
  ∃ w1 w2,
    R w w1 ∧ f x w1 = (Returned tt, w2) ∧ R w2 w'.
Proof.
  revert w. induction l as [|y l IH]; intros w Hl Hf Hrun Hx.
  { by apply elem_of_nil in Hx. }
  cbn [forEach] in Hrun. unfold mbind, M_bind in Hrun.
  pose proof (Hl y ltac:(by left) w Hf) as Hev.
  destruct (f y w) as [[[]|e] wa] eqn:Hy; [|done]. cbn in Hev.
  pose proof (R_fresh _ _ Hev) as Hfa.
  assert (∀ z, z ∈ l → lifts (f z)) as Hl' by (intros z Hz; apply Hl; by right).
  apply elem_of_cons in Hx as [->|Hx].
  - exists w, wa. split_and!; [by apply R_refl|done|].
    pose proof (lifts_forEach f l Hl' wa Hfa) as Hrest. by rewrite Hrun in Hrest.
  - destruct (IH wa Hl' Hfa Hrun Hx) as (w1 & w2 & H1 & H2 & H3).
    exists w1, w2. split_and!; [|done..]. by eapply R_trans.
Qed.

End Lifting.

Definition preserves {A : Type} (m : M A) : Prop := lifts evolves m.

Lemma preserves_ret {A : Type} (a : A) : preserves (mret a).
Proof. apply lifts_ret, evolves_refl. Qed.

Lemma preserves_bind {A B : Type} (m : M A) (f : A → M B) :
  preserves m → (∀ a, preserves (f a)) → preserves (m ≫= f).
Proof. apply lifts_bind; [apply evolves_trans|apply evolves_fresh]. Qed.

Lemma preserves_forEach {A : Type} (f : A → M unit) (l : list A) :
  (∀ x, preserves (f x)) → preserves (forEach f l).
Proof.
  intros Hf. apply lifts_forEach; [apply evolves_refl|apply evolves_trans|
                                   apply evolves_fresh|].
  intros x _. apply Hf.
Qed.

Lemma preserves_result {A : Type} (m : M A) (w w' : World) (o : outcome A) :
  preserves m → sentFresh (db w) = true → m w = (o, w') → evolves w w'.
Proof. intros Hm Hf Hrun. specialize (Hm w Hf). by rewrite Hrun in Hm. Qed.

Lemma world_eta (w : World) :
  {| db := db w; xmtp := xmtp w; processed := processed w |} = w.
Proof. by destruct w. Qed.

Lemma sendMessage_rejects (to : value) (text : string) (now : Z) (x x' : Xmtp)
    (e : exn) :
  sendMessage to text now x = (inr e, x') → x' = x.
Proof.
  unfold sendMessage. destruct (isConnected x); cbn; [|by intros [=]].
  destruct to; by intros [=].
Qed.

Lemma sendMessage_accepts (to : value) (text : string) (now : Z) (x x' : Xmtp)
    (message : MockMessage) :
  sendMessage to text now x = (inl message, x') →
  sentMessages x' = sentMessages x ++ [message]
  ∧ content message = text ∧ to = VStr (recipient message)
  ∧ isConnected x' = isConnected x.
Proof.
  unfold sendMessage. destruct (isConnected x) eqn:Hc; cbn; [|by intros [=]].
  destruct to; intros [=]; by subst.
Qed.

Lemma has_after_record (id : value) (type : string) (now : Z) (d d' : Db) :
  sentReminders d'
  = sentReminders d ++ [(nextSentReminders (nextId d), storedSent id type now d)] →
  hasReminderBeenSent id type d' = true.
Proof.
  intros Hs. rewrite (has_app id type d d' _ Hs). cbn.
  rewrite storedSent_match, !bool_decide_eq_true_2 by done.
  cbn. by rewrite orb_true_r.
Qed.

(** Storing and counting after a check that found nothing. *)
Lemma record_and_count (id : value) (type : string) (now : Z) (post : bool)
    (w : World) (x : Xmtp) :
  sentFresh (db w) = true →
  ∃ d',
    (insertSent id type VUndef now ≫= λ _, countProcessed id type post)
      {| db := db w; xmtp := x; processed := processed w |}
    = (Returned tt,
       {| db := d'; xmtp := x;
          processed := processed w ++ [mkDelivery id type post] |})
    ∧ sentReminders d'
      = sentReminders (db w)
        ++ [(nextSentReminders (nextId (db w)), storedSent id type now (db w))]
    ∧ reminders d' = reminders (db w)
    ∧ sentFresh d' = true
    ∧ hasReminderBeenSent id type d' = true.
Proof.
  intros Hf. unfold mbind, M_bind.
  destruct (insertSent_spec id type now
              {| db := db w; xmtp := x; processed := processed w |} Hf)
    as (d' & -> & Hs & Hr & Hf').
  cbn in *. exists d'. split_and!; try done. by eapply has_after_record.
Qed.

Lemma evolves_record_and_count (id : value) (type : string) (now : Z)
    (post : bool) (w : World) (x : Xmtp) :
  sentFresh (db w) = true →
  hasReminderBeenSent id type (db w) = false →
  evolves w
    ((insertSent id type VUndef now ≫= λ _, countProcessed id type post)
       {| db := db w; xmtp := x; processed := processed w |}).2.
Proof.
  intros Hf Hno.
  destruct (record_and_count id type now post w x Hf) as (d' & -> & Hs & _ & Hf' & _).
  cbn. by eapply evolves_record.
Qed.

Lemma preserves_notifyInterval (svc : ReminderService) (now : Z) (reminder : Row)
    (d interval : Z) :
  preserves (alone (notifyInterval svc now reminder d interval)).
Proof.
  intros w Hf. rewrite notifyInterval_unfold.
  destruct (hasReminderBeenSent _ _ (db w)) eqn:Hhas; [by apply evolves_refl|].
  cbn zeta. destruct (enableXMTP svc).
  - destruct (sendMessage _ _ now (xmtp w)) as [[message|e] x'].
    + by apply evolves_record_and_count.
    + by apply evolves_xmtp.
  - rewrite <-(world_eta w) at 2. by apply evolves_record_and_count.
Qed.

Lemma preserves_notifyExpired (now : Z) (reminder : Row) :
  preserves (alone (notifyExpired now reminder)).
Proof.
  intros w Hf. rewrite notifyExpired_unfold.
  destruct (hasReminderBeenSent _ _ (db w)) eqn:Hhas; [by apply evolves_refl|].
  destruct (sendMessage _ _ now (xmtp w)) as [[message|e] x'].
  - by apply evolves_record_and_count.
  - by apply evolves_xmtp.
Qed.

Lemma preserves_processInterval (svc : ReminderService) (now : Z) (reminder : Row)
    (days : option Z) (interval : Z) :
  preserves (alone (processInterval svc now reminder days interval)).
Proof.
  unfold processInterval. destruct days as [d|]; [|apply (preserves_ret tt)].
  destruct (d =? interval); [apply preserves_notifyInterval|apply (preserves_ret tt)].
Qed.

Lemma preserves_processExpired (now : Z) (reminder : Row) (days : option Z) :
  preserves (alone (processExpired now reminder days)).
Proof.
  unfold processExpired. destruct days as [d|]; [|apply (preserves_ret tt)].
  destruct (d <=? 0); [apply preserves_notifyExpired|apply (preserves_ret tt)].
Qed.

Lemma preserves_processReminder (svc : ReminderService) (now : Z) (reminder : Row) :
  preserves (alone (processReminder svc now reminder)).
Proof.
  intros w Hf. rewrite alone_processReminder. revert w Hf.
  apply preserves_bind.
  - apply preserves_forEach. intros interval. apply preserves_processInterval.
  - intros _. apply preserves_processExpired.
Qed.

Lemma preserves_wholePass (svc : ReminderService) (now : Z) :
  preserves (wholePass svc now).
Proof.
  intros w Hf. rewrite wholePass_unfold.
  apply preserves_forEach; [|done]. intros r. apply preserves_processReminder.
Qed.

(** Storing a new reminder does not touch [sent_reminders]. *)
Lemma insert_reminder_sent (reminder : Row) (now : Z) (d : Db) :
  sentReminders (insert "reminders" (One reminder) now d).2 = sentReminders d
  ∧ nextSentReminders (nextId (insert "reminders" (One reminder) now d).2)
    = nextSentReminders (nextId d).
Proof. done. Qed.

Lemma evolves_occur (c : external) (w : World) :
  sentFresh (db w) = true → evolves w (occur c w).
Proof.
  intros Hf. destruct c as [| |reminder now]; cbn [occur].
  - by apply evolves_xmtp.
  - by apply evolves_xmtp.
  - destruct (insert_reminder_sent reminder now (db w)) as [Hs Hn].
    split.
    + unfold sentFresh. cbn [db]. by rewrite Hs, Hn.
    + exists [], []. cbn [db processed]. rewrite Hs, !app_nil_r.
      split_and!; try done. intros. cbn. lia.
Qed.

Lemma evolves_serialStep (svc : ReminderService) (e : stage) (w : World) :
  sentFresh (db w) = true → evolves w (serialStep svc e w).
Proof.
  intros Hf. destruct e as [now|c]; cbn [serialStep].
  - by apply preserves_wholePass.
  - by apply evolves_occur.
Qed.

Lemma evolves_serial (svc : ReminderService) (es : list stage) (w : World) :
  sentFresh (db w) = true → evolves w (serial svc es w).
Proof.
  revert w. induction es as [|e es IH]; intros w Hf; cbn.
  - by apply evolves_refl.
  - eapply evolves_trans; [by apply evolves_serialStep|].
    apply IH. eapply evolves_fresh. by apply evolves_serialStep.
Qed.

(** ** During a pass

    [during w w'] relates a world to a later one of a pass that runs alone:
    besides what [evolves] says, the reminders are the same, the gateway is
    connected or not as it was, and messages have only been sent. *)
Definition during (w w' : World) : Prop :=
  evolves w w'
  ∧ reminders (db w') = reminders (db w)
  ∧ isConnected (xmtp w') = isConnected (xmtp w)
  ∧ ∃ sent, sentMessages (xmtp w') = sentMessages (xmtp w) ++ sent.

Lemma during_refl (w : World) : sentFresh (db w) = true → during w w.
Proof.
  intros Hf. split_and!; [by apply evolves_refl|done|done|].
  exists []. by rewrite app_nil_r.
Qed.

Lemma during_trans (w1 w2 w3 : World) : during w1 w2 → during w2 w3 → during w1 w3.
Proof.
  intros (He1 & Hr1 & Hc1 & m1 & Hm1) (He2 & Hr2 & Hc2 & m2 & Hm2).
  split_and!; [by eapply evolves_trans|congruence|congruence|].
  exists (m1 ++ m2). by rewrite Hm2, Hm1, app_assoc.
Qed.

Lemma during_fresh (w w' : World) : during w w' → sentFresh (db w') = true.
Proof. intros [H _]. by eapply evolves_fresh. Qed.

Lemma during_notifyInterval (svc : ReminderService) (now : Z) (reminder : Row)
    (d interval : Z) :
  lifts during (alone (notifyInterval svc now reminder d interval)).
Proof.
  intros w Hf.
  pose proof (preserves_notifyInterval svc now reminder d interval w Hf) as Hev.
  rewrite notifyInterval_unfold in *.
  destruct (hasReminderBeenSent _ _ (db w)) eqn:Hhas; [by apply during_refl|].
  cbn zeta in *. destruct (enableXMTP svc).
  - destruct (sendMessage _ _ now (xmtp w)) as [[message|e] x'] eqn:Hsend.
    + destruct (record_and_count (get reminder "id") (dayTag interval) now false
                  w x' Hf) as (d' & Hrun & _ & Hr & _).
      rewrite Hrun in *. cbn in *.
      apply sendMessage_accepts in Hsend as (Hm & _ & _ & Hc).
      split_and!; [done..|]. by exists [message].
    + apply sendMessage_rejects in Hsend as ->. rewrite world_eta.
      by apply during_refl.
  - destruct (record_and_count (get reminder "id") (dayTag interval) now false
                w (xmtp w) Hf) as (d' & Hrun & _ & Hr & _).
    rewrite world_eta in Hrun. rewrite Hrun in *. cbn in *.
    split_and!; [done..|]. exists []. by rewrite app_nil_r.
Qed.

Lemma during_notifyExpired (now : Z) (reminder : Row) :
  lifts during (alone (notifyExpired now reminder)).
Proof.
  intros w Hf.
  pose proof (preserves_notifyExpired now reminder w Hf) as Hev.
  rewrite notifyExpired_unfold in *.
  destruct (hasReminderBeenSent _ _ (db w)) eqn:Hhas; [by apply during_refl|].
  destruct (sendMessage _ _ now (xmtp w)) as [[message|e] x'] eqn:Hsend.
  - destruct (record_and_count (get reminder "id") gracePeriodType now true
                w x' Hf) as (d' & Hrun & _ & Hr & _).
    rewrite Hrun in *. cbn in *.
    apply sendMessage_accepts in Hsend as (Hm & _ & _ & Hc).
    split_and!; [done..|]. by exists [message].
  - apply sendMessage_rejects in Hsend as ->. cbn. rewrite world_eta.
    by apply during_refl.
Qed.

Lemma during_processInterval (svc : ReminderService) (now : Z) (reminder : Row)
    (days : option Z) (interval : Z) :
  lifts during (alone (processInterval svc now reminder days interval)).
Proof.
  unfold processInterval.
  destruct days as [d|]; [|apply (lifts_ret during during_refl tt)].
  destruct (d =? interval);
    [apply during_notifyInterval|apply (lifts_ret during during_refl tt)].
Qed.

Lemma during_processExpired (now : Z) (reminder : Row) (days : option Z) :
  lifts during (alone (processExpired now reminder days)).
Proof.
  unfold processExpired.
  destruct days as [d|]; [|apply (lifts_ret during during_refl tt)].
  destruct (d <=? 0);
    [apply during_notifyExpired|apply (lifts_ret during during_refl tt)].
Qed.

Lemma during_processReminder (svc : ReminderService) (now : Z) (reminder : Row) :
  lifts during (alone (processReminder svc now reminder)).
Proof.
  intros w Hf. rewrite alone_processReminder. revert w Hf.
  apply (lifts_bind during during_trans during_fresh).
  - apply (lifts_forEach during during_refl during_trans during_fresh).
    intros interval _. apply during_processInterval.
  - intros _. apply during_processExpired.
Qed.

(** A message the gateway refuses is refused again, whatever its text and
    the time, while the gateway is connected or not as it was. *)
Lemma sendMessage_rejects_again (to : value) (text text' : string) (now now' : Z)
    (x x' y : Xmtp) (e : exn) :
  sendMessage to text now x = (inr e, x') →
  isConnected y = isConnected x →
  sendMessage to text' now' y = (inr e, y).
Proof.
  unfold sendMessage. intros H Hc. rewrite Hc.
  destruct (isConnected x); cbn in *; [|by simplify_eq].
  destruct to; by simplify_eq.
Qed.

(** ** Passes that do not overlap are histories of the system *)

Lemma run_app (svc : ReminderService) (es1 es2 : list event) (s : System) :
  run svc (es1 ++ es2) s = run svc es2 (run svc es1 s).
Proof. apply foldl_app. Qed.

Lemma advance_alone (t : Task unit) (w : World) :
  alone t w
  = match advance t w with
    | (Ended o, w') => (o, w')
    | (Waiting rest, w') => alone rest w'
    end.
Proof. revert w. induction t as [o|next IH effect|rest IH]; intros w; cbn; auto. Qed.

(** A pass that waits, resumed again and again while nothing else happens,
    comes to its end, and has then done what it does alone. *)
Lemma resumed_to_the_end (svc : ReminderService) (t : Task unit) (i : nat)
    (s : System) :
  passes s !! i = Some (Waiting t) →
  ∃ n,
    run svc (repeat (Resume i) (S n)) s
    = {| world := (alone t (world s)).2;
         passes := <[i := Ended (alone t (world s)).1]> (passes s) |}.
Proof.
  revert s. induction t as [o|next IH effect|rest IH]; intros s Hi.
  - exists 0%nat. cbn. unfold resume. by rewrite Hi.
  - pose proof (lookup_lt_Some _ _ _ Hi) as Hlt.
    destruct (IH (world s)
                 {| world := effect (world s);
                    passes := <[i := Waiting (next (world s))]> (passes s) |})
      as (n & Hn).
    { cbn. by apply list_lookup_insert_eq. }
    exists n. cbn in *. rewrite list_insert_insert_eq in Hn. rewrite <-Hn. f_equal.
    unfold resume. cbn. rewrite Hi, list_lookup_insert_eq by done. cbn.
    destruct (advance (next (world s)) (effect (world s))) as [t' w'].
    by rewrite list_insert_insert_eq.
  - pose proof (lookup_lt_Some _ _ _ Hi) as Hlt.
    destruct (IH {| world := world s;
                    passes := <[i := Waiting rest]> (passes s) |})
      as (n & Hn).
    { cbn. by apply list_lookup_insert_eq. }
    exists (S n). cbn in *. rewrite list_insert_insert_eq in Hn. rewrite <-Hn.
    f_equal. unfold resume. by rewrite Hi.
Qed.

(** A call of [processReminders], followed by enough resumptions of the pass
    it started, is a whole pass. *)
Lemma whole_pass_history (svc : ReminderService) (now : Z) (s : System) :
  ∃ n,
    run svc (Call now :: repeat (Resume (length (passes s))) n) s
    = {| world := (wholePass svc now (world s)).2;
         passes := passes s ++ [Ended (wholePass svc now (world s)).1] |}.
Proof.
  cbn [run foldl step]. unfold processReminders, wholePass.
  destruct (data (resolve (createSelectQuery "reminders" "*") (db (world s))))
    as [rows|]; [|by exists 0%nat].
  rewrite (advance_alone (pass svc now rows)).
  destruct (advance (pass svc now rows) (world s)) as [[rest|o] w]; [|by exists 0%nat].
  destruct (resumed_to_the_end svc rest (length (passes s))
              {| world := w; passes := passes s ++ [Waiting rest] |})
    as (n & Hn).
  { cbn. by apply list_lookup_middle. }
  exists (S n). unfold run in Hn. rewrite Hn. cbn. f_equal.
  by rewrite insert_app_r_alt, Nat.sub_diag by done.
Qed.

Lemma serial_history (svc : ReminderService) (es : list stage) (s : System) :
  ∃ history, world (run svc history s) = serial svc es (world s).
Proof.
  revert s. induction es as [|e es IH]; intros s.
  - by exists [].
  - destruct e as [now|c].
    + destruct (whole_pass_history svc now s) as (n & Hn).
      destruct (IH (run svc (Call now :: repeat (Resume (length (passes s))) n) s))
        as (history & Hh).
      exists ((Call now :: repeat (Resume (length (passes s))) n) ++ history).
      rewrite run_app, Hh, Hn. done.
    + destruct (IH {| world := occur c (world s); passes := passes s |})
        as (history & Hh).
      exists (External c :: history). exact Hh.
Qed.

(** No pass started yet. *)
Definition started (w : World) : System := {| world := w; passes := [] |}.

(** What a pass will have done at its end, if nothing else runs while it
    waits. *)
Definition toEnd (t : thread) (w : World) : outcome unit * World :=
  match t with
  | Waiting rest => alone rest w
  | Ended o => (o, w)
  end.

Lemma advance_toEnd (t : Task unit) (w : World) :
  toEnd (advance t w).1 (advance t w).2 = alone t w.
Proof.
  rewrite (advance_alone t w). by destruct (advance t w) as [[rest|o] w'].
Qed.

Lemma resume_toEnd (i : nat) (s : System) (t : thread) :
  passes s !! i = Some t →
  ∃ t', passes (resume i s) = <[i := t']> (passes s)
        ∧ toEnd t' (world (resume i s)) = toEnd t (world s).
Proof.
  intros Hi. unfold resume. rewrite Hi. destruct t as [rest|o].
  - pose proof (advance_toEnd rest (world s)) as H.
    destruct (advance rest (world s)) as [t' w']. by exists t'.
  - exists (Ended o). split; [|done]. by rewrite list_insert_id.
Qed.

Lemma resumed_toEnd (svc : ReminderService) (i n : nat) (s : System) (t : thread) :
  passes s !! i = Some t →
  ∃ t', passes (run svc (repeat (Resume i) n) s) = <[i := t']> (passes s)
        ∧ toEnd t' (world (run svc (repeat (Resume i) n) s)) = toEnd t (world s).
Proof.
  revert s t. induction n as [|n IH]; intros s t Hi.
  - exists t. split; [|done]. cbn. by rewrite list_insert_id.
  - destruct (resume_toEnd i s t Hi) as (t1 & Hp & He).
    destruct (IH (resume i s) t1) as (t' & Hp' & He').
    { rewrite Hp. apply list_lookup_insert_eq. by eapply lookup_lt_Some. }
    exists t'.
    change (run svc (repeat (Resume i) (S n)) s)
      with (run svc (repeat (Resume i) n) (resume i s)).
    rewrite Hp', Hp, list_insert_insert_eq. split; [done|]. by rewrite He'.
Qed.

Lemma processReminders_toEnd (svc : ReminderService) (now : Z) (s : System) :
  ∃ t, passes (processReminders svc now s) = passes s ++ [t]
       ∧ toEnd t (world (processReminders svc now s)) = wholePass svc now (world s).
Proof.
  unfold processReminders, wholePass.
  destruct (data (resolve (createSelectQuery "reminders" "*") (db (world s))))
    as [rows|]; [|by eexists].
  pose proof (advance_toEnd (pass svc now rows) (world s)) as H.
  destruct (advance (pass svc now rows) (world s)) as [t w']. by exists t.
Qed.

(** A call of [processReminders] whose pass, resumed [n] times with nothing
    else in between, has ended: the pass has done what it does alone. *)
Lemma ended_pass_is_whole (svc : ReminderService) (now : Z) (s : System) (n : nat)
    (o : outcome unit) :
  let s' := run svc (repeat (Resume (length (passes s))) n)
                (processReminders svc now s) in
  passes s' = passes s ++ [Ended o] →
  wholePass svc now (world s) = (o, world s').
Proof.
  intros s' Hend. subst s'.
  destruct (processReminders_toEnd svc now s) as (t & Hp & He).
  destruct (resumed_toEnd svc (length (passes s)) n (processReminders svc now s) t)
    as (t' & Hp' & He').
  { rewrite Hp. by apply list_lookup_middle. }
  rewrite Hp', Hp, insert_app_r_alt, Nat.sub_diag in Hend by done.
  cbn in Hend. apply app_inv_head in Hend. injection Hend as ->.
  by rewrite <-He, <-He'.
Qed.

(** ** Histories in which the passes do not overlap *)

Definition allEnded (s : System) : bool := forallb finished (passes s).

(** [processReminders] is called, and the singletons change from outside,
    only when every pass started so far has ended; at the end of the history
    every pass has ended. *)
Fixpoint apart (svc : ReminderService) (history : list event) (s : System) : bool :=
  match history with
  | [] => allEnded s
  | Resume i :: rest => apart svc rest (resume i s)
  | e :: rest => allEnded s && apart svc rest (step svc e s)
  end.

(** The calls and the changes from outside of a history, in their order. *)
Definition stages (history : list event) : list stage :=
  omap (λ e, match e with
             | Call now => Some (Pass now)
             | Resume _ => None
             | External c => Some (Between c)
             end) history.

Lemma resume_ended (i : nat) (s : System) :
  allEnded s = true → resume i s = s.
Proof.
  intros Hall. unfold resume. destruct (passes s !! i) as [[rest|o]|] eqn:Hi; [|done..].
  unfold allEnded in Hall. rewrite forallb_forall in Hall.
  apply list_elem_of_lookup_2, list_elem_of_In, Hall in Hi. done.
Qed.

Lemma allEnded_snoc (s : System) (l : list thread) (t : thread) :
  passes s = l ++ [t] → allEnded s = forallb finished l && finished t.
Proof.
  intros Hp. unfold allEnded. rewrite Hp, forallb_app. cbn. by rewrite andb_true_r.
Qed.

(** Such a history changes the world as its passes do, each run alone from
    its call to its end. *)
Lemma apart_run (svc : ReminderService) (history : list event) (s : System) :
  apart svc history s = true →
  (allEnded s = true →
   world (run svc history s) = serial svc (stages history) (world s))
  ∧ (∀ l rest,
       passes s = l ++ [Waiting rest] →
       forallb finished l = true →
       world (run svc history s)
       = serial svc (stages history) (alone rest (world s)).2).
Proof.
  revert s. induction history as [|e history IH]; intros s Hap.
  - split; [done|]. intros l rest Hp Hl. cbn in Hap.
    rewrite (allEnded_snoc s l _ Hp), Hl in Hap. done.
  - destruct e as [now|i|c].
    + cbn [apart] in Hap. apply andb_prop in Hap as [Hall Hap].
      change (step svc (Call now) s) with (processReminders svc now s) in Hap.
      change (run svc (Call now :: history) s)
        with (run svc history (processReminders svc now s)).
      change (serial svc (stages (Call now :: history)) (world s))
        with (serial svc (stages history) (wholePass svc now (world s)).2).
      split.
      * intros _.
        destruct (processReminders_toEnd svc now s) as (t & Hp & He).
        destruct (IH _ Hap) as [IH1 IH2].
        rewrite <-He. destruct t as [rest|o].
        -- apply (IH2 (passes s) rest Hp Hall).
        -- apply IH1. rewrite (allEnded_snoc _ _ _ Hp). cbn [finished].
           rewrite andb_true_r. exact Hall.
      * intros l rest Hp Hl. rewrite (allEnded_snoc s l _ Hp), Hl in Hall. done.
    + cbn [apart] in Hap.
      change (run svc (Resume i :: history) s)
        with (run svc history (resume i s)).
      change (stages (Resume i :: history)) with (stages history).
      destruct (IH _ Hap) as [IH1 IH2]. split.
      * intros Hall. rewrite (resume_ended i s Hall) in *. by apply IH1.
      * intros l rest Hp Hl.
        destruct (decide (i = length l)) as [->|Hne].
        -- assert (passes s !! length l = Some (Waiting rest)) as Hi.
           { rewrite Hp. by apply list_lookup_middle. }
           destruct (resume_toEnd _ s _ Hi) as (t' & Hp' & He').
           rewrite Hp, insert_app_r_alt, Nat.sub_diag in Hp' by done.
           cbn in Hp', He'. rewrite <-He'. destruct t' as [rest'|o].
           ++ by apply (IH2 l rest').
           ++ apply IH1. rewrite (allEnded_snoc _ _ _ Hp'). by rewrite Hl.
        -- assert (resume i s = s) as Hsame.
           { unfold resume. rewrite Hp.
             destruct ((l ++ [Waiting rest]) !! i) as [[rest'|o]|] eqn:Hi; [|done..].
             apply lookup_app_Some in Hi as [Hi|[Hge Hi]].
             - rewrite forallb_forall in Hl.
               apply list_elem_of_lookup_2, list_elem_of_In, Hl in Hi. done.
             - apply list_lookup_singleton_Some in Hi as [Hi _]. lia. }
           rewrite Hsame in *. by apply (IH2 l rest).
    + cbn [apart] in Hap. apply andb_prop in Hap as [Hall Hap].
      change (run svc (External c :: history) s)
        with (run svc history (step svc (External c) s)).
      change (serial svc (stages (External c :: history)) (world s))
        with (serial svc (stages history) (occur c (world s))).
      split.
      * intros _. destruct (IH _ Hap) as [IH1 _]. by rewrite (IH1 Hall).
      * intros l rest Hp Hl. rewrite (allEnded_snoc s l _ Hp), Hl in Hall. done.
Qed.

Lemma apart_serial (svc : ReminderService) (history : list event) (w : World) :
  apart svc history (started w) = true →
  world (run svc history (started w)) = serial svc (stages history) w.
Proof. intros Hap. by apply (apart_run svc history (started w) Hap). Qed.

(** ** Scenarios *)

(** The service as constructed at instant 0, the gateway not yet
    connected: one reminder, [test.eth], expiring at day 7. *)
Definition world0 : World :=
  {| db := newDb 0; xmtp := newXmtp; processed := [] |}.

(** The same with the gateway connected. *)
Definition connected0 : World :=
  {| db := newDb 0; xmtp := connect newXmtp; processed := [] |}.

Definition day (n : Z) : Z := n * msPerDay.

(** The row of the seeded reminder, as far as a pass reads it. *)
Definition seeded : Row :=
  <["id" := VNum 1]>
  (<["domain" := VStr "test.eth"]>
  (<["wallet_address" := VStr "0xtest123"]>
  (<["expiry_date" := VStr (toISOString (day 7))]> ∅))).

Example seed_days_left :
  daysUntilExpiry (<["expiry_date" := VStr (toISOString (day 7))]> ∅) (day 0) = Some 7
  ∧ daysUntilExpiry (<["expiry_date" := VStr (toISOString (day 7))]> ∅) (day 0 + 1)
    = Some 7
  ∧ daysUntilExpiry (<["expiry_date" := VStr (toISOString (day 7))]> ∅) (day 7) = Some 0
  ∧ daysUntilExpiry (<["expiry_date" := VStr (toISOString (day 7))]> ∅) (day 7 + 1)
    = Some 0
  ∧ daysUntilExpiry (<["expiry_date" := VStr (toISOString (day 7))]> ∅) (day 12)
    = Some (-5)
  ∧ daysUntilExpiry (<["expiry_date" := VStr "soon"]> ∅) (day 12) = None.
Proof. vm_compute. repeat split; reflexivity. Qed.

(** What is in [sent_reminders]: the reminder and the tag of every record. *)
Definition recorded (w : World) : list (value * value) :=
  (λ r, (get r "reminder_id", get r "reminder_type"))
    <$> mapValues (sentReminders (db w)).

(** Expiry in seven days: one pass sends one message and stores one
    [day_7] record; a pass that starts after the first has ended adds
    nothing. *)
Example seven_day_scenario :
  let w1 := serial defaultService [Pass (day 0)] connected0 in
  let w2 := serial defaultService [Pass (day 0); Pass (day 0)] connected0 in
  (content <$> sentMessages (xmtp w1)) = [weekMessage "test.eth" 7]
  ∧ recorded w1 = [(VNum 1, VStr "day_7")]
  ∧ (content <$> sentMessages (xmtp w2)) = [weekMessage "test.eth" 7]
  ∧ recorded w2 = [(VNum 1, VStr "day_7")].
Proof. cbv zeta. repeat split; vm_compute; reflexivity. Qed.

(** ** No duplicate delivery *)

(** C1: the claim is right and the code breaks it.  [processReminders] is
    called, and called again while the pass started by the first call waits
    for the gateway's timer; both calls are made at instant 0, seven days
    before the seeded reminder expires, with the gateway connected.  When
    the second pass looks for the [day_7] record of the reminder, the first
    has sent its message and not yet stored the record: the second pass
    sends the message again, and when the timers have fired both store a
    record.  At the end both passes have returned, the gateway has sent two
    messages for the same reminder and interval, and [sent_reminders] holds
    two records for them. *)
Theorem overlapping_passes_record_twice :
  let opening := [Call (day 0); Resume 0] in
  let overlap := [Call (day 0); Resume 1] in
  let closing := repeat (Resume 0) 6 ++ repeat (Resume 1) 6 in
  let before := run defaultService opening (started connected0) in
  let midway := run defaultService (opening ++ overlap) (started connected0) in
  let after :=
    run defaultService (opening ++ overlap ++ closing) (started connected0) in
  (λ r, daysUntilExpiry r (day 0)) <$> mapValues (reminders (db connected0))
  = [Some 7]
  ∧ (finished <$> passes before) = [false]
  ∧ (content <$> sentMessages (xmtp (world before))) = [weekMessage "test.eth" 7]
  ∧ hasReminderBeenSent (VNum 1) (dayTag 7) (db (world before)) = false
  ∧ (finished <$> passes midway) = [false; false]
  ∧ (content <$> sentMessages (xmtp (world midway)))
    = [weekMessage "test.eth" 7; weekMessage "test.eth" 7]
  ∧ recorded (world midway) = []
  ∧ passes after = [Ended (Returned tt); Ended (Returned tt)]
  ∧ (content <$> sentMessages (xmtp (world after)))
    = [weekMessage "test.eth" 7; weekMessage "test.eth" 7]
  ∧ recorded (world after) = [(VNum 1, VStr "day_7"); (VNum 1, VStr "day_7")]
  ∧ sentCount (VNum 1) (dayTag 7) (mapValues (sentReminders (db (world after))))
    = 2%nat.
Proof. cbv zeta. repeat split; vm_compute; reflexivity. Qed.

(** Passes that do not overlap keep the promise: over any history in which
    every pass has ended before the next one starts, at whatever instants,
    with the gateway connecting or disconnecting and new reminders being
    stored in between, [sent_reminders] only grows, and the records inserted
    contain at most one for a reminder and a tag, and none when a record for
    the pair is already there. *)
Lemma serial_passes_record_once (svc : ReminderService) (es : list stage)
    (w : World) (id : value) (type : string) :
  sentFresh (db w) = true →
  ∃ inserted,
    sentReminders (db (serial svc es w)) = sentReminders (db w) ++ inserted
    ∧ (sentCount id type (mapValues inserted) ≤ 1)%nat
    ∧ (hasReminderBeenSent id type (db w) = true →
       sentCount id type (mapValues inserted) = 0%nat).
Proof.
  intros Hf.
  destruct (evolves_serial svc es w Hf) as (_ & snew & pnew & Hs & _ & Hc).
  exists snew. split; [done|]. apply Hc.
Qed.

(** The same of the system: a history in which [processReminders] is called
    only when the passes started before have ended inserts at most one
    record for a reminder and a tag, and none when one is there. *)
Lemma passes_apart_record_once (svc : ReminderService) (history : list event)
    (w : World) (id : value) (type : string) :
  sentFresh (db w) = true →
  apart svc history (started w) = true →
  ∃ inserted,
    sentReminders (db (world (run svc history (started w))))
    = sentReminders (db w) ++ inserted
    ∧ (sentCount id type (mapValues inserted) ≤ 1)%nat
    ∧ (hasReminderBeenSent id type (db w) = true →
       sentCount id type (mapValues inserted) = 0%nat).
Proof.
  intros Hf Hap. rewrite (apart_serial svc history w Hap).
  by apply serial_passes_record_once.
Qed.

(** Two calls, the second made when the first pass has ended: one message
    and one record. *)
Example passes_apart_scenario :
  let history :=
    [Call (day 0)] ++ repeat (Resume 0) 7 ++ [Call (day 0)] ++ repeat (Resume 1) 7 in
  let after := run defaultService history (started connected0) in
  apart defaultService history (started connected0) = true
  ∧ passes after = [Ended (Returned tt); Ended (Returned tt)]
  ∧ (content <$> sentMessages (xmtp (world after))) = [weekMessage "test.eth" 7]
  ∧ recorded (world after) = [(VNum 1, VStr "day_7")].
Proof. cbv zeta. repeat split; vm_compute; reflexivity. Qed.

(** ** The post-expiry notice *)

(** The post-expiry branch, entered: what it does when the record is found,
    and when it is not and the gateway accepts the message. *)
Lemma notifyExpired_cases (now : Z) (reminder : Row) (w : World) :
  sentFresh (db w) = true →
  let id := get reminder "id" in
  let text := expiredMessage (toString (get reminder "domain")) in
  (hasReminderBeenSent id gracePeriodType (db w) = true →
   alone (notifyExpired now reminder) w = (Returned tt, w))
  ∧ (hasReminderBeenSent id gracePeriodType (db w) = false →
     ∀ message x',
       sendMessage (get reminder "wallet_address") text now (xmtp w)
       = (inl message, x') →
       ∃ d',
         alone (notifyExpired now reminder) w
         = (Returned tt,
            {| db := d'; xmtp := x';
               processed := processed w ++ [mkDelivery id gracePeriodType true] |})
         ∧ sentReminders d'
           = sentReminders (db w)
             ++ [(nextSentReminders (nextId (db w)),
                  storedSent id gracePeriodType now (db w))]
         ∧ reminders d' = reminders (db w)
         ∧ hasReminderBeenSent id gracePeriodType d' = true
         ∧ sentMessages x' = sentMessages (xmtp w) ++ [message]
         ∧ content message = text
         ∧ get reminder "wallet_address" = VStr (recipient message)).
Proof.
  intros Hf id text. subst id text. split.
  - intros Hhas. by rewrite notifyExpired_unfold, Hhas.
  - intros Hhas message x' Hsend. rewrite notifyExpired_unfold, Hhas, Hsend.
    destruct (record_and_count (get reminder "id") gracePeriodType now true w x' Hf)
      as (d' & -> & Hs & Hr & _ & Hhas').
    apply sendMessage_accepts in Hsend as (Hm & Hc & Hto & _).
    exists d'. by split_and!.
Qed.







Definition owes (to domain : string) (d : Db) (reminder : Row) : bool :=
  bool_decide (get reminder "wallet_address" = VStr to)
  && bool_decide (toString (get reminder "domain") = domain)
  && negb (hasReminderBeenSent (get reminder "id") gracePeriodType d).


Definition owed (to domain : string) (rows : list Row) (d : Db) : nat :=
  length (List.filter (owes to domain d) rows).



Section Settles.
Variables (to domain : string) (rows : list Row).














End Settles.






(** Two passes after expiry, the second called when the first has ended. *)
Definition afterExpiry : list event :=
  Call (day 8) :: repeat (Resume 0) 7 ++ Call (day 12) :: repeat (Resume 1) 7.


(** Expiry yesterday, nothing sent before: the first pass sends the
    post-expiry notice and stores its record, the next pass sends nothing. *)
Example expired_scenario :
  let w1 := world (run defaultService (Call (day 8) :: repeat (Resume 0) 7)
                       (started connected0)) in
  let w2 := world (run defaultService afterExpiry (started connected0)) in
  owed "0xtest123" "test.eth" (mapValues (reminders (db connected0))) (db connected0)
  = 1%nat
  ∧ (content <$> sentMessages (xmtp w1)) = [expiredMessage "test.eth"]
  ∧ recorded w1 = [(VNum 1, VStr "day_1")]
  ∧ (content <$> sentMessages (xmtp w2)) = [expiredMessage "test.eth"]
  ∧ recorded w2 = [(VNum 1, VStr "day_1")].
Proof. cbv zeta. repeat split; vm_compute; reflexivity. Qed.

(** ** Thresholds *)

Lemma ceilDiv_unique (a b d : Z) :
  b * (d - 1) < a ≤ b * d → 0 < b → ceilDiv a b = d.
Proof.
  intros Ha Hb. unfold ceilDiv.
  assert ((- a) `div` b = - d) as ->; [|lia].
  symmetry. apply (Z.div_unique_pos _ _ _ (- a + b * d)); lia.
Qed.

(** What the notification of a due interval does, run alone: nothing when
    the record is found; when it is not, with XMTP enabled, one message and
    one record if the gateway accepts, and nothing if it refuses. *)
Lemma notifyInterval_cases (svc : ReminderService) (now : Z) (reminder : Row)
    (d interval : Z) (w : World) :
  sentFresh (db w) = true →
  enableXMTP svc = true →
  let id := get reminder "id" in
  let text := createReminderMessage (toString (get reminder "domain")) d in
  let notify := alone (notifyInterval svc now reminder d interval) in
  (hasReminderBeenSent id (dayTag interval) (db w) = true →
   notify w = (Returned tt, w))
  ∧ (hasReminderBeenSent id (dayTag interval) (db w) = false →
     match sendMessage (get reminder "wallet_address") text now (xmtp w) with
     | (inl message, x') =>
         ∃ d',
           notify w
           = (Returned tt,
              {| db := d'; xmtp := x';
                 processed := processed w ++ [mkDelivery id (dayTag interval) false] |})
           ∧ sentReminders d'
             = sentReminders (db w)
               ++ [(nextSentReminders (nextId (db w)),
                    storedSent id (dayTag interval) now (db w))]
           ∧ hasReminderBeenSent id (dayTag interval) d' = true
           ∧ sentMessages x' = sentMessages (xmtp w) ++ [message]
           ∧ content message = text
           ∧ get reminder "wallet_address" = VStr (recipient message)
     | (inr _, _) => notify w = (Returned tt, w)
     end).
Proof.
  intros Hf Hx id text notify. subst id text notify. split.
  - intros Hhas. by rewrite notifyInterval_unfold, Hhas.
  - intros Hhas. rewrite notifyInterval_unfold, Hhas, Hx. cbn zeta.
    destruct (sendMessage (get reminder "wallet_address") _ now (xmtp w))
      as [[message|e] x'] eqn:Hsend.
    + destruct (record_and_count (get reminder "id") (dayTag interval) now false
                  w x' Hf) as (d' & -> & Hs & _ & _ & Hhas').
      apply sendMessage_accepts in Hsend as (Hm & Hc & Hto & _).
      exists d'. by split_and!.
    + apply sendMessage_rejects in Hsend as ->. by rewrite world_eta.
Qed.

(** C3.  With the days left computed as the ceiling of
    [(expiry - now) / oneDay], a reminder row with exactly 30, 7 or 1 days
    left is due, under the default intervals, for the notification of that
    interval and for nothing else: when [sent_reminders] has no record of
    the row under the tag of that interval, the gateway is asked to send the
    text for that many days, and if it accepts, the message is in its log
    and exactly one record, under that tag, is stored; when the record is
    there, or the gateway refuses, nothing changes.  A row with 29, 8 or 2
    days left is due for nothing: processing it leaves the world as it is,
    whatever is recorded and whether or not the gateway is connected. *)
Theorem threshold_exactness (now : Z) (reminder : Row) (expiry d : Z) (w : World) :
  sentFresh (db w) = true →
  dateGetTime (get reminder "expiry_date") = Some expiry →
  msPerDay * (d - 1) < expiry - now ≤ msPerDay * d →
  let id := get reminder "id" in
  let text := createReminderMessage (toString (get reminder "domain")) d in
  let row := alone (processReminder defaultService now reminder) in
  daysUntilExpiry reminder now = Some d
  ∧ (d = 30 ∨ d = 7 ∨ d = 1 →
     (hasReminderBeenSent id (dayTag d) (db w) = true → row w = (Returned tt, w))
     ∧ (hasReminderBeenSent id (dayTag d) (db w) = false →
        match sendMessage (get reminder "wallet_address") text now (xmtp w) with
        | (inl message, x') =>
            ∃ d',
              row w
              = (Returned tt,
                 {| db := d'; xmtp := x';
                    processed := processed w ++ [mkDelivery id (dayTag d) false] |})
              ∧ sentReminders d'
                = sentReminders (db w)
                  ++ [(nextSentReminders (nextId (db w)),
                       storedSent id (dayTag d) now (db w))]
              ∧ sentMessages x' = sentMessages (xmtp w) ++ [message]
              ∧ content message = text
        | (inr _, _) => row w = (Returned tt, w)
        end))
  ∧ (d = 29 ∨ d = 8 ∨ d = 2 → row w = (Returned tt, w))
  ∧ dayTag 30 = "day_30" ∧ dayTag 7 = "day_7" ∧ dayTag 1 = "day_1"
  ∧ createReminderMessage (toString (get reminder "domain")) 30
    = monthMessage (toString (get reminder "domain")) 30
  ∧ createReminderMessage (toString (get reminder "domain")) 7
    = weekMessage (toString (get reminder "domain")) 7
  ∧ createReminderMessage (toString (get reminder "domain")) 1
    = tomorrowMessage (toString (get reminder "domain")).
Proof.
  intros Hf He Hd id text row.
  assert (daysUntilExpiry reminder now = Some d) as Hdays.
  { unfold daysUntilExpiry. rewrite He. cbn. f_equal.
    apply ceilDiv_unique; [done|]. unfold msPerDay. lia. }
  assert (d = 30 ∨ d = 7 ∨ d = 1 →
          row w = alone (notifyInterval defaultService now reminder d d) w)
    as Hdue.
  { subst row. rewrite alone_processReminder, Hdays.
    unfold processInterval, processExpired.
    intros [->|[->| ->]]; cbn; unfold mbind, M_bind;
      by destruct (alone (notifyInterval _ _ _ _ _) w) as [[[]|e] w']. }
  split_and!; try done.
  - intros Hd'. rewrite (Hdue Hd').
    destruct (notifyInterval_cases defaultService now reminder d d w Hf eq_refl)
      as [Hyes Hno].
    split; [exact Hyes|]. intros Hhas. specialize (Hno Hhas). subst text.
    destruct (sendMessage (get reminder "wallet_address") _ now (xmtp w))
      as [[message|e] x']; [|done].
    destruct Hno as (d' & H1 & H2 & _ & H3 & H4 & _). by exists d'.
  - subst row. rewrite alone_processReminder, Hdays.
    unfold processInterval, processExpired. by intros [->|[->| ->]].
Qed.

Lemma threshold_exactness_witness :
  sentFresh (db world0) = true
  ∧ dateGetTime (get seeded "expiry_date") = Some (day 7)
  ∧ msPerDay * (7 - 1) < day 7 - 1 ≤ msPerDay * 7
  ∧ daysUntilExpiry seeded 1 = Some 7.
Proof.
  assert (sentFresh (db world0) = true) as Hf by reflexivity.
  assert (dateGetTime (get seeded "expiry_date") = Some (day 7)) as He
    by (vm_compute; reflexivity).
  assert (msPerDay * (7 - 1) < day 7 - 1 ≤ msPerDay * 7) as Hd
    by (unfold day, msPerDay; lia).
  split; [exact Hf|]. split; [exact He|]. split; [exact Hd|].
  pose proof (threshold_exactness 1 seeded (day 7) 7 world0 Hf He Hd) as H.
  cbv zeta in H. exact (proj1 H).
Defined.

(** A week before expiry, and a day off: the pass sends the 7-day reminder
    and stores its record; with 8 days left it does nothing. *)
Example threshold_scenario :
  let due := serial defaultService [Pass (day 0)] connected0 in
  let off := serial defaultService [Pass (day 0 - 1)] connected0 in
  (λ r, (daysUntilExpiry r (day 0), daysUntilExpiry r (day 0 - 1)))
    <$> mapValues (reminders (db connected0))
  = [(Some 7, Some 8)]
  ∧ (content <$> sentMessages (xmtp due)) = [weekMessage "test.eth" 7]
  ∧ recorded due = [(VNum 1, VStr "day_7")]
  ∧ sentMessages (xmtp off) = []
  ∧ recorded off = [].
Proof. cbv zeta. repeat split; vm_compute; reflexivity. Qed.

(** ** Message tiers *)

(** C8.  The message is a function of the name and the days left, and its
    text is chosen by the boundaries alone: the expired text at 0 days or
    fewer, the due-tomorrow text at exactly 1, the within-a-week text from 2
    to 7, the within-a-month text from 8 to 30, and the later text above 30. *)
Theorem createReminderMessage_tiers (domain : string) (days : Z) :
  (days ≤ 0 → createReminderMessage domain days = expiredMessage domain)
  ∧ (days = 1 → createReminderMessage domain days = tomorrowMessage domain)
  ∧ (2 ≤ days ≤ 7 → createReminderMessage domain days = weekMessage domain days)
  ∧ (8 ≤ days ≤ 30 → createReminderMessage domain days = monthMessage domain days)
  ∧ (30 < days → createReminderMessage domain days = laterMessage domain days).
Proof.
  unfold createReminderMessage. split_and!; intros H.
  - by rewrite (proj2 (Z.leb_le _ _)) by lia.
  - by subst.
  - rewrite (proj2 (Z.leb_gt _ _)) by lia.
    rewrite (proj2 (Z.eqb_neq _ _)) by lia.
    by rewrite (proj2 (Z.leb_le _ _)) by lia.
  - rewrite (proj2 (Z.leb_gt _ _)) by lia.
    rewrite (proj2 (Z.eqb_neq _ _)) by lia.
    rewrite (proj2 (Z.leb_gt _ _)) by lia.
    by rewrite (proj2 (Z.leb_le _ _)) by lia.
  - rewrite (proj2 (Z.leb_gt _ _)) by lia.
    rewrite (proj2 (Z.eqb_neq _ _)) by lia.
    rewrite (proj2 (Z.leb_gt _ _)) by lia.
    by rewrite (proj2 (Z.leb_gt _ _)) by lia.
Qed.

Lemma createReminderMessage_tiers_witness :
  createReminderMessage "test.eth" (-5) = expiredMessage "test.eth"
  ∧ createReminderMessage "test.eth" 1 = tomorrowMessage "test.eth"
  ∧ createReminderMessage "test.eth" 7 = weekMessage "test.eth" 7
  ∧ createReminderMessage "test.eth" 8 = monthMessage "test.eth" 8
  ∧ createReminderMessage "test.eth" 31 = laterMessage "test.eth" 31.
Proof.
  split_and!.
  - apply (createReminderMessage_tiers "test.eth" (-5)). lia.
  - apply (createReminderMessage_tiers "test.eth" 1). reflexivity.
  - apply (createReminderMessage_tiers "test.eth" 7). lia.
  - apply (createReminderMessage_tiers "test.eth" 8). lia.
  - apply (createReminderMessage_tiers "test.eth" 31). lia.
Defined.

(** The five texts for one name are told apart by how they begin. *)
Lemma message_tiers_distinct (domain : string) (a b c : Z) :
  expiredMessage domain ≠ tomorrowMessage domain
  ∧ expiredMessage domain ≠ weekMessage domain a
  ∧ expiredMessage domain ≠ monthMessage domain b
  ∧ expiredMessage domain ≠ laterMessage domain c
  ∧ tomorrowMessage domain ≠ weekMessage domain a
  ∧ tomorrowMessage domain ≠ monthMessage domain b
  ∧ tomorrowMessage domain ≠ laterMessage domain c
  ∧ weekMessage domain a ≠ monthMessage domain b
  ∧ weekMessage domain a ≠ laterMessage domain c
  ∧ monthMessage domain b ≠ laterMessage domain c.
Proof.
  unfold expiredMessage, tomorrowMessage, weekMessage, monthMessage, laterMessage.
  split_and!; intros H; rewrite !append_cons in H; discriminate H.
Qed.

(** ** Check, send, record *)

(** C2, as stated, fails when the service is constructed with XMTP
    disabled: the seeded reminder is due for its 7-day interval, no record
    of it is stored and the gateway is connected, yet the pass stores the
    record without the gateway being invoked: nothing is sent. *)
Lemma disabled_delivery_skips_gateway :
  let svc := newReminderService {| cfgEnableXMTP := Some false;
                                   cfgEnableCron := None;
                                   cfgReminderIntervals := None |} in
  let s := run svc (repeat (Resume 0) 7)
               (processReminders svc (day 0) (started connected0)) in
  (λ r, daysUntilExpiry r (day 0)) <$> mapValues (reminders (db connected0))
  = [Some 7]
  ∧ isConnected (xmtp connected0) = true
  ∧ hasReminderBeenSent (VNum 1) (dayTag 7) (db connected0) = false
  ∧ passes s = [Ended (Returned tt)]
  ∧ hasReminderBeenSent (VNum 1) (dayTag 7) (db (world s)) = true
  ∧ recorded (world s) = [(VNum 1, VStr "day_7")]
  ∧ sentMessages (xmtp (world s)) = [].
Proof. cbv zeta. repeat split; vm_compute; reflexivity. Qed.

(** Every due interval of a row is dealt with by a pass that runs to its
    end, and so is the post-expiry notice of a row at or past its expiry:
    the pass deals with it in a world [w1] that it has reached, and goes on
    from the world [w2] that this leaves. *)
Lemma pass_deals_with_every_due_interval (svc : ReminderService) (now : Z)
    (w w' : World) (reminder : Row) :
  sentFresh (db w) = true →
  wholePass svc now w = (Returned tt, w') →
  reminder ∈ mapValues (reminders (db w)) →
  (∀ interval,
     interval ∈ reminderIntervals svc →
     daysUntilExpiry reminder now = Some interval →
     ∃ w1 w2,
       during w w1
       ∧ alone (notifyInterval svc now reminder interval interval) w1
         = (Returned tt, w2)
       ∧ during w2 w')
  ∧ (∀ d,
       daysUntilExpiry reminder now = Some d →
       d ≤ 0 →
       ∃ w1 w2,
         during w w1
         ∧ alone (notifyExpired now reminder) w1 = (Returned tt, w2)
         ∧ during w2 w').
Proof.
  intros Hf Hrun Hr. rewrite wholePass_unfold in Hrun.
  destruct (forEach_visits during during_refl during_trans during_fresh
              (λ r, alone (processReminder svc now r)) _ w w' reminder
              (λ r _, during_processReminder svc now r) Hf Hrun Hr)
    as (wa & wb & Hwa & Hrow & Hwb).
  pose proof (during_fresh _ _ Hwa) as Hfa.
  rewrite alone_processReminder in Hrow. unfold mbind, M_bind in Hrow.
  destruct (forEach _ (reminderIntervals svc) wa) as [[[]|e] wm] eqn:Hloop; [|done].
  assert (during wa wm) as Hwm.
  { pose proof (lifts_forEach during during_refl during_trans during_fresh
                  (λ i, alone (processInterval svc now reminder
                                 (daysUntilExpiry reminder now) i))
                  (reminderIntervals svc)
                  (λ i _, during_processInterval svc now reminder _ i) wa Hfa) as H.
    by rewrite Hloop in H. }
  pose proof (during_fresh _ _ Hwm) as Hfm.
  assert (during wm wb) as Hmb.
  { pose proof (during_processExpired now reminder (daysUntilExpiry reminder now)
                  wm Hfm) as H.
    by rewrite Hrow in H. }
  split.
  - intros interval Hi Hd.
    destruct (forEach_visits during during_refl during_trans during_fresh
                _ _ wa wm interval
                (λ i _, during_processInterval svc now reminder _ i) Hfa Hloop Hi)
      as (w1 & w2 & H1 & Hstep & H2).
    rewrite Hd in Hstep. unfold processInterval in Hstep.
    rewrite Z.eqb_refl in Hstep.
    exists w1, w2. split_and!; [by eapply during_trans|done|].
    eapply during_trans; [exact H2|]. by eapply during_trans.
  - intros d Hd Hle. rewrite Hd in Hrow. unfold processExpired in Hrow.
    rewrite (proj2 (Z.leb_le d 0) Hle) in Hrow.
    exists wm, wb. split_and!; [by eapply during_trans|done..].
Qed.

(** C2 (amended).  With XMTP delivery enabled, a due interval of a reminder
    row is dealt with as follows, in whatever world [w1] the pass has
    reached: the pass first looks in [sent_reminders] for the row's identity
    and the interval's tag.  If a record is found, nothing is sent and
    nothing changes.  If none is found, the gateway is asked to send the
    message: when it accepts, the message is in its log and one record for
    the pair is stored; when it refuses, the world is left as it was, the
    pair still unrecorded for the next pass.  The post-expiry notice of a
    row at or past its expiry is dealt with in the same way under the tag
    [day_1], when the record is there and when the gateway accepts.  When
    [processReminders] is called and the pass it starts, resumed with
    nothing else in between, has returned, the pass has dealt in this way
    with every due interval of every reminder row, and with the post-expiry
    notice of every row at or past its expiry: at its end each such interval
    has its record, unless the gateway refuses the message, and each such
    notice has its record. *)
Theorem check_send_record (svc : ReminderService) (now : Z) (reminder : Row) :
  enableXMTP svc = true →
  let id := get reminder "id" in
  let to := get reminder "wallet_address" in
  let domain := toString (get reminder "domain") in
  (∀ interval w1,
     sentFresh (db w1) = true →
     let text := createReminderMessage domain interval in
     let notify := alone (notifyInterval svc now reminder interval interval) in
     (hasReminderBeenSent id (dayTag interval) (db w1) = true →
      notify w1 = (Returned tt, w1))
     ∧ (hasReminderBeenSent id (dayTag interval) (db w1) = false →
        match sendMessage to text now (xmtp w1) with
        | (inl message, x') =>
            ∃ d',
              notify w1
              = (Returned tt,
                 {| db := d'; xmtp := x';
                    processed :=
                      processed w1 ++ [mkDelivery id (dayTag interval) false] |})
              ∧ sentReminders d'
                = sentReminders (db w1)
                  ++ [(nextSentReminders (nextId (db w1)),
                       storedSent id (dayTag interval) now (db w1))]
              ∧ hasReminderBeenSent id (dayTag interval) d' = true
              ∧ sentMessages x' = sentMessages (xmtp w1) ++ [message]
              ∧ content message = text
        | (inr _, _) => notify w1 = (Returned tt, w1)
        end))
  ∧ (∀ w1,
       sentFresh (db w1) = true →
       (hasReminderBeenSent id gracePeriodType (db w1) = true →
        alone (notifyExpired now reminder) w1 = (Returned tt, w1))
       ∧ (hasReminderBeenSent id gracePeriodType (db w1) = false →
          ∀ message x',
            sendMessage to (expiredMessage domain) now (xmtp w1) = (inl message, x') →
            ∃ d',
              alone (notifyExpired now reminder) w1
              = (Returned tt,
                 {| db := d'; xmtp := x';
                    processed :=
                      processed w1 ++ [mkDelivery id gracePeriodType true] |})
              ∧ sentReminders d'
                = sentReminders (db w1)
                  ++ [(nextSentReminders (nextId (db w1)),
                       storedSent id gracePeriodType now (db w1))]
              ∧ hasReminderBeenSent id gracePeriodType d' = true
              ∧ sentMessages x' = sentMessages (xmtp w1) ++ [message]
              ∧ content message = expiredMessage domain))
  ∧ (∀ s n,
       let w := world s in
       let s' := run svc (repeat (Resume (length (passes s))) n)
                     (processReminders svc now s) in
       let w' := world s' in
       sentFresh (db w) = true →
       passes s' = passes s ++ [Ended (Returned tt)] →
       reminder ∈ mapValues (reminders (db w)) →
       (∀ interval,
          interval ∈ reminderIntervals svc →
          daysUntilExpiry reminder now = Some interval →
          (∃ w1 w2,
             during w w1
             ∧ alone (notifyInterval svc now reminder interval interval) w1
               = (Returned tt, w2)
             ∧ during w2 w')
          ∧ (hasReminderBeenSent id (dayTag interval) (db w') = true
             ∨ ∃ e,
                 sendMessage to (createReminderMessage domain interval) now (xmtp w')
                 = (inr e, xmtp w')))
       ∧ (∀ d,
            daysUntilExpiry reminder now = Some d →
            d ≤ 0 →
            (∃ w1 w2,
               during w w1
               ∧ alone (notifyExpired now reminder) w1 = (Returned tt, w2)
               ∧ during w2 w')
            ∧ hasReminderBeenSent id gracePeriodType (db w') = true)).
Proof.
  intros Hx id to domain. subst id to domain. split_and!.
  - intros interval w1 Hf1 text notify. subst text notify.
    destruct (notifyInterval_cases svc now reminder interval interval w1 Hf1 Hx)
      as [Hyes Hno].
    split; [exact Hyes|]. intros Hhas. specialize (Hno Hhas).
    destruct (sendMessage (get reminder "wallet_address") _ now (xmtp w1))
      as [[message|e] x']; [|done].
    destruct Hno as (d' & H1 & H2 & H3 & H4 & H5 & _). by exists d'.
  - intros w1 Hf1.
    destruct (notifyExpired_cases now reminder w1 Hf1) as [Hyes Hno].
    split; [exact Hyes|]. intros Hhas message x' Hsend.
    destruct (Hno Hhas message x' Hsend) as (d' & H1 & H2 & _ & H3 & H4 & H5 & _).
    by exists d'.
  - intros s n w s' w' Hf Hend Hr.
    pose proof (ended_pass_is_whole svc now s n (Returned tt) Hend) as Hrun.
    destruct (pass_deals_with_every_due_interval svc now w w' reminder Hf Hrun Hr)
      as [Hdue Hexpired].
    split.
    + intros interval Hi Hd. destruct (Hdue interval Hi Hd) as (w1 & w2 & H1 & Hstep & H2).
      split; [by exists w1, w2|].
      pose proof (during_fresh _ _ H1) as Hf1.
      destruct (notifyInterval_cases svc now reminder interval interval w1 Hf1 Hx)
        as [Hyes Hno].
      destruct H2 as (Hev & _ & Hc & _).
      destruct (hasReminderBeenSent (get reminder "id") (dayTag interval) (db w1))
        eqn:Hhas.
      * specialize (Hyes eq_refl). rewrite Hyes in Hstep. simplify_eq.
        left. by eapply hasReminderBeenSent_evolves.
      * specialize (Hno eq_refl).
        destruct (sendMessage (get reminder "wallet_address") _ now (xmtp w1))
          as [[message|e] x'] eqn:Hsend.
        -- destruct Hno as (d' & Hn & _ & Hhas' & _).
           rewrite Hn in Hstep. simplify_eq. left.
           by apply (hasReminderBeenSent_evolves _ _ _ _ Hev).
        -- rewrite Hno in Hstep. simplify_eq. right. exists e.
           by eapply sendMessage_rejects_again.
    + intros d Hd Hle. destruct (Hexpired d Hd Hle) as (w1 & w2 & H1 & Hstep & H2).
      split; [by exists w1, w2|].
      pose proof (during_fresh _ _ H1) as Hf1.
      destruct (notifyExpired_cases now reminder w1 Hf1) as [Hyes Hno].
      destruct H2 as (Hev & _).
      destruct (hasReminderBeenSent (get reminder "id") gracePeriodType (db w1))
        eqn:Hhas.
      * specialize (Hyes eq_refl). rewrite Hyes in Hstep. simplify_eq.
        by eapply hasReminderBeenSent_evolves.
      * pose proof Hstep as Hstep'. rewrite notifyExpired_unfold, Hhas in Hstep'.
        destruct (sendMessage (get reminder "wallet_address") _ now (xmtp w1))
          as [[message|e] x'] eqn:Hsend; [|done]. clear Hstep'.
        destruct (Hno eq_refl message x' eq_refl) as (d' & Hn & _ & _ & Hhas' & _).
        rewrite Hn in Hstep. simplify_eq.
        by apply (hasReminderBeenSent_evolves _ _ _ _ Hev).
Qed.

Lemma check_send_record_witness :
  enableXMTP defaultService = true
  ∧ (hasReminderBeenSent (VNum 1) (dayTag 7) (db world0) = true →
     alone (notifyInterval defaultService (day 0) seeded 7 7) world0
     = (Returned tt, world0)).
Proof.
  assert (enableXMTP defaultService = true) as Hx by reflexivity.
  assert (sentFresh (db world0) = true) as Hf by reflexivity.
  split; [exact Hx|].
  pose proof (check_send_record defaultService (day 0) seeded Hx) as H.
  cbv zeta in H. destruct H as (H & _).
  exact (proj1 (H 7 world0 Hf)).
Defined.

(** Expiry in seven days, the gateway connected: the pass runs to its end
    and the 7-day interval of the seeded reminder has its record. *)
Example due_interval_scenario :
  let s := run defaultService (repeat (Resume 0) 7)
               (processReminders defaultService (day 0) (started connected0)) in
  passes s = [Ended (Returned tt)]
  ∧ hasReminderBeenSent (VNum 1) (dayTag 7) (db connected0) = false
  ∧ hasReminderBeenSent (VNum 1) (dayTag 7) (db (world s)) = true
  ∧ (content <$> sentMessages (xmtp (world s))) = [weekMessage "test.eth" 7].
Proof. cbv zeta. repeat split; vm_compute; reflexivity. Qed.

(** A send that fails leaves the interval to the next pass: with the
    gateway down nothing is stored, and the pass after it has connected
    delivers. *)
Example retry_scenario :
  let w1 := serial defaultService [Pass (day 0)] world0 in
  let w2 := serial defaultService [Pass (day 0); Between Connect; Pass (day 0)]
                   world0 in
  sentReminders (db w1) = []
  ∧ sentMessages (xmtp w1) = []
  ∧ recorded w2 = [(VNum 1, VStr "day_7")]
  ∧ (content <$> sentMessages (xmtp w2)) = [weekMessage "test.eth" 7].
Proof. cbv zeta. repeat split; vm_compute; reflexivity. Qed.

(** ** Delivery disabled *)

(** What holds of every element once a loop has returned. *)
Lemma forEach_returned {A : Type} (f : A → M unit) (P : A → World → Prop)
    (l : list A) (w w' : World) :
  (∀ x, preserves (f x)) →
  (∀ x w1 w2, evolves w1 w2 → P x w1 → P x w2) →
  (∀ x w1 w2, sentFresh (db w1) = true → f x w1 = (Returned tt, w2) → P x w2) →
  sentFresh (db w) = true →
  forEach f l w = (Returned tt, w') →
  ∀ x, x ∈ l → P x w'.
Proof.
  intros Hpres Hstable Hpost Hf Hrun x Hx.
  destruct (forEach_visits evolves evolves_refl evolves_trans evolves_fresh
              f l w w' x (λ y _, Hpres y) Hf Hrun Hx)
    as (w1 & w2 & H1 & Hstep & H2).
  apply (Hstable x w2 w' H2). apply (Hpost x w1 w2); [|done].
  by eapply evolves_fresh.
Qed.

Lemma notifyInterval_disabled (svc : ReminderService) (now : Z) (reminder : Row)
    (d interval : Z) (w : World) :
  enableXMTP svc = false →
  sentFresh (db w) = true →
  ∃ w',
    alone (notifyInterval svc now reminder d interval) w = (Returned tt, w')
    ∧ xmtp w' = xmtp w
    ∧ hasReminderBeenSent (get reminder "id") (dayTag interval) (db w') = true.
Proof.
  intros Hx Hf. rewrite notifyInterval_unfold, Hx.
  destruct (hasReminderBeenSent _ _ (db w)) eqn:Hhas; [by exists w|].
  cbn zeta.
  destruct (record_and_count (get reminder "id") (dayTag interval) now false
              w (xmtp w) Hf) as (d' & Hrun & _ & _ & _ & Hhas').
  rewrite world_eta in Hrun. rewrite Hrun. by eexists.
Qed.

Lemma forEach_quiet {A : Type} (f : A → M unit) (l : list A) (w : World) :
  (∀ x, preserves (f x)) →
  (∀ x w1, x ∈ l → sentFresh (db w1) = true →
           ∃ w2, f x w1 = (Returned tt, w2) ∧ xmtp w2 = xmtp w1) →
  sentFresh (db w) = true →
  ∃ w', forEach f l w = (Returned tt, w') ∧ xmtp w' = xmtp w.
Proof.
  intros Hpres. revert w. induction l as [|y l IH]; intros w Hq Hf.
  - by exists w.
  - cbn [forEach]. unfold mbind, M_bind.
    destruct (Hq y w ltac:(by left) Hf) as (w1 & Hy & Hx1).
    pose proof (Hpres y w Hf) as Hev. rewrite Hy in *. cbn in Hev.
    destruct (IH w1) as (w' & Hrun & Hx').
    + intros x w2 Hx. apply Hq. by right.
    + by eapply evolves_fresh.
    + exists w'. split; [done|congruence].
Qed.

(** The service with XMTP delivery disabled, and a second reminder that
    expires a week after the seeded one. *)
Definition disabledService : ReminderService :=
  newReminderService {| cfgEnableXMTP := Some false; cfgEnableCron := None;
                        cfgReminderIntervals := None |}.

Definition second : Row :=
  <["domain" := VStr "second.eth"]>
  (<["wallet_address" := VStr "0xuser"]>
  (<["expiry_date" := VStr (toISOString (day 14))]>
  (<["reminders_sent" := VStr "[]"]> ∅))).

(** C10: the claim is right and the code breaks it.  The service is
    constructed with XMTP disabled, so that the gateway is never connected,
    and tracks two reminders; [processReminders] is called on the day the
    first one expires, which is the day the second one has exactly 7 days
    left.  The post-expiry branch of the first row calls the gateway itself,
    past the switch and the [try] of [sendReminder]: the gateway throws, the
    exception ends the pass, and the second row, whose 7-day interval is
    due, gets no record. *)
Theorem disabled_pass_stops_at_expired_row :
  let w := occur (Track second (day 0)) world0 in
  let s := run disabledService [Call (day 7); Resume 0; Resume 0] (started w) in
  enableXMTP disabledService = false
  ∧ (λ r, get r "id") <$> mapValues (reminders (db w)) = [VNum 1; VNum 2]
  ∧ (λ r, daysUntilExpiry r (day 7)) <$> mapValues (reminders (db w))
    = [Some 0; Some 7]
  ∧ reminderIntervals disabledService = [30; 7; 1]
  ∧ passes s = [Ended (Threw NotConnected)]
  ∧ wholePass disabledService (day 7) w = (Threw NotConnected, w)
  ∧ hasReminderBeenSent (VNum 2) (dayTag 7) (db (world s)) = false
  ∧ recorded (world s) = [].
Proof.
  cbv zeta. split_and!; vm_compute; reflexivity.
Qed.

(** What the switch does by design: when the service is constructed with
    XMTP delivery disabled, [sendReminder] returns success and leaves the
    world, gateway included, as it is.  A pass that runs to its end has then
    stored a record for every reminder row and configured interval with
    exactly that many days left, whether or not anything was sent; and when
    no reminder row has 0 days left or fewer, the pass does run to its end
    and the gateway is never touched. *)
Lemma disabled_delivery_records_unsent (svc : ReminderService) (now : Z)
    (w : World) :
  enableXMTP svc = false →
  sentFresh (db w) = true →
  (∀ to domain d, alone (sendReminder svc to domain d now) w = (Returned true, w))
  ∧ (∀ w', wholePass svc now w = (Returned tt, w') →
           ∀ reminder interval,
             reminder ∈ mapValues (reminders (db w)) →
             interval ∈ reminderIntervals svc →
             daysUntilExpiry reminder now = Some interval →
             hasReminderBeenSent (get reminder "id") (dayTag interval) (db w')
             = true)
  ∧ ((∀ reminder d,
        reminder ∈ mapValues (reminders (db w)) →
        daysUntilExpiry reminder now = Some d → 0 < d) →
     ∃ w', wholePass svc now w = (Returned tt, w')
           ∧ xmtp w' = xmtp w).
Proof.
  intros Hx Hf. split_and!.
  - intros to domain d. by rewrite alone_sendReminder, Hx.
  - intros w' Hrun reminder interval Hr Hi Hd.
    rewrite wholePass_unfold in Hrun.
    refine (forEach_returned (λ r, alone (processReminder svc now r))
              (λ r w1, ∀ i, i ∈ reminderIntervals svc →
                            daysUntilExpiry r now = Some i →
                            hasReminderBeenSent (get r "id") (dayTag i) (db w1) = true)
              _ w w' _ _ _ Hf Hrun reminder Hr interval Hi Hd).
    + apply preserves_processReminder.
    + intros r w1 w2 Hev H i Hi' Hd'. eapply hasReminderBeenSent_evolves; eauto.
    + intros r w1 w2 Hf1 Hr1 i Hi' Hd'.
      rewrite alone_processReminder in Hr1. unfold mbind, M_bind in Hr1.
      destruct (forEach _ (reminderIntervals svc) w1) as [[[]|e] wm] eqn:Hin; [|done].
      assert (evolves w1 wm) as Hev1.
      { eapply preserves_result; [|done|exact Hin].
        apply preserves_forEach. intros x. apply preserves_processInterval. }
      assert (evolves wm w2) as Hev.
      { eapply preserves_result; [|by eapply evolves_fresh|exact Hr1].
        apply preserves_processExpired. }
      eapply hasReminderBeenSent_evolves; [exact Hev|].
      refine (forEach_returned
                (λ i, alone (processInterval svc now r (daysUntilExpiry r now) i))
                (λ i w3, daysUntilExpiry r now = Some i →
                         hasReminderBeenSent (get r "id") (dayTag i) (db w3) = true)
                _ w1 wm _ _ _ Hf1 Hin i Hi' Hd').
      * intros x. apply preserves_processInterval.
      * intros x wa wb Hev' H Hdx. eapply hasReminderBeenSent_evolves; eauto.
      * intros x wa wb Hfa Hx' Hdx. unfold processInterval in Hx'.
        rewrite Hdx, Z.eqb_refl in Hx'.
        destruct (notifyInterval_disabled svc now r x x wa Hx Hfa)
          as (wc & Hn & _ & Hhas).
        rewrite Hn in Hx'. by simplify_eq.
  - intros Hpos. rewrite wholePass_unfold.
    apply forEach_quiet; [apply preserves_processReminder| |done].
    intros r w1 Hr Hf1. rewrite alone_processReminder. unfold mbind, M_bind.
    destruct (forEach_quiet
                (λ i, alone (processInterval svc now r (daysUntilExpiry r now) i))
                (reminderIntervals svc) w1) as (wm & -> & Hxm); [| |done|].
    + intros x. apply preserves_processInterval.
    + intros x wa _ Hfa. unfold processInterval.
      destruct (daysUntilExpiry r now) as [d|]; [|by exists wa].
      destruct (d =? x); [|by exists wa].
      destruct (notifyInterval_disabled svc now r d x wa Hx Hfa)
        as (wc & Hn & Hxc & _). by exists wc.
    + unfold processExpired.
      destruct (daysUntilExpiry r now) as [d|] eqn:Hd; [|by exists wm].
      specialize (Hpos r d Hr Hd).
      rewrite (proj2 (Z.leb_gt d 0)) by lia. by exists wm.
Qed.

End EngineFacts.

(* ===================================================================== *)
(** * The scheduler *)
(* ===================================================================== *)

Module CronFacts.
Import MockCron.






(** ** Each operation keeps the guard *)









(** ** A running job is passed over *)



(** One job, scheduled daily at instant 0. *)
Definition oneJob : Cron := (scheduleJob "reminder-job" "0 9 * * *" 0 newCron).2.




(** Two overlapping triggers call the callback once; a callback that
    throws leaves the job idle with its next run set, and the next trigger
    runs it again. *)
Example overlapping_triggers_scenario :
  let c1 := run [TriggerJob "reminder-job" 1000; TriggerJob "reminder-job" 1001] oneJob in
  let c2 := run [Settles 0 (Rejected "Test error") 2000] c1 in
  let c3 := run [TriggerJob "reminder-job" 3000] c2 in
  ((λ j, (runCount j, isRunning j, nextRun j)) <$> heap c1 !! 0%nat)
  = Some (1, true, Some 10000)
  ∧ inFlight c1 = [0%nat]
  ∧ ((λ j, (runCount j, isRunning j, nextRun j)) <$> heap c2 !! 0%nat)
    = Some (1, false, Some 12000)
  ∧ inFlight c2 = []
  ∧ ((λ j, (runCount j, isRunning j, nextRun j)) <$> heap c3 !! 0%nat)
    = Some (2, true, Some 12000).
Proof. cbv zeta. repeat split; vm_compute; reflexivity. Qed.

End CronFacts.

(* ===================================================================== *)
(** * More about the record store *)
(* ===================================================================== *)

Module StoreExtras.
Import StringFacts StoreFacts.

(** ** Delete *)

Lemma deleteRows_one (column : string) (v : value) (rows : Table) :
  deleteRows [(column, v)] rows
  = List.filter (λ e, negb (strictEq (get e.2 column) v)) rows.
Proof.
  unfold deleteRows. apply filter_ext_bool. intros e.
  by rewrite matchesFilters_one.
Qed.

Lemma filter_none {A : Type} (f g : A → bool) (l : list A) :
  (∀ x, g x = true → f x = false) → List.filter f (List.filter g l) = [].
Proof.
  intros H. induction l as [|x l IH]; [done|]. cbn.
  destruct (g x) eqn:E; [|done]. cbn. by rewrite (H x E).
Qed.

(** [delete(table)] filtered by equality removes the rows whose column
    strictly equals the value and no other, keeps the remaining rows in
    their order, returns the number of rows removed, and leaves the other
    tables and the counters alone; a select with the same filter then
    finds nothing. *)
Theorem delete_removes_matching (db : Db) (table : string) (rows : Table)
    (column : string) (v : value) :
  tableOf db table = Some rows →
  let result := (deleteEq table column v db).1 in
  let db' := (deleteEq table column v db).2 in
  let rows' := List.filter (λ e, negb (strictEq (get e.2 column) v)) rows in
  tableOf db' table = Some rows'
  ∧ (∀ k r, (k, r) ∈ rows' ↔ (k, r) ∈ rows ∧ get r column ≠ v)
  ∧ result
    = mkResult
        (Some (Z.of_nat (length (List.filter
                                   (λ e, strictEq (get e.2 column) v) rows))))
        None
  ∧ (length rows' + length (List.filter (λ e, strictEq (get e.2 column) v) rows)
     = length rows)%nat
  ∧ (∀ t, t ≠ table → tableOf db' t = tableOf db t)
  ∧ nextId db' = nextId db
  ∧ (plainColumn column = true →
     selectChain table [Pred Eq column v] db' = inl (mkResult (Some []) None)).
Proof.
  intros Ht result db' rows'. subst result db' rows'. unfold deleteEq.
  assert (countMatching [(column, v)] rows
          = Z.of_nat (length (List.filter (λ e, strictEq (get e.2 column) v) rows)))
    as Hcount.
  { unfold countMatching. do 2 f_equal. apply filter_ext_bool.
    intros e. apply matchesFilters_one. }
  assert (tableOf (executeDelete table [(column, v)] db).2 table
          = Some (List.filter (λ e, negb (strictEq (get e.2 column) v)) rows)) as Ht'.
  { destruct (tableOf_known _ _ _ Ht) as [->|[->| ->]];
      cbn in Ht; simplify_eq; cbn; by rewrite deleteRows_one. }
  split_and!.
  - exact Ht'.
  - intros k r. rewrite !list_elem_of_In, filter_In. cbn.
    rewrite negb_true_iff. split; intros [H1 H2]; (split; [done|]).
    + intros Heq. by rewrite (proj2 (strictEq_true _ _) Heq) in H2.
    + by apply strictEq_false.
  - destruct (tableOf_known _ _ _ Ht) as [->|[->| ->]];
      cbn in Ht; simplify_eq; cbn; by rewrite Hcount.
  - clear. induction rows as [|e rows IH]; [done|]. cbn.
    destruct (strictEq (get e.2 column) v); cbn; lia.
  - intros t Hne.
    destruct (tableOf_known _ _ _ Ht) as [->|[->| ->]];
      by eapply (tableOf_other _ _ _ t Hne).
  - destruct (tableOf_known _ _ _ Ht) as [->|[->| ->]]; done.
  - intros Hc. rewrite (select_one _ _ _ Eq column v Ht' Hc). do 3 f_equal.
    unfold mapValues. cbn [holds]. clear.
    induction rows as [|e rows IH]; [done|]. cbn.
    destruct (strictEq (get e.2 column) v) eqn:E; cbn; [done|]. by rewrite E.
Qed.

Lemma delete_removes_matching_witness :
  tableOf threeConversations "conversations"
  = Some (conversations threeConversations)
  ∧ (deleteEq "conversations" "wallet_address" (VStr "0xa") threeConversations).1
    = mkResult (Some 2) None.
Proof.
  assert (tableOf threeConversations "conversations"
          = Some (conversations threeConversations)) as Ht by reflexivity.
  split; [exact Ht|].
  pose proof (delete_removes_matching threeConversations "conversations" _
                "wallet_address" (VStr "0xa") Ht) as H.
  cbv zeta in H. destruct H as (_ & _ & H & _). exact H.
Defined.

(** ** Insert, then select *)

Lemma mapSet_values {K V : Type} `{EqDecision K} (k : K) (v : V) (m : list (K * V)) :
  v ∈ mapValues (mapSet k v m).
Proof.
  unfold mapValues, mapSet. destruct (mapHas k m) eqn:Hhas.
  - unfold mapHas in Hhas. apply existsb_exists in Hhas as ([k' v'] & Hin & Hk).
    cbn in Hk. apply bool_decide_eq_true in Hk as ->.
    apply list_elem_of_fmap. exists (k, v). split; [done|].
    apply list_elem_of_fmap. exists (k, v'). cbn.
    rewrite bool_decide_eq_true_2 by done. split; [done|].
    by apply list_elem_of_In.
  - rewrite fmap_app. apply elem_of_app. right. cbn. by left.
Qed.

(** A row inserted into a known table is found again by selecting on the
    identity it was given: the stored row is among the rows the query
    [select().eq('id', id)] resolves to. *)
Theorem insert_then_select (db : Db) (table : string) (record : Row) (now : Z) :
  knownTable table = true →
  ∃ id stored found,
    (insert table (One record) now db).1 = mkResult (Some stored) None
    ∧ get stored "id" = VNum id
    ∧ selectChain table [Pred Eq "id" (VNum id)]
        (insert table (One record) now db).2
      = inl (mkResult (Some found) None)
    ∧ stored ∈ found.
Proof.
  intros Hk.
  destruct (insert_one db table record now Hk)
    as (id & stored & rows' & _ & Hres & Hid & Ht & Hget & _).
  exists id, stored,
    (List.filter (λ r, holds Eq (get r "id") (VNum id)) (mapValues rows')).
  split_and!; [done|done|..].
  - by apply (select_one _ _ _ Eq "id" (VNum id) Ht).
  - apply list_elem_of_In, filter_In. split.
    + apply list_elem_of_In.
      destruct (knownTable_cases _ Hk) as [->|[->| ->]];
        cbn in Ht, Hres; simplify_eq; apply mapSet_values.
    + cbn. rewrite Hid. apply strictEq_refl.
Qed.

Lemma insert_then_select_witness :
  knownTable "conversations" = true
  ∧ ∃ id stored found,
      (insert "conversations" (One {["wallet_address" := VStr "0xc"]}) 5
              threeConversations).1
      = mkResult (Some stored) None
      ∧ get stored "id" = VNum id
      ∧ selectChain "conversations" [Pred Eq "id" (VNum id)]
          (insert "conversations" (One {["wallet_address" := VStr "0xc"]}) 5
                  threeConversations).2
        = inl (mkResult (Some found) None)
      ∧ stored ∈ found.
Proof.
  assert (knownTable "conversations" = true) as Hk by reflexivity.
  split; [exact Hk|].
  exact (insert_then_select threeConversations "conversations"
           {["wallet_address" := VStr "0xc"]} 5 Hk).
Defined.

(** ** Identities are unique *)









(** ** Unknown tables *)

(** For a table name the store does not know, a select and an insert
    return the [Unknown table] error as a result, while an update and a
    delete report success with a count of 0; none of the four changes the
    store. *)
Theorem unknown_table (db : Db) (table : string) (columns : string)
    (filters : Filters) (d : InsertData) (patch : Row) (column : string)
    (v : value) (now : Z) :
  knownTable table = false →
  executeSelect table columns filters db
  = mkResult None (Some (UnknownTable table))
  ∧ insert table d now db = (mkResult None (Some (UnknownTable table)), db)
  ∧ updateEq table patch column v now db = (mkResult (Some 0) None, db)
  ∧ deleteEq table column v db = (mkResult (Some 0) None, db).
Proof.
  unfold knownTable. intros Hk.
  apply orb_false_elim in Hk as [Hk H3]. apply orb_false_elim in Hk as [H1 H2].
  unfold executeSelect, tableOf, insert, executeInsert, updateEq, executeUpdate,
    deleteEq, executeDelete.
  by rewrite H1, H2, H3.
Qed.

Lemma unknown_table_witness :
  knownTable "domains" = false
  ∧ updateEq "domains" ∅ "id" (VNum 1) 5 threeConversations
    = (mkResult (Some 0) None, threeConversations).
Proof.
  assert (knownTable "domains" = false) as Hk by reflexivity.
  split; [exact Hk|].
  exact (proj1 (proj2 (proj2 (unknown_table threeConversations "domains" "*" []
                                (One ∅) ∅ "id" (VNum 1) 5 Hk)))).
Defined.

(** ** Arrays given to insert *)

(** Of an array given to [insert], only the first element is inserted.  An
    empty array leaves nothing to insert: in [reminders] and
    [conversations] the attempt fails inside the store and is returned as an
    error, nothing is stored, and the identity that was taken for the row is
    not given out again; in [sent_reminders] a row holding nothing but its
    identity is stored. *)
Theorem insert_array (db : Db) (table : string) (record : Row)
    (records : list Row) (now : Z) :
  insert table (Many (record :: records)) now db = insert table (One record) now db
  ∧ (table = "reminders" ∨ table = "conversations" →
     ∃ id,
       nextIdOf db table = Some id
       ∧ (insert table (Many []) now db).1
         = mkResult None (Some (Caught "TypeError"))
       ∧ tableOf (insert table (Many []) now db).2 table = tableOf db table
       ∧ nextIdOf (insert table (Many []) now db).2 table = Some (id + 1))
  ∧ (table = "sent_reminders" →
     (insert table (Many []) now db).1
     = mkResult (Some {["id" := VNum (nextSentReminders (nextId db))]}) None).
Proof.
  split_and!.
  - done.
  - intros [-> | ->]; eexists; split_and!; reflexivity.
  - by intros ->.
Qed.

Lemma insert_array_witness :
  (insert "reminders" (Many []) 5 (newDb 0)).1
  = mkResult None (Some (Caught "TypeError"))
  ∧ nextIdOf (insert "reminders" (Many []) 5 (newDb 0)).2 "reminders" = Some 3.
Proof.
  destruct (proj1 (proj2 (insert_array (newDb 0) "reminders" ∅ [] 5)) (or_introl eq_refl))
    as (id & H1 & H2 & _ & H4).
  split; [exact H2|].
  assert (id = 2) as -> by (cbn in H1; congruence).
  exact H4.
Defined.

(** ** Columns named like a key *)

(** The operator of a filter is read back from the end of its key, so an
    equality filter on a column whose name is a plain column name followed
    by [_neq], [_lt], [_lte], [_gt] or [_gte] does not compare that column
    for equality: it applies the comparison named by the ending to the
    column named by the rest. *)
Theorem suffix_named_column (db : Db) (table : string) (rows : Table)
    (p : predicate) (column : string) (v : value) :
  tableOf db table = Some rows →
  plainColumn column = true →
  selectChain table [Pred Eq (filterKey p column) v] db
  = inl (mkResult
           (Some (List.filter (λ r, holds p (get r column) v) (mapValues rows)))
           None).
Proof.
  intros Ht Hc. rewrite <-(select_one db table rows p column v Ht Hc).
  by destruct p.
Qed.

(** Rows with a column [score_lt]: an equality filter on it finds the row
    whose [score] is below the value, not the row whose [score_lt] equals it. *)
Definition scored : Db :=
  {| reminders := [];
     sentReminders := [];
     conversations :=
       [(1, <["score" := VNum 1]> (<["score_lt" := VNum 5]> ∅));
        (2, <["score" := VNum 9]> (<["score_lt" := VNum 3]> ∅))];
     nextId := {| nextReminders := 1; nextSentReminders := 1;
                  nextConversations := 3 |} |}.

Lemma suffix_named_column_witness :
  tableOf scored "conversations" = Some (conversations scored)
  ∧ plainColumn "score" = true
  ∧ match selectChain "conversations" [Pred Eq "score_lt" (VNum 3)] scored with
    | inl result =>
        option_map (List.map (λ r : Row, get r "score_lt")) (data result)
    | inr _ => None
    end
    = Some [VNum 5].
Proof.
  assert (tableOf scored "conversations" = Some (conversations scored)) as Ht
    by reflexivity.
  assert (plainColumn "score" = true) as Hc by reflexivity.
  split; [exact Ht|]. split; [exact Hc|].
  pose proof (suffix_named_column scored "conversations" _ Lt "score" (VNum 3) Ht Hc)
    as H.
  change (filterKey Lt "score") with "score_lt" in H. rewrite H.
  vm_compute. reflexivity.
Defined.

End StoreExtras.

(* ===================================================================== *)
(** * More about the gateway *)
(* ===================================================================== *)

Module XmtpExtras.

(** ** The rest of the service, as far as it reads the log of sent messages *)

(** [c.toLowerCase()] on the letters A to Z; wallet addresses are made of
    ASCII characters, on which this is all [toLowerCase] does. *)
Definition lowerChar (c : ascii) : ascii :=
  let n := nat_of_ascii c in
  if ((65 <=? n) && (n <=? 90))%nat then ascii_of_nat (n + 32) else c.

Fixpoint toLowerCase (s : string) : string :=
  match s with
  | EmptyString => EmptyString
  | String c s' => String (lowerChar c) (toLowerCase s')
  end.

(** [getConversationId(address1, address2)]: the two addresses in lower
    case, sorted, joined. *)
Definition getConversationId (address1 address2 : string) : string :=
  let a := toLowerCase address1 in
  let b := toLowerCase address2 in
  let addresses := if String.ltb b a then (b, a) else (a, b) in
  "conv_" +:+ addresses.1 +:+ "_" +:+ addresses.2.

(** [wasMessageSentTo(recipientAddress, contentSubstring?)]: a missing or
    empty substring asks for nothing. *)
Definition wasMessageSentTo (recipientAddress : string)
    (contentSubstring : option string) (x : Xmtp) : bool :=
  existsb
    (λ msg,
       String.eqb (toLowerCase (recipient msg)) (toLowerCase recipientAddress)
       && match contentSubstring with
          | None => true
          | Some sub => negb (truthy (VStr sub)) || includes (content msg) sub
          end)
    (sentMessages x).

(** [reset()]: the log is emptied, the connection is left as it is. *)
Definition resetXmtp (x : Xmtp) : Xmtp :=
  {| isConnected := isConnected x; sentMessages := [] |}.

Lemma lowerChar_idemp (c : ascii) : lowerChar (lowerChar c) = lowerChar c.
Proof. by destruct c as [[] [] [] [] [] [] [] []]. Qed.

Lemma toLowerCase_idemp (s : string) : toLowerCase (toLowerCase s) = toLowerCase s.
Proof.
  induction s as [|c s IH]; [done|]. cbn. by rewrite lowerChar_idemp, IH.
Qed.

Lemma ltb_cases (a b : string) :
  (String.ltb a b = true ∧ String.ltb b a = false)
  ∨ (String.ltb a b = false ∧ String.ltb b a = true)
  ∨ a = b.
Proof.
  unfold String.ltb. rewrite (String.compare_antisym a b).
  destruct (String.compare b a) eqn:E; cbn; auto.
  right. right. symmetry. by apply String.compare_eq_iff.
Qed.

(** The conversation key does not depend on the order of the two
    addresses nor on the case of their letters. *)
Theorem getConversationId_symmetric (a b a' b' : string) :
  getConversationId a b = getConversationId b a
  ∧ (toLowerCase a = toLowerCase a' → toLowerCase b = toLowerCase b' →
     getConversationId a b = getConversationId a' b').
Proof.
  split.
  - unfold getConversationId.
    destruct (ltb_cases (toLowerCase a) (toLowerCase b)) as [[-> ->]|[[-> ->]| ->]];
      [done|done|by destruct (String.ltb _ _)].
  - intros Ha Hb. unfold getConversationId. by rewrite Ha, Hb.
Qed.

Lemma getConversationId_symmetric_witness :
  toLowerCase "0xBOT123" = toLowerCase "0xbot123"
  ∧ toLowerCase "0xUser1" = toLowerCase "0xuser1"
  ∧ getConversationId "0xBOT123" "0xUser1" = getConversationId "0xbot123" "0xuser1"
  ∧ getConversationId "0xbot123" "0xuser1" = "conv_0xbot123_0xuser1".
Proof.
  assert (toLowerCase "0xBOT123" = toLowerCase "0xbot123") as Ha by reflexivity.
  assert (toLowerCase "0xUser1" = toLowerCase "0xuser1") as Hb by reflexivity.
  split; [exact Ha|]. split; [exact Hb|]. split; [|reflexivity].
  exact (proj2 (getConversationId_symmetric "0xBOT123" "0xUser1" "0xbot123" "0xuser1")
               Ha Hb).
Defined.

Lemma includes_middle (a sub b : string) : includes (a +:+ sub +:+ b) sub = true.
Proof. apply StringFacts.includes_spec. by exists a, b. Qed.

(** A message accepted by the gateway is found by [wasMessageSentTo] under
    its recipient, in whatever case the address is written, alone or with
    any part of its text; what has been found stays found as more messages
    are sent; a refused message leaves the log as it was; after a reset
    nothing is found. *)
Theorem wasMessageSentTo_after_send (to text : string) (now : Z) (x : Xmtp) :
  isConnected x = true →
  let x' := (sendMessage (VStr to) text now x).2 in
  (∀ to', toLowerCase to' = toLowerCase to →
          wasMessageSentTo to' None x' = true
          ∧ ∀ a sub b, text = a +:+ sub +:+ b →
                       wasMessageSentTo to' (Some sub) x' = true)
  ∧ (∀ r sub, wasMessageSentTo r sub x = true → wasMessageSentTo r sub x' = true)
  ∧ (∀ r sub, wasMessageSentTo r sub (resetXmtp x') = false)
  ∧ (∀ to' text' now',
       (sendMessage to' text' now' (disconnect x')).1 = inr NotConnected
       ∧ sentMessages (sendMessage to' text' now' (disconnect x')).2
         = sentMessages x').
Proof.
  intros Hc x'. subst x'. unfold sendMessage. rewrite Hc. cbn [negb snd].
  split_and!.
  - intros to' Hto. unfold wasMessageSentTo. cbn [sentMessages].
    split.
    + rewrite existsb_app. cbn. rewrite Hto, String.eqb_refl. cbn.
      by rewrite orb_true_r.
    + intros a sub b ->. rewrite existsb_app. cbn.
      rewrite Hto, String.eqb_refl, includes_middle. cbn.
      by rewrite !orb_true_r.
  - intros r sub H. unfold wasMessageSentTo in *. cbn [sentMessages].
    by rewrite existsb_app, H.
  - done.
  - done.
Qed.

Lemma wasMessageSentTo_after_send_witness :
  isConnected (connect newXmtp) = true
  ∧ wasMessageSentTo "0xUSER1" (Some "expires soon")
      (sendMessage (VStr "0xuser1") "Your domain expires soon!" 5 (connect newXmtp)).2
    = true.
Proof.
  assert (isConnected (connect newXmtp) = true) as Hc by reflexivity.
  split; [exact Hc|].
  pose proof (wasMessageSentTo_after_send "0xuser1" "Your domain expires soon!" 5
                (connect newXmtp) Hc) as H.
  cbv zeta in H. destruct H as (H & _).
  exact (proj2 (H "0xUSER1" eq_refl) "Your domain " "expires soon" "!" eq_refl).
Defined.

End XmtpExtras.

(* ===================================================================== *)
(** * More about the scheduler *)
(* ===================================================================== *)

Module CronExtras.
Import MockCron CronFacts.

(** ** One job under each name *)

Lemma mapKeys_mapSet {V : Type} (k : string) (v : V) (m : list (string * V)) :
  mapKeys (mapSet k v m)
  = if mapHas k m then mapKeys m else mapKeys m ++ [k].
Proof.
  unfold mapSet, mapKeys. destruct (mapHas k m) eqn:Hhas.
  - clear Hhas. induction m as [|[k' v'] m IH]; [done|]. cbn.
    rewrite IH. destruct (decide (k' = k)) as [->|Hne].
    + by rewrite bool_decide_eq_true_2.
    + by rewrite bool_decide_eq_false_2.
  - by rewrite fmap_app.
Qed.

Lemma mapHas_elem {V : Type} (k : string) (m : list (string * V)) :
  mapHas k m = true ↔ k ∈ mapKeys m.
Proof.
  unfold mapHas, mapKeys. induction m as [|[k' v'] m IH]; cbn.
  - split; [done|]. by intros ?%elem_of_nil.
  - rewrite orb_true_iff, IH, bool_decide_eq_true, elem_of_cons.
    split; intros [H|H]; auto.
Qed.

Lemma NoDup_mapSet {V : Type} (k : string) (v : V) (m : list (string * V)) :
  NoDup (mapKeys m) → NoDup (mapKeys (mapSet k v m)).
Proof.
  intros Hnd. rewrite mapKeys_mapSet. destruct (mapHas k m) eqn:Hhas; [done|].
  apply NoDup_app. split_and!; [done| |apply NoDup_singleton].
  intros k' Hk' [->|[]%elem_of_nil]%elem_of_cons.
  apply mapHas_elem in Hk'. congruence.
Qed.

Lemma NoDup_mapDelete {V : Type} (k : string) (m : list (string * V)) :
  NoDup (mapKeys m) → NoDup (mapKeys (mapDelete k m)).
Proof.
  unfold mapKeys, mapDelete. induction m as [|[k' v'] m IH]; [done|]. cbn.
  intros [Hk' Hnd]%NoDup_cons.
  destruct (negb (bool_decide (k' = k))); [|by apply IH]. cbn.
  apply NoDup_cons. split; [|by apply IH].
  intros Hin. apply Hk'.
  apply list_elem_of_fmap in Hin as ([k'' v''] & -> & Hin).
  apply list_elem_of_In, filter_In in Hin as [Hin _].
  apply list_elem_of_fmap. exists (k'', v''). split; [done|].
  by apply list_elem_of_In.
Qed.

Lemma mapGet_mapSet_ne {V : Type} (k k' : string) (v : V) (m : list (string * V)) :
  k ≠ k' → mapGet k' (mapSet k v m) = mapGet k' m.
Proof.
  intros Hne. unfold mapGet, mapSet. destruct (mapHas k m).
  - induction m as [|[k0 v0] m IH]; [done|].
    cbn [fmap list_fmap List.find fst].
    destruct (decide (k0 = k)) as [->|Hne0].
    + rewrite (bool_decide_eq_true_2 (k = k)) by done. cbn [fst].
      rewrite !(bool_decide_eq_false_2 (k = k')) by done. exact IH.
    + rewrite (bool_decide_eq_false_2 (k0 = k)) by done. cbn [fst].
      destruct (bool_decide (k0 = k')); [done|exact IH].
  - induction m as [|[k0 v0] m IH]; cbn [app List.find fst].
    + by rewrite bool_decide_eq_false_2.
    + destruct (bool_decide (k0 = k')); [done|exact IH].
Qed.

(** The names in the map are pairwise different, every job object of the
    map exists, and every job object has been counted consistently: its run
    count is never negative, it has a last run exactly when it has run, it
    has run when it is running, and it always has a next run. *)
Definition jobOk (job : CronJob) : Prop :=
  0 ≤ runCount job
  ∧ (lastRun job = None ↔ runCount job = 0)
  ∧ (isRunning job = true → 0 < runCount job)
  ∧ nextRun job ≠ None.

Definition cronOk (c : Cron) : Prop :=
  NoDup (mapKeys (jobs c))
  ∧ Forall (λ address, (address < length (heap c))%nat) (mapValues (jobs c))
  ∧ Forall jobOk (heap c).

Lemma cronOk_executeJob (address : nat) (now : Z) (c : Cron) :
  cronOk c → cronOk (executeJob address now c).
Proof.
  intros (H1 & H2 & H3). unfold executeJob.
  destruct (heap c !! address) as [job|] eqn:Hjob; [|done].
  destruct (isRunning job); [done|].
  unfold cronOk. cbn [heap jobs]. rewrite length_insert. split_and!; [done..|].
  apply Forall_insert; [done|].
  pose proof (Forall_lookup_1 _ _ _ _ H3 Hjob) as (Hc & Hl & Hr & Hn).
  unfold jobOk. cbn. split_and!; [lia| |lia|done].
  split; [done|lia].
Qed.

Lemma cronOk_foldl {A : Type} (g : Cron → A → Cron) (l : list A) (c : Cron) :
  (∀ c a, cronOk c → cronOk (g c a)) → cronOk c → cronOk (foldl g c l).
Proof.
  intros Hg. revert c. induction l as [|a l IH]; intros c Hc; cbn; [done|].
  apply IH. by apply Hg.
Qed.

Lemma Forall_values_mapSet (P : nat → Prop) (k : string) (v : nat)
    (m : list (string * nat)) :
  P v → Forall P (mapValues m) → Forall P (mapValues (mapSet k v m)).
Proof.
  intros Hv Hm. unfold mapValues, mapSet. destruct (mapHas k m).
  - induction m as [|[k' v'] m IH]; [done|]. cbn in *.
    apply Forall_cons in Hm as [Hv' Hm].
    destruct (bool_decide (k' = k)); cbn; apply Forall_cons; auto.
  - rewrite fmap_app. apply Forall_app. split; [done|]. by apply Forall_singleton.
Qed.

Lemma Forall_values_mapDelete (P : nat → Prop) (k : string)
    (m : list (string * nat)) :
  Forall P (mapValues m) → Forall P (mapValues (mapDelete k m)).
Proof.
  unfold mapValues, mapDelete. induction m as [|[k' v'] m IH]; [done|]. cbn.
  intros [Hv' Hm]%Forall_cons.
  destruct (negb (bool_decide (k' = k))); cbn; [apply Forall_cons|]; auto.
Qed.

Lemma cronOk_step (e : event) (c : Cron) : cronOk c → cronOk (step e c).
Proof.
  intros Hc. pose proof Hc as (H1 & H2 & H3). destruct e; cbn [step].
  - unfold scheduleJob, cronOk. cbn [snd heap jobs]. split_and!.
    + by apply NoDup_mapSet.
    + rewrite length_app. cbn. apply Forall_values_mapSet; [lia|].
      eapply Forall_impl; [exact H2|]. intros. cbn in *. lia.
    + apply Forall_app. split; [done|]. apply Forall_singleton.
      unfold jobOk. cbn. split_and!; [lia|done|done|done].
  - done.
  - done.
  - unfold checkAndRunJobs. destruct (isActive c); cbn [negb]; [|done].
    apply cronOk_foldl; [|done]. intros c' a Hc'.
    destruct (heap c' !! a) as [job|]; [|done].
    destruct (nextRun job) as [next|]; [|done].
    destruct (negb (isRunning job) && (next <=? now)); [|done].
    by apply cronOk_executeJob.
  - unfold triggerJob. destruct (mapGet id (jobs c)) as [a|]; [|done].
    destruct (heap c !! a) as [job|]; [|done].
    destruct (isRunning job); [done|]. by apply cronOk_executeJob.
  - unfold triggerAllJobs. apply cronOk_foldl; [|done].
    intros c' a Hc'. by apply cronOk_executeJob.
  - unfold immediateTimer. destruct (mapHas id (jobs c)); [|done].
    by apply cronOk_executeJob.
  - unfold removeJob. destruct (mapHas id (jobs c)); [|done].
    unfold cronOk. cbn [snd heap jobs]. split_and!; [|..|done].
    + by apply NoDup_mapDelete.
    + by apply Forall_values_mapDelete.
  - unfold resetCron, cronOk. cbn. split_and!; [apply NoDup_nil_2|done|done].
  - unfold executeJobSettled.
    destruct (heap c !! address) as [job|] eqn:Hjob; [|done].
    destruct (bool_decide (address ∈ inFlight c)); [|done].
    unfold cronOk. cbn [snd heap jobs]. rewrite length_insert.
    split_and!; [done..|]. apply Forall_insert; [done|].
    pose proof (Forall_lookup_1 _ _ _ _ H3 Hjob) as (Hc' & Hl & Hr & Hn).
    unfold jobOk. cbn. by split_and!.
Qed.

(** Whatever happens to the scheduler from its construction on, a name
    stands for one job only, the job it stands for exists, and every job
    object, registered or replaced, has a run count that is not negative, a
    last run exactly when it has run, a next run always, and has run at
    least once when its flag is set. *)
Theorem scheduler_consistent (es : list event) :
  let c := run es newCron in
  NoDup (mapKeys (jobs c))
  ∧ (∀ id address, mapGet id (jobs c) = Some address →
                   ∃ job, heap c !! address = Some job ∧ jobOk job)
  ∧ (∀ address job, heap c !! address = Some job → jobOk job).
Proof.
  assert (∀ es c, cronOk c → cronOk (run es c)) as Hrun.
  { intros l. induction l as [|e l IH]; intros c Hc; cbn; [done|].
    apply IH. by apply cronOk_step. }
  destruct (Hrun es newCron) as (H1 & H2 & H3).
  { unfold cronOk. cbn. split_and!; [apply NoDup_nil_2|done|done]. }
  cbv zeta. split_and!; [done| |].
  - intros id address Hget.
    assert (address ∈ mapValues (jobs (run es newCron))) as Hin.
    { unfold mapGet in Hget.
      destruct (List.find _ _) as [[k v]|] eqn:Hfind; [|done].
      cbn in Hget. simplify_eq. apply find_some in Hfind as [Hin _].
      unfold mapValues. apply list_elem_of_fmap. exists (k, address).
      split; [done|]. by apply list_elem_of_In. }
    rewrite Forall_forall in H2. specialize (H2 _ Hin).
    destruct (lookup_lt_is_Some_2 _ _ H2) as [job Hjob].
    exists job. split; [done|]. by eapply Forall_lookup_1.
  - intros address job Hjob. by eapply Forall_lookup_1.
Qed.

(** ** Registering and removing *)

(** [schedule] registers a new job object under the name: idle, never
    run, due at the instant its expression gives; the job object registered
    there before, if any, is no longer reached by the name; every other
    name stands for what it stood for. *)
Theorem schedule_registers (id cronExpression : string) (now : Z) (c : Cron) :
  let address := (scheduleJob id cronExpression now c).1 in
  let c' := (scheduleJob id cronExpression now c).2 in
  address = length (heap c)
  ∧ mapGet id (jobs c') = Some address
  ∧ heap c' !! address
    = Some {| jobId := id; schedule := cronExpression; lastRun := None;
              nextRun := Some (calculateNextRun cronExpression now);
              isRunning := false; runCount := 0 |}
  ∧ now < calculateNextRun cronExpression now
  ∧ (∀ id', id' ≠ id → mapGet id' (jobs c') = mapGet id' (jobs c))
  ∧ (∀ a job, heap c !! a = Some job → heap c' !! a = Some job)
  ∧ inFlight c' = inFlight c.
Proof.
  cbv zeta. unfold scheduleJob. cbn [fst snd heap jobs inFlight]. split_and!.
  - done.
  - apply StoreFacts.mapGet_mapSet.
  - rewrite lookup_app_r by lia. by rewrite Nat.sub_diag.
  - unfold calculateNextRun.
    destruct (includes cronExpression "0 9 * * *"); [lia|].
    destruct (includes cronExpression "* * * * *"); lia.
  - intros id' Hne. by apply mapGet_mapSet_ne.
  - intros a job Hjob. by apply lookup_app_l_Some.
  - done.
Qed.

Lemma mapGet_mapDelete {V : Type} (k : string) (m : list (string * V)) :
  mapGet k (mapDelete k m) = None.
Proof.
  unfold mapGet, mapDelete. induction m as [|[k' v'] m IH]; [done|]. cbn.
  destruct (decide (k' = k)) as [->|Hne].
  - rewrite bool_decide_eq_true_2 by done. cbn. exact IH.
  - rewrite bool_decide_eq_false_2 by done. cbn.
    rewrite bool_decide_eq_false_2 by done. exact IH.
Qed.

Lemma mapGet_None_mapHas {V : Type} (k : string) (m : list (string * V)) :
  mapHas k m = false → mapGet k m = None.
Proof.
  unfold mapHas, mapGet. induction m as [|[k' v'] m IH]; [done|]. cbn.
  intros [H1 H2]%orb_false_elim. rewrite H1. by apply IH.
Qed.

(** [removeJob] answers whether the name was registered.  After it, the
    name is unknown: a manual trigger throws [Job not found] and changes
    nothing.  The job objects themselves are left alone, so an execution in
    flight on the removed job still completes and clears the flag. *)
Theorem removeJob_forgets (id : string) (now : Z) (c : Cron) :
  let c' := (removeJob id c).2 in
  (removeJob id c).1 = mapHas id (jobs c)
  ∧ triggerJob id now c' = (inr ("Job '" +:+ id +:+ "' not found"), c')
  ∧ heap c' = heap c
  ∧ inFlight c' = inFlight c
  ∧ (∀ address job result,
       heap c !! address = Some job →
       address ∈ inFlight c →
       (executeJobSettled address result now c').1 = Fulfilled
       ∧ (isRunning <$> heap (executeJobSettled address result now c').2 !! address)
         = Some false).
Proof.
  cbv zeta.
  assert (heap (removeJob id c).2 = heap c
          ∧ inFlight (removeJob id c).2 = inFlight c) as [Hh Hi].
  { unfold removeJob. by destruct (mapHas id (jobs c)). }
  split_and!; [..|done|done|].
  - unfold removeJob. by destruct (mapHas id (jobs c)).
  - unfold removeJob. destruct (mapHas id (jobs c)) eqn:Hhas; cbn [snd].
    + unfold triggerJob. cbn [jobs]. by rewrite mapGet_mapDelete.
    + unfold triggerJob. by rewrite (mapGet_None_mapHas _ _ Hhas).
  - intros address job result Hjob Hin.
    pose proof (lookup_lt_Some _ _ _ Hjob) as Hlt.
    unfold executeJobSettled. rewrite Hh, Hi, Hjob.
    rewrite bool_decide_eq_true_2 by done. cbn [fst snd heap]. split.
    + by destruct result.
    + by rewrite list_lookup_insert_eq.
Qed.

(** ** The polling loop *)

(** Whether the loop, at an instant, takes a job to be due. *)
Definition due (now : Z) (job : CronJob) : bool :=
  match nextRun job with
  | Some next => negb (isRunning job) && (next <=? now)
  | None => false
  end.




Definition started (now : Z) (job : CronJob) : CronJob :=
  {| jobId := jobId job; schedule := schedule job; lastRun := Some now;
     nextRun := nextRun job; isRunning := true; runCount := runCount job + 1 |}.




Lemma removeJob_forgets_witness :
  let c := (triggerJob "reminder-job" 1000 oneJob).2 in
  heap c !! 0%nat
  = Some {| jobId := "reminder-job"; schedule := "0 9 * * *";
            lastRun := Some 1000; nextRun := Some 10000;
            isRunning := true; runCount := 1 |}
  ∧ (0%nat ∈ inFlight c)
  ∧ (isRunning
       <$> heap (executeJobSettled 0%nat Fulfilled 2000 (removeJob "reminder-job" c).2).2
           !! 0%nat)
    = Some false.
Proof.
  cbv zeta.
  assert (heap (triggerJob "reminder-job" 1000 oneJob).2 !! 0%nat
          = Some {| jobId := "reminder-job"; schedule := "0 9 * * *";
                    lastRun := Some 1000; nextRun := Some 10000;
                    isRunning := true; runCount := 1 |}) as Hjob by reflexivity.
  assert (0%nat ∈ inFlight (triggerJob "reminder-job" 1000 oneJob).2) as Hin
    by (vm_compute; by left).
  split; [exact Hjob|]. split; [exact Hin|].
  pose proof (removeJob_forgets "reminder-job" 2000
                (triggerJob "reminder-job" 1000 oneJob).2) as H.
  cbv zeta in H. destruct H as (_ & _ & _ & _ & H).
  exact (proj2 (H 0%nat _ Fulfilled Hjob Hin)).
Defined.

End CronExtras.

(* ===================================================================== *)
(** * More about the reminder engine *)
(* ===================================================================== *)

Module EngineExtras.
Import StringFacts StoreFacts EngineFacts.

(** ** Passes that do not overlap *)

(** Over any history in which every pass has ended before the next one
    starts, at whatever instants, with the gateway connecting or
    disconnecting and new reminders being stored in between,
    [sent_reminders] only grows, and the records inserted contain at most
    one for a reminder and a tag, and none when a record for the pair is
    already there. *)
Theorem serial_passes_never_duplicate (svc : ReminderService) (es : list stage)
    (w : World) (id : value) (type : string) :
  sentFresh (db w) = true →
  ∃ inserted,
    sentReminders (db (serial svc es w)) = sentReminders (db w) ++ inserted
    ∧ (sentCount id type (mapValues inserted) ≤ 1)%nat
    ∧ (hasReminderBeenSent id type (db w) = true →
       sentCount id type (mapValues inserted) = 0%nat).
Proof. apply serial_passes_record_once. Qed.

Lemma serial_passes_never_duplicate_witness :
  ∃ inserted,
    sentReminders (db (serial defaultService [Pass (day 0); Pass (day 0)] connected0))
    = sentReminders (db connected0) ++ inserted
    ∧ (sentCount (VNum 1) (dayTag 7) (mapValues inserted) ≤ 1)%nat.
Proof.
  assert (sentFresh (db connected0) = true) as Hf by reflexivity.
  destruct (serial_passes_never_duplicate defaultService [Pass (day 0); Pass (day 0)]
              connected0 (VNum 1) (dayTag 7) Hf)
    as (inserted & H1 & H2 & _).
  exists inserted. split; [exact H1|exact H2].
Defined.

(** A call of [processReminders], followed by enough resumptions of the
    pass it has started and by nothing else, brings the pass to its end: the
    callback terminates, and the world is then what the pass makes of it
    alone. *)
Theorem called_pass_comes_to_its_end (svc : ReminderService) (now : Z)
    (s : System) :
  ∃ n,
    let s' := run svc (Call now :: repeat (Resume (length (passes s))) n) s in
    world s' = (wholePass svc now (world s)).2
    ∧ passes s' = passes s ++ [Ended (wholePass svc now (world s)).1].
Proof.
  destruct (whole_pass_history svc now s) as (n & Hn).
  exists n. cbv zeta. by rewrite Hn.
Qed.

(** ** Delivery disabled *)

(** With XMTP delivery disabled, [sendReminder] returns success and leaves
    the world, gateway included, as it is.  A pass that runs to its end has
    then stored a record for every reminder row and configured interval with
    exactly that many days left; and when no reminder row has 0 days left
    or fewer, the pass does run to its end and the gateway is never
    touched. *)
Theorem disabled_delivery_records (svc : ReminderService) (now : Z) (w : World) :
  enableXMTP svc = false →
  sentFresh (db w) = true →
  (∀ to domain d, alone (sendReminder svc to domain d now) w = (Returned true, w))
  ∧ (∀ w', wholePass svc now w = (Returned tt, w') →
           ∀ reminder interval,
             reminder ∈ mapValues (reminders (db w)) →
             interval ∈ reminderIntervals svc →
             daysUntilExpiry reminder now = Some interval →
             hasReminderBeenSent (get reminder "id") (dayTag interval) (db w')
             = true)
  ∧ ((∀ reminder d,
        reminder ∈ mapValues (reminders (db w)) →
        daysUntilExpiry reminder now = Some d → 0 < d) →
     ∃ w', wholePass svc now w = (Returned tt, w')
           ∧ xmtp w' = xmtp w).
Proof. apply disabled_delivery_records_unsent. Qed.

Lemma disabled_delivery_records_witness :
  enableXMTP disabledService = false
  ∧ sentFresh (db world0) = true
  ∧ alone (sendReminder disabledService (VStr "0xtest123") (VStr "test.eth") 7 (day 0))
      world0
    = (Returned true, world0).
Proof.
  assert (enableXMTP disabledService = false) as Hx by reflexivity.
  assert (sentFresh (db world0) = true) as Hf by reflexivity.
  split; [exact Hx|]. split; [exact Hf|].
  exact (proj1 (disabled_delivery_records disabledService (day 0) world0 Hx Hf)
               (VStr "0xtest123") (VStr "test.eth") 7).
Defined.

(** ** When a pass returns *)

(** A computation that always returns. *)
Definition returns (m : M unit) : Prop := ∀ w, ∃ w', m w = (Returned tt, w').

Lemma returns_ret : returns (mret tt).
Proof. intros w. by exists w. Qed.

Lemma returns_bind (m : M unit) (f : unit → M unit) :
  returns m → (∀ a, returns (f a)) → returns (m ≫= f).
Proof.
  intros Hm Hf w. unfold mbind, M_bind.
  destruct (Hm w) as (w1 & ->). apply Hf.
Qed.

Lemma returns_forEach {A : Type} (f : A → M unit) (l : list A) :
  (∀ x, x ∈ l → returns (f x)) → returns (forEach f l).
Proof.
  induction l as [|x l IH]; intros Hf; cbn [forEach]; [apply returns_ret|].
  apply returns_bind; [apply Hf; by left|].
  intros _. apply IH. intros y Hy. apply Hf. by right.
Qed.

Lemma returns_notifyInterval (svc : ReminderService) (now : Z) (reminder : Row)
    (d interval : Z) :
  returns (alone (notifyInterval svc now reminder d interval)).
Proof.
  intros w. rewrite notifyInterval_unfold.
  destruct (hasReminderBeenSent _ _ (db w)); [by eexists|]. cbn zeta.
  assert (∀ w1, ∃ w',
            (insertSent (get reminder "id") (dayTag interval) VUndef now
             ≫= λ _, countProcessed (get reminder "id") (dayTag interval) false) w1
            = (Returned tt, w')) as Hrec.
  { intros w1. unfold mbind, M_bind, insertSent, countProcessed.
    destruct (insert _ _ now (db w1)); by eexists. }
  destruct (enableXMTP svc); [|apply Hrec].
  destruct (sendMessage _ _ now (xmtp w)) as [[message|e] x']; [apply Hrec|].
  by eexists.
Qed.

Lemma returns_processInterval (svc : ReminderService) (now : Z) (reminder : Row)
    (days : option Z) (interval : Z) :
  returns (alone (processInterval svc now reminder days interval)).
Proof.
  unfold processInterval. destruct days as [d|]; [|apply returns_ret].
  destruct (d =? interval); [apply returns_notifyInterval|apply returns_ret].
Qed.

(** A failed send for a threshold interval never ends the pass: the loop
    over the intervals of a row always returns, whatever the gateway does.
    So a pass can only be ended by the post-expiry branch, and a pass over
    reminders none of which is at or past expiry runs to its end. *)
Theorem pass_returns_without_expired (svc : ReminderService) (now : Z) (w : World) :
  (∀ reminder days w1,
     ∃ w2,
       alone (forOf (processInterval svc now reminder days) (reminderIntervals svc)) w1
       = (Returned tt, w2))
  ∧ ((∀ reminder d,
        reminder ∈ mapValues (reminders (db w)) →
        daysUntilExpiry reminder now = Some d → 0 < d) →
     ∃ w', wholePass svc now w = (Returned tt, w')).
Proof.
  split.
  - intros reminder days w1. rewrite alone_forOf. revert w1.
    apply returns_forEach. intros x _. apply returns_processInterval.
  - intros Hpos. rewrite wholePass_unfold.
    apply returns_forEach. intros r Hr w1. rewrite alone_processReminder.
    revert w1. apply returns_bind.
    + apply returns_forEach. intros x _. apply returns_processInterval.
    + intros _. unfold processExpired.
      destruct (daysUntilExpiry r now) as [d|] eqn:Hd; [|apply returns_ret].
      specialize (Hpos r d Hr Hd).
      rewrite (proj2 (Z.leb_gt d 0)) by lia. apply returns_ret.
Qed.

Lemma pass_returns_without_expired_witness :
  (∀ reminder d,
     reminder ∈ mapValues (reminders (db world0)) →
     daysUntilExpiry reminder (day 0) = Some d → 0 < d)
  ∧ ∃ w', wholePass defaultService (day 0) world0 = (Returned tt, w').
Proof.
  assert (∀ reminder d,
            reminder ∈ mapValues (reminders (db world0)) →
            daysUntilExpiry reminder (day 0) = Some d → 0 < d) as Hpos.
  { intros reminder d Hin. cbn in Hin.
    apply elem_of_cons in Hin as [->|Hin]; [|by apply elem_of_nil in Hin].
    vm_compute. intros [= <-]. reflexivity. }
  split; [exact Hpos|].
  exact (proj2 (pass_returns_without_expired defaultService (day 0) world0) Hpos).
Defined.

(** ** Days left *)

Lemma ceilDiv_bounds (a : Z) :
  msPerDay * (ceilDiv a msPerDay - 1) < a ≤ msPerDay * ceilDiv a msPerDay.
Proof.
  unfold ceilDiv, msPerDay.
  pose proof (Z.div_mod (- a) (1000 * 60 * 60 * 24) ltac:(lia)) as H1.
  pose proof (Z.mod_pos_bound (- a) (1000 * 60 * 60 * 24) ltac:(lia)) as H2.
  lia.
Qed.

(** The days left never grow as time passes; they drop by at most one
    over any stretch of at most 24 hours, so that passes made at least daily
    see every number of days on the way down; and a reminder that has
    expired stays expired. *)
Theorem days_left_decrease (reminder : Row) (now now' d d' : Z) :
  daysUntilExpiry reminder now = Some d →
  daysUntilExpiry reminder now' = Some d' →
  now ≤ now' →
  d' ≤ d
  ∧ (now' - now ≤ msPerDay → d - d' ≤ 1)
  ∧ (d ≤ 0 → d' ≤ 0).
Proof.
  unfold daysUntilExpiry.
  destruct (dateGetTime (get reminder "expiry_date")) as [expiry|]; [|done].
  cbn. intros [= <-] [= <-] Hle.
  pose proof (ceilDiv_bounds (expiry - now)) as H1.
  pose proof (ceilDiv_bounds (expiry - now')) as H2.
  unfold msPerDay in *. lia.
Qed.

Lemma days_left_decrease_witness :
  daysUntilExpiry seeded (day 6) = Some 1
  ∧ daysUntilExpiry seeded (day 7) = Some 0
  ∧ day 6 ≤ day 7
  ∧ 0 ≤ 1.
Proof.
  assert (daysUntilExpiry seeded (day 6) = Some 1) as H1 by (vm_compute; reflexivity).
  assert (daysUntilExpiry seeded (day 7) = Some 0) as H2 by (vm_compute; reflexivity).
  assert (day 6 ≤ day 7) as H3 by (unfold day, msPerDay; lia).
  split; [exact H1|]. split; [exact H2|]. split; [exact H3|].
  exact (proj1 (days_left_decrease seeded (day 6) (day 7) 1 0 H1 H2 H3)).
Defined.

(** ** Recording, then checking *)

(** Once [recordSentReminder] has stored a record for a reminder and a
    tag, [hasReminderBeenSent] answers yes for that pair; for every other
    pair its answer is what it was. *)
Theorem recorded_then_found (id : value) (type : string) (now : Z) (w : World) :
  sentFresh (db w) = true →
  let w' := (alone (recordSentReminder id type VUndef now) w).2 in
  hasReminderBeenSent id type (db w') = true
  ∧ (∀ id' type',
       hasReminderBeenSent id' type' (db w')
       = hasReminderBeenSent id' type' (db w)
         || (bool_decide (id = id') && bool_decide (type = type')))
  ∧ xmtp w' = xmtp w
  ∧ reminders (db w') = reminders (db w).
Proof.
  intros Hf w'. subst w'. rewrite alone_recordSentReminder.
  destruct (insertSent_spec id type now w Hf) as (d' & -> & Hs & Hr & _).
  cbn [snd db xmtp].
  assert (∀ id' type',
            hasReminderBeenSent id' type' d'
            = hasReminderBeenSent id' type' (db w)
              || (bool_decide (id = id') && bool_decide (type = type'))) as Hall.
  { intros id' type'. rewrite (has_app id' type' (db w) d' _ Hs). cbn.
    by rewrite storedSent_match, orb_false_r. }
  split_and!; [|done..].
  rewrite Hall, !bool_decide_eq_true_2 by done. cbn. by rewrite orb_true_r.
Qed.

Lemma recorded_then_found_witness :
  sentFresh (db world0) = true
  ∧ hasReminderBeenSent (VNum 1) "day_7" (db world0) = false
  ∧ hasReminderBeenSent (VNum 1) "day_7"
      (db (alone (recordSentReminder (VNum 1) "day_7" VUndef (day 0)) world0).2)
    = true.
Proof.
  assert (sentFresh (db world0) = true) as Hf by reflexivity.
  split; [exact Hf|]. split; [reflexivity|].
  pose proof (recorded_then_found (VNum 1) "day_7" (day 0) world0 Hf) as H.
  cbv zeta in H. exact (proj1 H).
Defined.

(** ** Tags *)

(** Different intervals have different tags, so a record for one interval
    never stands in for another; the tag of the post-expiry branch is the
    tag of the interval 1 and of no other. *)
Theorem tags_distinct (i j : Z) :
  (dayTag i = dayTag j ↔ i = j)
  ∧ (dayTag i = gracePeriodType ↔ i = 1).
Proof.
  assert (∀ a b, dayTag a = dayTag b → a = b) as Hinj.
  { intros a b H. unfold dayTag, numberToString in H.
    apply String.app_inj in H. by apply (inj pretty) in H. }
  split.
  - split; [apply Hinj|by intros ->].
  - split; [|by intros ->]. intros H. by apply Hinj.
Qed.

(** ** A pass repeated on the same day *)

(** Once stored and counted, a delivery is found. *)
Lemma record_found (id : value) (type : string) (now : Z) (post : bool)
    (w : World) (x : Xmtp) :
  sentFresh (db w) = true →
  ∃ w1,
    (insertSent id type VUndef now ≫= λ _, countProcessed id type post)
      {| db := db w; xmtp := x; processed := processed w |}
    = (Returned tt, w1)
    ∧ hasReminderBeenSent id type (db w1) = true.
Proof.
  intros Hf.
  destruct (record_and_count id type now post w x Hf) as (d' & -> & _ & _ & _ & Hhas).
  by eexists.
Qed.

Lemma during_has (id : value) (type : string) (w w' : World) :
  during w w' →
  hasReminderBeenSent id type (db w) = true →
  hasReminderBeenSent id type (db w') = true.
Proof. intros [Hev _]. by apply hasReminderBeenSent_evolves. Qed.

(** [quietAfter m m']: wherever [m] has returned, [m'] returns the same and
    changes nothing, also later in the pass; where [m] has thrown, [m']
    throws the same at once. *)
Definition quietAfter {A : Type} (m m' : M A) : Prop :=
  ∀ w, sentFresh (db w) = true →
    match m w with
    | (Returned a, w1) => ∀ w', during w1 w' → m' w' = (Returned a, w')
    | (Threw e, w1) => m' w1 = (Threw e, w1)
    end.

Lemma quietAfter_ret {A : Type} (a : A) : quietAfter (mret a) (mret a).
Proof. by intros w Hf w' _. Qed.

Lemma quietAfter_bind {A B : Type} (m m' : M A) (f f' : A → M B) :
  lifts during m → (∀ a, lifts during (f a)) →
  quietAfter m m' → (∀ a, quietAfter (f a) (f' a)) →
  quietAfter (m ≫= f) (m' ≫= f').
Proof.
  intros Hkm Hkf Hm Hf w Hw. unfold mbind, M_bind.
  specialize (Hm w Hw). specialize (Hkm w Hw).
  destruct (m w) as [[a|e] w1]; cbn in Hkm.
  - pose proof (during_fresh _ _ Hkm) as Hw1.
    specialize (Hf a w1 Hw1). specialize (Hkf a w1 Hw1).
    destruct (f a w1) as [[b|e] w2]; cbn in Hkf.
    + intros w' Hacc. rewrite (Hm w') by by eapply during_trans.
      by apply Hf.
    + by rewrite (Hm w2 Hkf).
  - by rewrite Hm.
Qed.

Lemma quietAfter_forEach {A : Type} (f f' : A → M unit) (l : list A) :
  (∀ x, lifts during (f x)) →
  (∀ x, x ∈ l → quietAfter (f x) (f' x)) →
  quietAfter (forEach f l) (forEach f' l).
Proof.
  intros Hk. induction l as [|x l IH]; intros Hq; cbn [forEach].
  - apply quietAfter_ret.
  - apply quietAfter_bind.
    + apply Hk.
    + intros _. apply (lifts_forEach during during_refl during_trans during_fresh).
      intros y _. apply Hk.
    + apply Hq. by left.
    + intros _. apply IH. intros y Hy. apply Hq. by right.
Qed.

Lemma quietAfter_notifyInterval (svc : ReminderService) (now now' : Z)
    (reminder : Row) (d interval : Z) :
  quietAfter (alone (notifyInterval svc now reminder d interval))
             (alone (notifyInterval svc now' reminder d interval)).
Proof.
  intros w Hf.
  assert (∀ w1 w',
            hasReminderBeenSent (get reminder "id") (dayTag interval) (db w1) = true →
            during w1 w' →
            alone (notifyInterval svc now' reminder d interval) w' = (Returned tt, w'))
    as Hfound.
  { intros w1 w' Hhas Hacc. rewrite notifyInterval_unfold.
    by rewrite (during_has _ _ w1 w' Hacc Hhas). }
  rewrite notifyInterval_unfold.
  destruct (hasReminderBeenSent _ _ (db w)) eqn:Hhas.
  { intros w' Hacc. by eapply Hfound. }
  cbn zeta. destruct (enableXMTP svc) eqn:Hx.
  - destruct (sendMessage _ _ now (xmtp w)) as [[message|e] x'] eqn:Hsend.
    + destruct (record_found (get reminder "id") (dayTag interval) now false w x' Hf)
        as (w1 & -> & Hhas1).
      intros w' Hacc. by eapply Hfound.
    + pose proof (sendMessage_rejects _ _ _ _ _ _ Hsend) as ->. rewrite world_eta.
      intros w' Hacc. rewrite notifyInterval_unfold.
      destruct (hasReminderBeenSent _ _ (db w')); [done|]. cbn zeta. rewrite Hx.
      assert (isConnected (xmtp w') = isConnected (xmtp w)) as Hc
        by (by destruct Hacc as (_ & _ & Hc & _)).
      rewrite (sendMessage_rejects_again _ _
                 (createReminderMessage (toString (get reminder "domain")) d)
                 _ now' _ _ (xmtp w') _ Hsend Hc).
      by rewrite world_eta.
  - destruct (record_found (get reminder "id") (dayTag interval) now false w (xmtp w) Hf)
      as (w1 & Hrec & Hhas1).
    rewrite world_eta in Hrec. rewrite Hrec.
    intros w' Hacc. by eapply Hfound.
Qed.

Lemma quietAfter_notifyExpired (now now' : Z) (reminder : Row) :
  quietAfter (alone (notifyExpired now reminder))
             (alone (notifyExpired now' reminder)).
Proof.
  intros w Hf.
  assert (∀ w1 w',
            hasReminderBeenSent (get reminder "id") gracePeriodType (db w1) = true →
            during w1 w' →
            alone (notifyExpired now' reminder) w' = (Returned tt, w'))
    as Hfound.
  { intros w1 w' Hhas Hacc. rewrite notifyExpired_unfold.
    by rewrite (during_has _ _ w1 w' Hacc Hhas). }
  rewrite notifyExpired_unfold.
  destruct (hasReminderBeenSent _ _ (db w)) eqn:Hhas.
  { intros w' Hacc. by eapply Hfound. }
  destruct (sendMessage _ _ now (xmtp w)) as [[message|e] x'] eqn:Hsend.
  - destruct (record_found (get reminder "id") gracePeriodType now true w x' Hf)
      as (w1 & -> & Hhas1).
    intros w' Hacc. by eapply Hfound.
  - pose proof (sendMessage_rejects _ _ _ _ _ _ Hsend) as ->. rewrite world_eta.
    rewrite notifyExpired_unfold, Hhas.
    rewrite (sendMessage_rejects_again _ _
               (expiredMessage (toString (get reminder "domain")))
               _ now' _ _ (xmtp w) _ Hsend eq_refl).
    by rewrite world_eta.
Qed.

Lemma quietAfter_processReminder (svc : ReminderService) (now now' : Z)
    (reminder : Row) :
  daysUntilExpiry reminder now' = daysUntilExpiry reminder now →
  quietAfter (alone (processReminder svc now reminder))
             (alone (processReminder svc now' reminder)).
Proof.
  intros Hd.
  assert (quietAfter
            (forEach (λ interval,
                        alone (processInterval svc now reminder
                                 (daysUntilExpiry reminder now) interval))
                     (reminderIntervals svc)
             ≫= λ _, alone (processExpired now reminder
                               (daysUntilExpiry reminder now)))
            (forEach (λ interval,
                        alone (processInterval svc now' reminder
                                 (daysUntilExpiry reminder now) interval))
                     (reminderIntervals svc)
             ≫= λ _, alone (processExpired now' reminder
                               (daysUntilExpiry reminder now)))) as H.
  { apply quietAfter_bind.
    - apply (lifts_forEach during during_refl during_trans during_fresh).
      intros interval _. apply during_processInterval.
    - intros _. apply during_processExpired.
    - apply quietAfter_forEach; [intros interval; apply during_processInterval|].
      intros interval _. unfold processInterval.
      destruct (daysUntilExpiry reminder now) as [d|]; [|apply quietAfter_ret].
      destruct (d =? interval);
        [apply quietAfter_notifyInterval|apply quietAfter_ret].
    - intros _. unfold processExpired.
      destruct (daysUntilExpiry reminder now) as [d|]; [|apply quietAfter_ret].
      destruct (d <=? 0); [apply quietAfter_notifyExpired|apply quietAfter_ret]. }
  intros w Hf. specialize (H w Hf).
  rewrite alone_processReminder.
  destruct ((forEach _ (reminderIntervals svc) ≫= _) w) as [[a|e] w1].
  - intros w' Hacc. rewrite alone_processReminder, Hd. by apply H.
  - by rewrite alone_processReminder, Hd.
Qed.

(** A pass that follows a pass which has ended, at an instant at which every
    reminder is as many days from its expiry as it was, sends nothing,
    stores nothing and counts nothing, and it ends as the first one did: it
    returns if that one returned, and is ended by the same exception if that
    one was.  What the first pass delivered it finds recorded; what the
    gateway refused then it refuses again. *)
Theorem repeated_pass_changes_nothing (svc : ReminderService) (now now' : Z)
    (w : World) :
  sentFresh (db w) = true →
  (∀ reminder, reminder ∈ mapValues (reminders (db w)) →
     daysUntilExpiry reminder now' = daysUntilExpiry reminder now) →
  wholePass svc now' (wholePass svc now w).2 = wholePass svc now w.
Proof.
  intros Hf Hdays.
  assert (lifts during (forEach (λ r, alone (processReminder svc now r))
                          (mapValues (reminders (db w))))) as Hkeeps.
  { apply (lifts_forEach during during_refl during_trans during_fresh).
    intros r _. apply during_processReminder. }
  specialize (Hkeeps w Hf).
  assert (quietAfter (forEach (λ r, alone (processReminder svc now r))
                        (mapValues (reminders (db w))))
            (forEach (λ r, alone (processReminder svc now' r))
                     (mapValues (reminders (db w))))) as Hq.
  { apply quietAfter_forEach; [intros r; apply during_processReminder|].
    intros r Hr. apply quietAfter_processReminder. by apply Hdays. }
  specialize (Hq w Hf).
  rewrite (wholePass_unfold svc now w) in *.
  destruct (forEach _ (mapValues (reminders (db w))) w) as [[[]|e] w1] eqn:Hpass;
    cbn [snd] in *; rewrite wholePass_unfold;
    destruct Hkeeps as (Hev & Hr & _); rewrite Hr.
  - apply Hq. apply during_refl. by eapply evolves_fresh.
  - exact Hq.
Qed.

Lemma repeated_pass_changes_nothing_witness :
  wholePass defaultService (day 0 + 1000)
    (wholePass defaultService (day 0) connected0).2
  = wholePass defaultService (day 0) connected0.
Proof.
  assert (sentFresh (db connected0) = true) as Hf by reflexivity.
  assert (∀ reminder, reminder ∈ mapValues (reminders (db connected0)) →
            daysUntilExpiry reminder (day 0 + 1000)
            = daysUntilExpiry reminder (day 0)) as Hd.
  { intros reminder Hr. cbn in Hr. apply elem_of_cons in Hr as [->|Hr].
    - vm_compute. reflexivity.
    - by apply elem_of_nil in Hr. }
  exact (repeated_pass_changes_nothing defaultService (day 0) (day 0 + 1000)
           connected0 Hf Hd).
Defined.

(** ** What a pass touches *)

(** A pass that runs alone, whether it returns or is ended by an exception,
    leaves the reminders as they are and the gateway connected or not as it
    was; it removes no message from the gateway's log and no record from
    [sent_reminders], and changes none: both have only grown at the end. *)
Theorem pass_only_adds (svc : ReminderService) (now : Z) (w : World) :
  sentFresh (db w) = true →
  let w' := (wholePass svc now w).2 in
  reminders (db w') = reminders (db w)
  ∧ isConnected (xmtp w') = isConnected (xmtp w)
  ∧ (∃ sent, sentMessages (xmtp w') = sentMessages (xmtp w) ++ sent)
  ∧ (∃ inserted, sentReminders (db w') = sentReminders (db w) ++ inserted)
  ∧ sentFresh (db w') = true.
Proof.
  intros Hf w'. subst w'. rewrite wholePass_unfold.
  destruct (lifts_forEach during during_refl during_trans during_fresh
              (λ r, alone (processReminder svc now r))
              (mapValues (reminders (db w)))
              (λ r _, during_processReminder svc now r) w Hf)
    as ((Hf' & snew & pnew & Hs & _) & Hr & Hc & Hm).
  split_and!; try done. by exists snew.
Qed.

Lemma pass_only_adds_witness :
  sentFresh (db connected0) = true
  ∧ reminders (db (wholePass defaultService (day 0) connected0).2)
    = reminders (db connected0).
Proof.
  assert (sentFresh (db connected0) = true) as Hf by reflexivity.
  split; [exact Hf|].
  pose proof (pass_only_adds defaultService (day 0) connected0 Hf) as H.
  cbv zeta in H. exact (proj1 H).
Defined.

End EngineExtras.
